(** * Kuzzle cluster coordinator: the per-node component of lib/cluster/index.js

    A shallow embedding of [KuzzleCluster]: the replica of realtime rooms
    ([_rooms.flat], [_rooms.tree]), the hooks and pipes bound to the host's
    event bus, the shutdown path and the two realtime overrides, followed by
    the properties the specification states about them. *)

From stdpp Require Import gmap strings list fin_maps sorting pretty.
From Stdlib Require Import ZArith Ascii.

Set Warnings "-clear-no-such-hyp,-register-all".

Open Scope string_scope.
Open Scope list_scope.
Open Scope Z_scope.

(** ** JavaScript values the cluster handles *)

(** A JavaScript number as the cluster meets it: a count or a version sent by
    the coordinator (a 64-bit integer reply) or [NaN]. *)
Inductive number : Type :=
| NaN
| Num (z : Z).

#[global] Instance number_eq_dec : EqDecision number.
Proof. solve_decision. Defined.

(** [parseInt(_count, 10)] on a number argument: the number is printed and
    read back; an integer below 10^21 in magnitude is printed in plain digits
    and comes back unchanged, [NaN] is printed as a word and read as [NaN]. *)
Definition parseInt10 (n : number) : number := n.

(** [count === 0] *)
Definition is_zero (n : number) : bool :=
  match n with
  | Num 0 => true
  | _ => false
  end.

(** The errors that travel through the cluster's promise chains. *)
Inductive error : Type :=
| TypeError (msg : string)
| BadRequestError (msg : string)
| NotFoundError (msg : string)
| ExternalError (msg : string).

#[global] Instance error_eq_dec : EqDecision error.
Proof. solve_decision. Defined.

(** The completion of a call: a value, or an exception.  For a promise the
    same type reads: fulfilled with a value, or rejected with a reason. *)
Inductive result (A : Type) : Type :=
| Ok (a : A)
| Err (e : error).
Arguments Ok {A} a.
Arguments Err {A} e.

(** Reading a member of [undefined] throws. *)
Definition undefined_has_no (prop : string) : error :=
  TypeError ("Cannot read property '" +:+ prop +:+ "' of undefined").

(** ** The replica: [this._rooms] *)

Module Replica.

(** The value stored under a room id in [flat]. *)
Record room : Type := Room {
  room_index : string;
  room_collection : string;
  room_count : number;
}.

#[global] Instance room_eq_dec : EqDecision room.
Proof. solve_decision. Defined.

(** [flat : Map.<room id, room>] and
    [tree : Map.<index, Map.<collection, Set.<room id>>>]. *)
Record rooms : Type := Rooms {
  flat : gmap string room;
  tree : gmap string (gmap string (gset string));
}.

(** The constructor's [{flat: new Map(), tree: new Map()}]. *)
Definition empty : rooms := Rooms ∅ ∅.

(** [deleteRoomCount (roomId)].  The inner maps and sets are JavaScript
    objects mutated in place; here each mutated object is stored back under
    its key.  [collections.get] and [rooms.delete] throw when their receiver
    is [undefined]; [flat] has lost the room by then. *)
Definition deleteRoomCount (roomId : string) (r : rooms) : rooms * result unit :=
  match flat r !! roomId with
  | None => (r, Ok ())
  | Some room =>
    let index := room_index room in
    let collection := room_collection room in
    let flat' := delete roomId (flat r) in
    match tree r !! index with
    | None => (Rooms flat' (tree r), Err (undefined_has_no "get"))
    | Some collections =>
      match collections !! collection with
      | None => (Rooms flat' (tree r), Err (undefined_has_no "delete"))
      | Some rms =>
        let rms' := rms ∖ {[ roomId ]} in
        if bool_decide (size rms' = 0%nat) then
          let collections' := delete collection collections in
          if bool_decide (size collections' = 0%nat) then
            (Rooms flat' (delete index (tree r)), Ok ())
          else
            (Rooms flat' (<[index := collections']> (tree r)), Ok ())
        else
          (Rooms flat'
                 (<[index := <[collection := rms']> collections]> (tree r)),
           Ok ())
      end
    end
  end.

(** [setRoomCount (index, collection, roomId, _count)] *)
Definition setRoomCount (index collection roomId : string) (_count : number)
    (r : rooms) : rooms * result unit :=
  let count := parseInt10 _count in
  if is_zero count then deleteRoomCount roomId r
  else
    let val := Room index collection count in
    let flat' := <[roomId := val]> (flat r) in
    let collections :=
      match tree r !! index with
      | None => ∅
      | Some collections => collections
      end in
    let collections :=
      match collections !! collection with
      | None => <[collection := ∅]> collections
      | Some _ => collections
      end in
    let rms := default ∅ (collections !! collection) in
    (Rooms flat'
           (<[index := <[collection := rms ∪ {[ roomId ]}]> collections]> (tree r)),
     Ok ()).

(** A call of one of the two mutators. *)
Inductive call : Type :=
| SetRoomCount (index collection roomId : string) (_count : number)
| DeleteRoomCount (roomId : string).

Definition perform (c : call) (r : rooms) : rooms * result unit :=
  match c with
  | SetRoomCount index collection roomId _count =>
      setRoomCount index collection roomId _count r
  | DeleteRoomCount roomId => deleteRoomCount roomId r
  end.

(** A sequence of calls, one after the other; an exception ends it. *)
Fixpoint perform_all (cs : list call) (r : rooms) : rooms * result unit :=
  match cs with
  | [] => (r, Ok ())
  | c :: cs' =>
    match perform c r with
    | (r', Ok _) => perform_all cs' r'
    | (r', Err e) => (r', Err e)
    end
  end.

(** [roomId] is a member of the set [tree[index][collection]]. *)
Definition in_tree (r : rooms) (index collection roomId : string) : Prop :=
  ∃ collections rms,
    tree r !! index = Some collections
    ∧ collections !! collection = Some rms
    ∧ roomId ∈ rms.

(** The members of [tree[index][collection]], none when a level is missing. *)
Definition members (r : rooms) (index collection : string) : gset string :=
  default ∅ (default ∅ (tree r !! index) !! collection).

(** The replica invariant of the data model: a room of [flat] sits in the
    tree set of its own index and collection and in no other set, and every
    member of a tree set is a room of [flat]. *)
Definition replica_inv (r : rooms) : Prop :=
  (∀ roomId room, flat r !! roomId = Some room →
     in_tree r (room_index room) (room_collection room) roomId
     ∧ ∀ index collection, in_tree r index collection roomId →
         index = room_index room ∧ collection = room_collection room)
  ∧ (∀ index collection roomId,
       in_tree r index collection roomId → is_Some (flat r !! roomId)).

(** A call keeps a room on its path: a [setRoomCount] with a count other than
    zero names, for a room [flat] already holds, the index and collection
    stored there. *)
Definition keeps_path (r : rooms) (c : call) : bool :=
  match c with
  | SetRoomCount index collection roomId _count =>
    if is_zero (parseInt10 _count) then true
    else match flat r !! roomId with
         | None => true
         | Some room =>
             bool_decide (room_index room = index)
             && bool_decide (room_collection room = collection)
         end
  | DeleteRoomCount _ => true
  end.

Fixpoint keep_paths (cs : list call) (r : rooms) : bool :=
  match cs with
  | [] => true
  | c :: cs' => keeps_path r c && keep_paths cs' (perform c r).1
  end.

(** Three rooms come and go, each on one path throughout. *)
Definition two_rooms : list call :=
  [ SetRoomCount "i1" "c1" "r1" (Num 1);
    SetRoomCount "i1" "c1" "r2" (Num 3);
    SetRoomCount "i1" "c1" "r1" (Num 2);
    SetRoomCount "i2" "c1" "r3" (Num 1);
    SetRoomCount "i1" "c1" "r2" (Num 0);
    DeleteRoomCount "r3" ].

(** The same room id upserted under a second index and collection. *)
Definition moved_room : list call :=
  [ SetRoomCount "i1" "c1" "r" (Num 1);
    SetRoomCount "i2" "c2" "r" (Num 1) ].

End Replica.


(** ** Plain objects

    A [string] stands for a JavaScript string by its code units, one
    character per unit: names of units below 256. *)

Module Obj.

(** A plain object's own enumerable string-keyed properties, in the order
    [Object.keys], [for-in], a spread and [JSON.stringify] meet them
    (ECMAScript's OrdinaryOwnPropertyKeys): first the keys that are array
    indices, in ascending numeric order, then the other keys in the order
    they were created. *)
Definition obj (A : Type) : Type := list (string * A).

Definition is_digit (a : ascii) : bool :=
  (48 <=? N_of_ascii a)%N && (N_of_ascii a <=? 57)%N.

Fixpoint all_digits (s : string) : bool :=
  match s with
  | EmptyString => true
  | String a s' => is_digit a && all_digits s'
  end.

Fixpoint decimal (acc : N) (s : string) : N :=
  match s with
  | EmptyString => acc
  | String a s' => decimal (10 * acc + (N_of_ascii a - 48))%N s'
  end.

(** A key is an array index when it is the canonical decimal spelling (no
    sign, no leading zero) of an integer from 0 to 2^32 - 2. *)
Definition array_index (k : string) : option N :=
  match k with
  | EmptyString => None
  | String a rest =>
    if all_digits k
       && (negb (Ascii.eqb a "0") || String.eqb rest "")
       && (decimal 0 k <? 4294967295)%N
    then Some (decimal 0 k) else None
  end.

(** [Object.keys (o)] *)
Definition keys {A} (o : obj A) : list string := o.*1.

(** The own property [o[k]], [None] when [o] has no own property [k]. *)
Fixpoint get_own {A} (k : string) (o : obj A) : option A :=
  match o with
  | [] => None
  | (k', v) :: o' => if String.eqb k k' then Some v else get_own k o'
  end.

Definition has_own {A} (k : string) (o : obj A) : bool :=
  bool_decide (is_Some (get_own k o)).

(** Writing an own property that exists keeps its place. *)
Fixpoint replace {A} (k : string) (v : A) (o : obj A) : obj A :=
  match o with
  | [] => []
  | (k', v') :: o' =>
    if String.eqb k k' then (k', v) :: o' else (k', v') :: replace k v o'
  end.

(** A new array-index key [k], of value [n], goes before the first key
    that is a larger index or no index at all. *)
Fixpoint insert_index {A} (n : N) (k : string) (v : A) (o : obj A) : obj A :=
  match o with
  | [] => [(k, v)]
  | (k', v') :: o' =>
    match array_index k' with
    | Some n' =>
      if (n <? n')%N then (k, v) :: o else (k', v') :: insert_index n k v o'
    | None => (k, v) :: o
    end
  end.

(** Creating or writing the own data property [k]. *)
Definition set_own {A} (k : string) (v : A) (o : obj A) : obj A :=
  if has_own k o then replace k v o
  else match array_index k with
       | Some n => insert_index n k v o
       | None => o ++ [(k, v)]
       end.

(** The properties every plain object inherits from [Object.prototype];
    each is truthy when read. *)
Definition Object_prototype : list string :=
  [ "constructor"; "__defineGetter__"; "__defineSetter__"; "hasOwnProperty";
    "__lookupGetter__"; "__lookupSetter__"; "isPrototypeOf";
    "propertyIsEnumerable"; "toString"; "valueOf"; "__proto__";
    "toLocaleString" ].

Definition inherited (k : string) : bool := bool_decide (k ∈ Object_prototype).

(** [Array.prototype.sort ()] without a comparator, on strings: ascending
    by code units. *)
Definition code_unit_le (a b : string) : Prop := String.leb a b = true.

#[global] Instance code_unit_le_dec : RelDecision code_unit_le.
Proof. intros a b. unfold code_unit_le. apply _. Defined.

Definition sort (ks : list string) : list string := merge_sort code_unit_le ks.

(** The object that writing the keys [ks] one after the other, each with
    its value [f k], makes of the empty object. *)
Definition build {A} (ks : list string) (f : string → A) : obj A :=
  foldl (λ o k, set_own k (f k) o) [] ks.

End Obj.

(** A JavaScript value: a primitive or a plain object. *)
Inductive value : Type :=
| VUndefined
| VNull
| VBool (b : bool)
| VNumber (n : number)
| VString (s : string)
| VObject (props : list (string * value)).

(** ToBoolean; an object is truthy. *)
Definition truthy (v : value) : bool :=
  match v with
  | VUndefined | VNull => false
  | VBool b => b
  | VNumber NaN => false
  | VNumber (Num z) => negb (z =? 0)
  | VString s => negb (String.eqb s "")
  | VObject _ => true
  end.

(** ToString, as a template literal applies it. *)
Definition to_string (v : value) : string :=
  match v with
  | VUndefined => "undefined"
  | VNull => "null"
  | VBool true => "true"
  | VBool false => "false"
  | VNumber NaN => "NaN"
  | VNumber (Num z) => pretty z
  | VString s => s
  | VObject _ => "[object Object]"
  end.

(** [v.k] on a value that is not [undefined] or [null]: the own property of
    an object, [undefined] when there is none (no name read below is one
    of [Object.prototype]'s). *)
Definition member (k : string) (v : value) : value :=
  match v with
  | VObject props => default VUndefined (Obj.get_own k props)
  | _ => VUndefined
  end.

(** [Object.prototype.hasOwnProperty.call (v, k)]; a primitive has no own
    property of the names read here. *)
Definition hasOwnProperty (v : value) (k : string) : bool :=
  match v with
  | VObject props => Obj.has_own k props
  | _ => false
  end.

(** ** The cluster object and its collaborators *)

(** The object a plugin is handed as its context; its [errors] member
    holds the error constructors. *)
Inductive plugin_context : Type := PluginContext.

(** What the coordinator store, a peer or this node itself knows of a node. *)
Record descriptor : Type := Descriptor {
  node_uuid : string;
  node_pub : string;
  node_router : string;
}.

(** The fields of [KuzzleCluster] that the handlers read or write, and
    those of its [node], whose class is not among the sources: [node.ready],
    [node.pool.size], the lock sets [node.state.locks.create] and
    [node.state.locks.delete], and the versions behind
    [node.state.getVersion]. *)
Record cluster : Type := Cluster {
  uuid : string;
  node : descriptor;
  node_ready : bool;
  node_pool_size : nat;
  locks_create : gset string;
  locks_delete : gset string;
  state_versions : gmap (string * string) Z;
  _rooms : Replica.rooms;
  _isKuzzleStarted : bool;
  _shutdown : bool;
  timers_waitForMissingRooms : Z;
  context : option plugin_context;
}.

(** The object as [new KuzzleCluster (kuzzle)] leaves it.  The class
    extends nothing and assigns no [context] member, in the constructor or
    later: [this.context] is [undefined].  The node is as the specification
    has it before its startup sequence: not ready, no peer in the pool, no
    lock held, no version observed. *)
Definition new_KuzzleCluster (uuidv4 : string) (bindings : descriptor)
    (waitForMissingRooms : Z) : cluster :=
  {| uuid := uuidv4;
     node := bindings;
     node_ready := false;
     node_pool_size := 0;
     locks_create := ∅;
     locks_delete := ∅;
     state_versions := ∅;
     _rooms := Replica.empty;
     _isKuzzleStarted := false;
     _shutdown := false;
     timers_waitForMissingRooms := waitForMissingRooms;
     context := None |}.

Definition set_rooms (r : Replica.rooms) (c : cluster) : cluster :=
  Cluster (uuid c) (node c) (node_ready c) (node_pool_size c) (locks_create c)
    (locks_delete c) (state_versions c) r (_isKuzzleStarted c) (_shutdown c)
    (timers_waitForMissingRooms c) (context c).

Definition set_locks_create (s : gset string) (c : cluster) : cluster :=
  Cluster (uuid c) (node c) (node_ready c) (node_pool_size c) s
    (locks_delete c) (state_versions c) (_rooms c) (_isKuzzleStarted c)
    (_shutdown c) (timers_waitForMissingRooms c) (context c).

Definition set_locks_delete (s : gset string) (c : cluster) : cluster :=
  Cluster (uuid c) (node c) (node_ready c) (node_pool_size c) (locks_create c)
    s (state_versions c) (_rooms c) (_isKuzzleStarted c) (_shutdown c)
    (timers_waitForMissingRooms c) (context c).

Definition set_shutdown (b : bool) (c : cluster) : cluster :=
  Cluster (uuid c) (node c) (node_ready c) (node_pool_size c) (locks_create c)
    (locks_delete c) (state_versions c) (_rooms c) (_isKuzzleStarted c) b
    (timers_waitForMissingRooms c) (context c).

(** Modelled from the spec: [node.state.getVersion], whose class is not
    among the sources; it returns the last observed version of the index
    and collection, zero if unknown. *)
Definition getVersion (c : cluster) (index collection : string) : Z :=
  default 0 (state_versions c !! (index, collection)).

(** A command sent to the coordinator store. *)
Inductive command : Type :=
| ClusterSubOn (tag uuid roomId connectionId filter : string)
| ClusterSubOff (tag uuid roomId connectionId : string)
| ClusterCleanNode (tag uuid : string)
| Sadd (key member : string)
| Srem (key member : string).

(** What the store answers: an integer, the pair [[version, count]] of a
    subscription script, or nothing. *)
Inductive reply : Type :=
| Integer (z : Z)
| VersionCount (version : Z) (count : number)
| Nil.

(** What a handler does to the world outside its own object, in order. *)
Inductive event : Type :=
| Debug (format : string) (args : list value)
| Broadcast (topic : string) (payload : value)
| Redis (c : command)
| StateReset
| Emit (name msg : string)
| ConsoleLog (line : string)
| Delay (ms : Z).

Record world : Type := World {
  me : cluster;
  trace : list event;
}.

(** A computation over the cluster object and the trace.  Read as a
    synchronous block, [Err] is a thrown exception; read as a promise,
    [Err] is a rejection. *)
Definition M (A : Type) : Type := world → world * result A.

#[global] Instance M_ret : MRet M := λ A a w, (w, Ok a).

#[global] Instance M_bind : MBind M := λ A B f m w,
  match m w with
  | (w', Ok a) => f a w'
  | (w', Err e) => (w', Err e)
  end.

Definition throw {A} (e : error) : M A := λ w, (w, Err e).

Definition this : M cluster := λ w, (w, Ok (me w)).

Definition modify (f : cluster → cluster) : M unit :=
  λ w, (World (f (me w)) (trace w), Ok ()).

Definition emit (e : event) : M unit :=
  λ w, (World (me w) (trace w ++ [e]), Ok ()).

Definition debug (format : string) (args : list value) : M unit :=
  emit (Debug format args).

(** [Bluebird.resolve], [Bluebird.reject] *)
Definition Bluebird_resolve {A} (a : A) : M A := mret a.
Definition Bluebird_reject {A} (e : error) : M A := throw e.

(** [p.finally (handler)]: the handler runs once [p] has settled, either
    way; [p]'s outcome stands unless the handler throws. *)
Definition finally {A} (p : M A) (handler : M unit) : M A := λ w,
  match p w with
  | (w', r) =>
    match handler w' with
    | (w'', Ok _) => (w'', r)
    | (w'', Err e) => (w'', Err e)
    end
  end.

(** A callback that returns a promise or throws: the chain adopts the
    promise, a throw rejects it. *)
Definition adopt {A} (call : M (M A)) : M A := p ← call; p.

(** [Bluebird.all] over calls already issued: the first rejection, else
    all the values. *)
Fixpoint Bluebird_all {A} (rs : list (result A)) : result (list A) :=
  match rs with
  | [] => Ok []
  | Ok a :: rs' =>
    match Bluebird_all rs' with
    | Ok l => Ok (a :: l)
    | Err e => Err e
    end
  | Err e :: _ => Err e
  end.

(** How an invocation of a pipe or an override ends. *)
Inductive outcome (A : Type) : Type :=
| Fulfilled (a : A)
| Rejected (e : error)
| Thrown (e : error).
Arguments Fulfilled {A} a.
Arguments Rejected {A} e.
Arguments Thrown {A} e.

(** Runs a handler whose synchronous part returns a promise, up to the
    moment the promise settles. *)
Definition invoke {A} (handler : M (M A)) (w : world) : world * outcome A :=
  match handler w with
  | (w', Err e) => (w', Thrown e)
  | (w', Ok p) =>
    match p w' with
    | (w'', Ok a) => (w'', Fulfilled a)
    | (w'', Err e) => (w'', Rejected e)
    end
  end.

Definition double_quote : string := String (ascii_of_nat 34) EmptyString.

Definition not_connected (action : string) : string :=
  "[%s][warning] could not broadcast " +:+ action
  +:+ ": node not connected to cluster".

Definition not_connected_action (name : string) : string :=
  not_connected (double_quote +:+ name +:+ double_quote +:+ " action").

(** [`{${index}/${collection}}`] *)
Definition tag_of (index collection : string) : string :=
  "{" +:+ index +:+ "/" +:+ collection +:+ "}".

(** An object literal's spread [{...props}] onto the properties written
    before it. *)
Definition spread (props : Obj.obj value) (onto : Obj.obj value) : Obj.obj value :=
  fold_left (λ o kv, Obj.set_own kv.1 kv.2 o) props onto.

(** [const [version, count] = result] *)
Definition destructure (r : reply) : M (Z * number) :=
  match r with
  | VersionCount version count => mret (version, count)
  | _ => throw (TypeError "result is not iterable")
  end.

(** A Kuzzle request, as far as the cluster reads it. *)
Record User : Type := {
  (** [user.isActionAllowed (new Request ({controller, action, index,
      collection}), kuzzle)]: the promise's outcome. *)
  isActionAllowed : string → string → string → string → result bool;
}.

(** [request.input.args] is an object on every request; [body] may be
    missing. *)
Record Request : Type := {
  input_body : value;
  input_args : Obj.obj value;
  context_user : User;
}.

(** The payload of [core:hotelClerk:addSubscription] and
    [core:hotelClerk:join]. *)
Record Diff : Type := {
  diff_index : string;
  diff_collection : string;
  diff_filters : value;
  diff_roomId : string;
  diff_connectionId : string;
  diff_changed : value;
}.

(** The payload of [core:hotelClerk:removeRoomForCustomer]: [object.room]
    and [object.requestContext.connectionId]. *)
Record Removal : Type := {
  room_id : string;
  removal_index : string;
  removal_collection : string;
  requestContext_connectionId : string;
}.

(** The argument of [cleanNode]: [this.node] itself, or another node. *)
Inductive node_ref : Type :=
| ThisNode
| OtherNode (d : descriptor).

Definition state_event (index collection roomId post : string) : value :=
  VObject [ ("index", VString index); ("collection", VString collection);
            ("roomId", VString roomId); ("event", VString "state");
            ("post", VString post) ].

(** ** The methods of [KuzzleCluster] *)

Module KuzzleCluster.
Section Methods.

(** [JSON.stringify] *)
Variable JSON_stringify : value → string.
(** The coordinator store's answer to a command. *)
Variable coordinator : command → result reply.
(** How [node.broadcast (topic, payload)] completes. *)
Variable publish : string → value → result unit.
(** How [node.state.reset ()] settles. *)
Variable state_reset : result unit.
(** What other handlers do to the cluster object while this one waits for
    the event given. *)
Variable meanwhile : event → cluster → cluster.

(** A call that settles later: the call is made, other handlers run, the
    answer arrives. *)
Definition await {A} (e : event) (answer : result A) : M A :=
  λ w, (World (meanwhile e (me w)) (trace w ++ [e]), answer).

Definition redis (c : command) : M reply := await (Redis c) (coordinator c).

Definition node_broadcast (topic : string) (payload : value) : M unit :=
  λ w, (World (me w) (trace w ++ [Broadcast topic payload]), publish topic payload).

Definition node_state_reset : M unit := await StateReset state_reset.

Definition Bluebird_delay (ms : Z) : M unit := await (Delay ms) (Ok ()).

(** [v.k], which throws on [undefined] and [null]. *)
Definition read (v : value) (k : string) : M value :=
  match v with
  | VUndefined | VNull => throw (undefined_has_no k)
  | _ => mret (member k v)
  end.

(** *** hooks *)

Definition indexCacheAdded (payload : Obj.obj value) : M unit :=
  c ← this;
  if negb (node_ready c) then
    debug (not_connected_action "index cache added") [VString (uuid c)]
  else
    node_broadcast "cluster:sync"
      (VObject (spread payload [("event", VString "indexCache:add")])).

Definition indexCacheRemoved (payload : Obj.obj value) : M unit :=
  c ← this;
  if negb (node_ready c) then
    debug (not_connected_action "index cache removed") [VString (uuid c)]
  else
    node_broadcast "cluster:sync"
      (VObject (spread payload [("event", VString "indexCache:remove")])).

Definition notifyDocument (data : value) : M unit :=
  c ← this;
  if negb (node_ready c) then
    debug (not_connected "document notification") [VString (uuid c)]
  else
    node_broadcast "cluster:notify:document" data.

Definition notifyUser (data : value) : M unit :=
  c ← this;
  if negb (node_ready c) then
    debug (not_connected "user notification") [VString (uuid c)]
  else
    node_broadcast "cluster:notify:user" data.

Definition profileUpdated (diff : value) : M unit :=
  c ← this;
  if negb (node_ready c) then
    debug (not_connected_action "profile update") [VString (uuid c)]
  else
    id ← read diff "_id";
    node_broadcast "cluster:sync"
      (VObject [("event", VString "profile"); ("id", id)]).

Definition refreshSpecifications : M unit :=
  c ← this;
  if negb (node_ready c) then
    debug (not_connected_action "refresh specifications") [VString (uuid c)]
  else
    node_broadcast "cluster:sync" (VObject [("event", VString "validators")]).

Definition roleUpdated (diff : value) : M unit :=
  c ← this;
  if negb (node_ready c) then
    debug (not_connected_action "role update") [VString (uuid c)]
  else
    id ← read diff "_id";
    node_broadcast "cluster:sync"
      (VObject [("event", VString "role"); ("id", id)]).

Definition roomCreated (payload_roomId : string) : M unit :=
  modify (λ c, set_locks_create (locks_create c ∪ {[ payload_roomId ]}) c).

Definition roomDeleted (roomId : string) : M unit :=
  modify (λ c, set_locks_delete (locks_delete c ∪ {[ roomId ]}) c).

Definition resetSecurityCache : M unit :=
  node_broadcast "cluster:admin:resetSecurity" VUndefined.

Definition dump (request : Request) : M unit :=
  c ← this;
  if negb (node_ready c) then
    debug (not_connected_action "dump") [VString (uuid c)]
  else
    let suffix := member "suffix" (VObject (input_args request)) in
    let suffix := if truthy suffix then suffix else VString "" in
    node_broadcast "cluster:admin:dump" (VObject [("suffix", suffix)]).

Definition shutdown : M unit :=
  c ← this;
  if negb (node_ready c) then
    debug (not_connected_action "shutdown") [VString (uuid c)]
  else
    node_broadcast "cluster:admin:shutdown" VUndefined.

(** The hooks that check [node.ready] before they broadcast. *)
Inductive guarded_hook : Type :=
| IndexCacheAdded (payload : Obj.obj value)
| IndexCacheRemoved (payload : Obj.obj value)
| NotifyDocument (data : value)
| NotifyUser (data : value)
| ProfileUpdated (diff : value)
| RoleUpdated (diff : value)
| RefreshSpecifications
| Dump (request : Request)
| Shutdown.

(** One of them fires. *)
Definition fire (h : guarded_hook) : M unit :=
  match h with
  | IndexCacheAdded payload => indexCacheAdded payload
  | IndexCacheRemoved payload => indexCacheRemoved payload
  | NotifyDocument data => notifyDocument data
  | NotifyUser data => notifyUser data
  | ProfileUpdated diff => profileUpdated diff
  | RoleUpdated diff => roleUpdated diff
  | RefreshSpecifications => refreshSpecifications
  | Dump request => dump request
  | Shutdown => shutdown
  end.

(** *** business *)

Definition deleteRoomCount (roomId : string) : M unit := λ w,
  match Replica.deleteRoomCount roomId (_rooms (me w)) with
  | (r, res) => (World (set_rooms r (me w)) (trace w), res)
  end.

Definition setRoomCount (index collection roomId : string) (_count : number)
    : M unit := λ w,
  match Replica.setRoomCount index collection roomId _count (_rooms (me w)) with
  | (r, res) => (World (set_rooms r (me w)) (trace w), res)
  end.

Definition _onSubOn (type index collection roomId : string) (result : reply)
    : M unit :=
  '(version, count) ← destructure result;
  c ← this;
  (if getVersion c index collection <? version
   then setRoomCount index collection roomId count
   else mret ());;
  debug "[hook][sub %s] v%d %s/%s/%s = %d"
    [ VString type; VNumber (Num version); VString index; VString collection;
      VString roomId; VNumber count ];;
  node_broadcast "cluster:sync" (state_event index collection roomId type).

(** *** pipes *)

Definition subscriptionAdded (diff : Diff) : M (M Diff) :=
  c ← this;
  if negb (node_ready c) then
    debug (not_connected_action "subscription added") [VString (uuid c)];;
    mret (Bluebird_resolve diff)
  else
    let index := diff_index diff in
    let collection := diff_collection diff in
    let filters := diff_filters diff in
    let roomId := diff_roomId diff in
    let connectionId := diff_connectionId diff in
    let filter :=
      VObject [ ("index", VString index); ("collection", VString collection);
                ("filters", filters) ] in
    let serializedFilter :=
      if truthy filters
      then (if truthy (VString (JSON_stringify filter))
            then JSON_stringify filter else "none")
      else "none" in
    debug "[hook] sub add %s/%s" [VString roomId; VString connectionId];;
    mret
      (finally
         (result ← redis (ClusterSubOn (tag_of index collection) (uuid c)
                            roomId connectionId serializedFilter);
          redis (Sadd "cluster:collections" (index +:+ "/" +:+ collection));;
          _onSubOn "add" index collection roomId result;;
          mret diff)
         (modify (λ c, set_locks_create (locks_create c ∖ {[ roomId ]}) c))).

Definition subscriptionJoined (diff : Diff) : M (M Diff) :=
  c ← this;
  if negb (node_ready c) then
    debug (not_connected_action "subscription joined") [VString (uuid c)];;
    mret (Bluebird_resolve diff)
  else
    let index := diff_index diff in
    let collection := diff_collection diff in
    let roomId := diff_roomId diff in
    let connectionId := diff_connectionId diff in
    match diff_changed diff with
    | VBool false =>
      debug "[hook][sub joined] no change" [];;
      mret (Bluebird_resolve diff)
    | _ =>
      mret
        (result ← redis (ClusterSubOn (tag_of index collection) (uuid c)
                           roomId connectionId "none");
         _onSubOn "join" index collection roomId result;;
         mret diff)
    end.

Definition subscriptionOff (object : Removal) : M (M Removal) :=
  c ← this;
  if negb (node_ready c) then
    debug (not_connected_action "subscription off") [VString (uuid c)];;
    mret (Bluebird_resolve object)
  else
    let index := removal_index object in
    let collection := removal_collection object in
    let connectionId := requestContext_connectionId object in
    debug "[hook] sub off %s/%s" [VString (room_id object); VString connectionId];;
    mret
      (finally
         (result ← redis (ClusterSubOff (tag_of index collection) (uuid c)
                            (room_id object) connectionId);
          '(version, count) ← destructure result;
          c ← this;
          (if getVersion c index collection <? version
           then setRoomCount index collection (room_id object) count
           else mret ());;
          debug "[hook][sub off] v%d %s/%s/%s -%s = %d"
            [ VNumber (Num version); VString index; VString collection;
              VString (room_id object); VString connectionId; VNumber count ];;
          node_broadcast "cluster:sync"
            (state_event index collection (room_id object) "off");;
          mret object)
         (modify (λ c, set_locks_delete (locks_delete c ∖ {[ room_id object ]}) c))).

(** Commands issued one after the other and awaited together
    ([Bluebird.all] over the promises pushed in a loop). *)
Definition issue_all (cs : list command) : M (list reply) := λ w,
  (World (foldl (λ c cmd, meanwhile (Redis cmd) c) (me w) cs)
         (trace w ++ (Redis <$> cs)),
   Bluebird_all (coordinator <$> cs)).

(** The paths of a tree, each index with each of its collections, in the
    order of the keys. *)
Definition paths_by_key (t : gmap string (gmap string (gset string)))
    : list (string * string) :=
  '(index, collections) ← map_to_list t;
  collection ← (map_to_list collections).*1;
  [(index, collection)].

(** The pairs the loops over [tree.entries ()] and [collections.keys ()]
    visit, in the order they visit them.  A [Map] iterates in insertion
    order, which a [gmap] does not keep: the order is given from outside,
    and the statements say which paths it must hold. *)
Variable tree_paths :
  gmap string (gmap string (gset string)) → list (string * string).

Definition cleanNode (n : node_ref) : M (M unit) :=
  c ← this;
  let d := match n with ThisNode => node c | OtherNode d => d end in
  let is_this_node := match n with ThisNode => true | OtherNode _ => false end in
  mret
    (redis (Srem "cluster:discovery"
              (JSON_stringify
                 (VObject [ ("pub", VString (node_pub d));
                            ("router", VString (node_router d)) ])));;
     c ← this;
     (if is_this_node && (node_pool_size c =? 0)%nat then
        debug "last node to quit.. cleaning up" [];;
        node_state_reset
      else
        issue_all
          ((λ '(index, collection),
              ClusterCleanNode (tag_of index collection) (node_uuid d))
             <$> tree_paths (Replica.tree (_rooms c)));;
        mret ());;
     node_broadcast "cluster:sync" (VObject [("event", VString "state:all")])).

(** [log (level, msg)]; the console line is written without its date. *)
Definition log (level msg : string) : M unit :=
  c ← this;
  if _isKuzzleStarted c then emit (Emit ("log:" +:+ level) msg)
  else emit (ConsoleLog ("[" +:+ level +:+ "] " +:+ msg)).

(** [_onShutDown (event)]: [None] when it returns [undefined]. *)
Definition _onShutDown (event : string) : M (option (M unit)) :=
  c ← this;
  if _shutdown c then mret None
  else
    modify (set_shutdown true);;
    log "warn"
      (event +:+ " kuzzle is shutting down... doing our best to clean rooms");;
    p ← cleanNode ThisNode;
    mret (Some p).

(** Runs [_onShutDown] up to the moment the promise it returned, if any,
    settles. *)
Definition shut_down (event : string) (w : world) : world * option (outcome unit) :=
  match _onShutDown event w with
  | (w', Err e) => (w', Some (Thrown e))
  | (w', Ok None) => (w', None)
  | (w', Ok (Some p)) =>
    match p w' with
    | (w'', Ok a) => (w'', Some (Fulfilled a))
    | (w'', Err e) => (w'', Some (Rejected e))
    end
  end.

(** *** realtime overrides *)

(** [new this.context.errors.BadRequestError (msg)] and the like. *)
Definition new_context_error (constructor : string → error) (msg : string)
    : M error :=
  c ← this;
  match context c with
  | None => throw (undefined_has_no "errors")
  | Some _ => mret (constructor msg)
  end.

(** [flat.get (roomId)] on a value: the keys of [flat] are strings. *)
Definition flat_get (roomId : value) (c : cluster) : option Replica.room :=
  match roomId with
  | VString s => Replica.flat (_rooms c) !! s
  | _ => None
  end.

(** The body of [_realtimeCountOverride (request, attempt = 0)], with
    [self] for the method it calls on [this]. *)
Definition realtimeCountOverride_body
    (self : Request → nat → M (M value)) (request : Request) (attempt : nat)
    : M (M value) :=
  if negb (truthy (input_body request)) then
    e ← new_context_error BadRequestError "The request must specify a body.";
    mret (Bluebird_reject e)
  else if negb (hasOwnProperty (input_body request) "roomId") then
    e ← new_context_error BadRequestError
          ("The request must specify a body attribute "
           +:+ double_quote +:+ "roomId" +:+ double_quote +:+ ".");
    mret (Bluebird_reject e)
  else
    let roomId := member "roomId" (input_body request) in
    c ← this;
    match flat_get roomId c with
    | None =>
      if (0 <? attempt)%nat then
        e ← new_context_error NotFoundError
              ("The room Id " +:+ double_quote +:+ to_string roomId
               +:+ double_quote +:+ " does not exist");
        mret (Bluebird_reject e)
      else
        mret (Bluebird_delay (timers_waitForMissingRooms c);;
              adopt (self request (attempt + 1)%nat))
    | Some room =>
      mret (Bluebird_resolve (VObject [("count", VNumber (Replica.room_count room))]))
    end.

(** The method calls itself with [attempt + 1], and a call with a positive
    [attempt] makes no further call: two unfoldings are the whole method
    ([_realtimeCountOverride_unfold] below). *)
Definition _realtimeCountOverride : Request → nat → M (M value) :=
  realtimeCountOverride_body
    (realtimeCountOverride_body (λ _ _, throw (TypeError "unreachable"))).

(** The object [_realtimeListOverride] builds:
    [{index: {collection: {roomId: count}}}]. *)
Definition listing : Type := Obj.obj (Obj.obj (Obj.obj number)).

(** [if (!o[k]) { o[k] = {}; }] on a plain object [o], and the object
    [o[k]] read next.  When [o] has no own property [k] and
    [Object.prototype] has one, [o[k]] is that built-in and the guard is
    false: what follows writes into the built-in, or throws a TypeError
    where the built-in cannot take the property, and the throw rejects the
    promise.  This model follows neither and gives [None], which stands
    for no outcome of the code; the statements about the listing are about
    replicas whose names keep clear of it ([plain_names]). *)
Definition ensure {A} (k : string) (o : Obj.obj (Obj.obj A))
    : option (Obj.obj (Obj.obj A) * Obj.obj A) :=
  match Obj.get_own k o with
  | Some inner => Some (o, inner)
  | None => if Obj.inherited k then None else Some (Obj.set_own k [] o, [])
  end.

(** [o[k] = v] on a plain object whose values are numbers; the inherited
    setter [__proto__] ignores a number and creates no property. *)
Definition assign {A} (k : string) (v : A) (o : Obj.obj A) : Obj.obj A :=
  if String.eqb k "__proto__" then o else Obj.set_own k v o.

(** The callback of one permission check that answered [true]. *)
Definition list_room (list : listing) (roomId : string) (room : Replica.room)
    : option listing :=
  '(list, collections) ← ensure (Replica.room_index room) list;
  '(collections, rms) ← ensure (Replica.room_collection room) collections;
  let rms := assign roomId (Replica.room_count room) rms in
  Some (Obj.set_own (Replica.room_index room)
          (Obj.set_own (Replica.room_collection room) rms collections) list).

(** The three nested loops over sorted keys. *)
Definition sorted_rooms (src dst : Obj.obj number) : Obj.obj number :=
  foldl (λ dst roomId,
           match Obj.get_own roomId src with
           | Some count => assign roomId count dst
           | None => dst
           end)
        dst (Obj.sort (Obj.keys src)).

Definition sorted_collections (src dst : Obj.obj (Obj.obj number))
    : option (Obj.obj (Obj.obj number)) :=
  foldl (λ acc collection,
           dst ← acc;
           '(dst, inner) ← ensure collection dst;
           Some (Obj.set_own collection
                   (sorted_rooms (default [] (Obj.get_own collection src)) inner)
                   dst))
        (Some dst) (Obj.sort (Obj.keys src)).

Definition sorted_listing (list : listing) : option listing :=
  foldl (λ acc index,
           sorted ← acc;
           '(sorted, inner) ← ensure index sorted;
           inner ← sorted_collections (default [] (Obj.get_own index list)) inner;
           Some (Obj.set_own index inner sorted))
        (Some []) (Obj.sort (Obj.keys list)).

(** The rooms of [flat] in the order their permission checks answer. *)
Variable flat_entries : gmap string Replica.room → list (string * Replica.room).

(** [_realtimeListOverride (request)]: the outcome of the promise it
    returns.  [Ok None] is no outcome: it marks the runs this model does
    not follow, where a write left the plain objects (see [ensure]). *)
Definition _realtimeListOverride (request : Request) (c : cluster)
    : result (option listing) :=
  let entries := flat_entries (Replica.flat (_rooms c)) in
  let promises :=
    (λ '(roomId, room),
       isActionAllowed (context_user request) "document" "search"
         (Replica.room_index room) (Replica.room_collection room))
      <$> entries in
  match Bluebird_all promises with
  | Err e => Err e
  | Ok answers =>
    let list :=
      foldl (λ acc '((roomId, room), isAllowed),
               list ← acc;
               if negb isAllowed then Some list else list_room list roomId room)
            (Some []) (zip entries answers) in
    if negb (truthy (member "sorted" (VObject (input_args request)))) then Ok list
    else Ok (list ≫= sorted_listing)
  end.

End Methods.
End KuzzleCluster.

(** ** Vocabulary of the statements *)

(** The replica after a result [[version, count]] has met the version
    guard on the cluster object [c], and how [setRoomCount] completed if
    it was called. *)
Definition guarded (c : cluster) (index collection roomId : string)
    (version : Z) (count : number) : Replica.rooms * result unit :=
  if getVersion c index collection <? version
  then Replica.setRoomCount index collection roomId count (_rooms c)
  else (_rooms c, Ok ()).

(** The commands a trace sent to the coordinator store. *)
Definition coordinator_writes (t : list event) : list command :=
  omap (λ e, match e with Redis c => Some c | _ => None end) t.

(** The broadcasts of a trace. *)
Definition broadcasts (t : list event) : list (string * value) :=
  omap (λ e, match e with Broadcast topic payload => Some (topic, payload) | _ => None end) t.

(** The trace is log lines only. *)
Definition only_logs (t : list event) : Prop :=
  Forall (λ e, match e with Debug _ _ => True | _ => False end) t.

(** Collaborators that answer every subscription script with version 1 and
    count 1, fail nowhere and leave the cluster object alone. *)
Definition obliging (c : command) : result reply :=
  match c with
  | ClusterSubOn _ _ _ _ _ | ClusterSubOff _ _ _ _ => Ok (VersionCount 1 (Num 1))
  | ClusterCleanNode _ _ => Ok Nil
  | Sadd _ _ | Srem _ _ => Ok (Integer 1)
  end.

(** A coordinator store that is out of reach. *)
Definition unreachable (c : command) : result reply :=
  Err (ExternalError "Connection is closed.").

Definition delivered (topic : string) (payload : value) : result unit := Ok ().

Definition undisturbed (e : event) (c : cluster) : cluster := c.

Definition stringify_stub (v : value) : string := "{}".

(** A node that has joined no cluster yet, and the same node once ready. *)
Definition fresh_node : cluster :=
  new_KuzzleCluster "7c9e6679" (Descriptor "7c9e6679" "tcp://n1:7511" "tcp://n1:7510") 500.

Definition ready_node : cluster :=
  Cluster (uuid fresh_node) (node fresh_node) true 1 ∅ ∅ ∅ Replica.empty true false
    (timers_waitForMissingRooms fresh_node) (context fresh_node).

Definition everyone : User := {| isActionAllowed := λ _ _ _ _, Ok true |}.

(** The removal of a node's bindings from the discovery set, as [cleanNode]
    sends it. *)
Definition leave_discovery (JSON_stringify : value → string) (d : descriptor)
    : command :=
  Srem "cluster:discovery"
    (JSON_stringify (VObject [ ("pub", VString (node_pub d));
                               ("router", VString (node_router d)) ])).

(** The world [_onShutDown] hands to [cleanNode]: the flag set, the warning
    logged. *)
Definition shutting_down (event : string) (w : world) : world :=
  (KuzzleCluster.log "warn"
     (event +:+ " kuzzle is shutting down... doing our best to clean rooms")
     (World (set_shutdown true (me w)) (trace w))).1.

(** A subscription to nyc/taxi, and its removal. *)
Definition a_diff : Diff :=
  {| diff_index := "nyc"; diff_collection := "taxi";
     diff_filters := VObject [("exists", VString "licence")];
     diff_roomId := "room-1"; diff_connectionId := "conn-1";
     diff_changed := VBool true |}.

Definition a_removal : Removal :=
  {| room_id := "room-1"; removal_index := "nyc"; removal_collection := "taxi";
     requestContext_connectionId := "conn-1" |}.

Definition count_request (body : value) : Request :=
  {| input_body := body; input_args := []; context_user := everyone |}.

Definition list_request (args : Obj.obj value) : Request :=
  {| input_body := VUndefined; input_args := args; context_user := everyone |}.

(** Two realtime rooms on the indexes named 9 and 10. *)
Definition numbered_indexes : cluster :=
  set_rooms
    (Replica.perform_all
       [ Replica.SetRoomCount "9" "taxi" "room-1" (Num 4);
         Replica.SetRoomCount "10" "taxi" "room-2" (Num 2) ]
       Replica.empty).1
    ready_node.

(** A ready node with an empty pool that holds one room of nyc/taxi. *)
Definition lone_node : cluster :=
  Cluster (uuid ready_node) (node ready_node) true 0 ∅ ∅ ∅
    (Replica.setRoomCount "nyc" "taxi" "room-1" (Num 1) Replica.empty).1
    true false (timers_waitForMissingRooms ready_node) (context ready_node).

(** The replica of the specification's list scenario: R1 = (i2, c2, 4),
    R2 = (i1, c1, 2), R3 = (i1, c2, 3). *)
Definition three_rooms : cluster :=
  set_rooms
    (Replica.perform_all
       [ Replica.SetRoomCount "i2" "c2" "R1" (Num 4);
         Replica.SetRoomCount "i1" "c1" "R2" (Num 2);
         Replica.SetRoomCount "i1" "c2" "R3" (Num 3) ]
       Replica.empty).1
    ready_node.

(** A sync that lands while a handler waits on a timer: room R of idx/col
    arrives with count 1. *)
Definition late_sync (e : event) (c : cluster) : cluster :=
  match e with
  | Delay _ => set_rooms (Replica.setRoomCount "idx" "col" "R" (Num 1) (_rooms c)).1 c
  | _ => c
  end.

(** The count a listing holds for a room on a path:
    [list[index][collection][roomId]], own properties only. *)
Definition listed (l : KuzzleCluster.listing) (index collection roomId : string)
    : option number :=
  collections ← Obj.get_own index l;
  rms ← Obj.get_own collection collections;
  Obj.get_own roomId rms.

(** The callback of a permission check that answered [true], when no write
    leaves the plain objects. *)
Definition with_room (l : KuzzleCluster.listing) (roomId : string)
    (room : Replica.room) : KuzzleCluster.listing :=
  let index := Replica.room_index room in
  let collection := Replica.room_collection room in
  let collections := default [] (Obj.get_own index l) in
  let rms := default [] (Obj.get_own collection collections) in
  Obj.set_own index
    (Obj.set_own collection
       (KuzzleCluster.assign roomId (Replica.room_count room) rms) collections)
    l.

(** Objects as [_realtimeListOverride] makes them: no key twice, no key of
    the two outer levels a name of [Object.prototype], no room id
    [__proto__]. *)
Definition plain_rooms (o : Obj.obj number) : Prop :=
  NoDup (Obj.keys o) ∧ "__proto__" ∉ Obj.keys o.

Definition plain_collections (o : Obj.obj (Obj.obj number)) : Prop :=
  NoDup (Obj.keys o)
  ∧ Forall (λ kv, Obj.inherited kv.1 = false ∧ plain_rooms kv.2) o.

Definition plain_listing (l : KuzzleCluster.listing) : Prop :=
  NoDup (Obj.keys l)
  ∧ Forall (λ kv, Obj.inherited kv.1 = false ∧ plain_collections kv.2) l.

(** No key of the three levels is an array index. *)
Definition named {A} (o : Obj.obj A) : Prop :=
  Forall (λ k, Obj.array_index k = None) (Obj.keys o).

Definition named_listing (l : KuzzleCluster.listing) : Prop :=
  named l
  ∧ Forall (λ kv, named kv.2 ∧ Forall (λ kv', named kv'.2) kv.2) l.

(** The keys of an object come in ascending code-unit order. *)
Definition sorted_keys {A} (o : Obj.obj A) : Prop :=
  Sorted Obj.code_unit_le (Obj.keys o).

Definition sorted_at_every_level (l : KuzzleCluster.listing) : Prop :=
  sorted_keys l
  ∧ Forall (λ kv, sorted_keys kv.2 ∧ Forall (λ kv', sorted_keys kv'.2) kv.2) l.

(** The names in a replica that [_realtimeListOverride] can write as keys
    of plain objects without leaving them. *)
Definition plain_names (flat : gmap string Replica.room) : Prop :=
  ∀ roomId room, flat !! roomId = Some room →
    Obj.inherited (Replica.room_index room) = false
    ∧ Obj.inherited (Replica.room_collection room) = false
    ∧ roomId ≠ "__proto__".

(** No name in the replica is an array index. *)
Definition no_array_index (flat : gmap string Replica.room) : Prop :=
  ∀ roomId room, flat !! roomId = Some room →
    Obj.array_index (Replica.room_index room) = None
    ∧ Obj.array_index (Replica.room_collection room) = None
    ∧ Obj.array_index roomId = None.

(** The listing the callbacks leave when every write stays in the plain
    objects: the rooms whose permission check answered [true], written one
    after the other. *)
Definition collected (allowed : string → string → bool)
    (entries : list (string * Replica.room)) : KuzzleCluster.listing :=
  foldl (λ l '(roomId, room),
           if allowed (Replica.room_index room) (Replica.room_collection room)
           then with_room l roomId room else l)
        [] entries.

(** The sorted copy of a listing when every write stays in the plain
    objects. *)
Definition sorted_copy (l : KuzzleCluster.listing) : KuzzleCluster.listing :=
  Obj.build (Obj.sort (Obj.keys l))
    (λ index,
       let collections := default [] (Obj.get_own index l) in
       Obj.build (Obj.sort (Obj.keys collections))
         (λ collection,
            let rms := default [] (Obj.get_own collection collections) in
            Obj.build (Obj.sort (Obj.keys rms))
              (λ roomId, default NaN (Obj.get_own roomId rms)))).

(** ** More of the replica *)

(** No inner map and no set of the tree is empty. *)
Definition pruned (r : Replica.rooms) : Prop :=
  ∀ index collections, Replica.tree r !! index = Some collections →
    collections ≠ ∅
    ∧ ∀ collection rms, collections !! collection = Some rms → rms ≠ ∅.

(** No room of [flat] has the count zero. *)
Definition counted (r : Replica.rooms) : Prop :=
  ∀ roomId room, Replica.flat r !! roomId = Some room →
    is_zero (Replica.room_count room) = false.

(** Two rooms of nyc/taxi and one of nyc/bus. *)
Definition city_rooms : Replica.rooms :=
  (Replica.perform_all
     [ Replica.SetRoomCount "nyc" "taxi" "room-1" (Num 2);
       Replica.SetRoomCount "nyc" "taxi" "room-2" (Num 1);
       Replica.SetRoomCount "nyc" "bus" "room-3" (Num 5) ]
     Replica.empty).1.

(** ** The hooks on kuzzle's own rooms and locks *)

(** A room of [kuzzle.hotelClerk.rooms], as [beforeJoin] writes it. *)
Record hotel_room : Type := HotelRoom {
  hotel_index : string;
  hotel_collection : string;
  hotel_id : string;
  hotel_customers : gset string;
  hotel_channels : Obj.obj value;
}.

(** kuzzle as the cluster object reaches it: the cluster object with its
    trace, and [kuzzle.hotelClerk.rooms]. *)
Record kuzzle : Type := Kuzzle {
  plugin : world;
  hotelClerk_rooms : gmap string hotel_room;
}.

(** [n > 1] *)
Definition greater_than_one (n : number) : bool :=
  match n with
  | NaN => false
  | Num z => 1 <? z
  end.

(** [request.input.body.roomId], once [request.input.body] is known to be
    truthy. *)
Definition body_roomId (request : Request) : value :=
  member "roomId" (input_body request).

(** [!request.input.body || !request.input.body.roomId] *)
Definition no_roomId (request : Request) : bool :=
  negb (truthy (input_body request)) || negb (truthy (body_roomId request)).

Module Engine.
Section Methods.

(** [this.config.timers.joinAttemptInterval] *)
Variable config_timers_joinAttemptInterval : Z.
(** What the rest of kuzzle does to the cluster object and to the hotel
    clerk's rooms while a timer runs. *)
Variable meanwhile :
  event → cluster * gmap string hotel_room → cluster * gmap string hotel_room.
(** [HotelClerk.prototype._removeRoomFromRealtimeEngine], kuzzle's own. *)
Variable prototype_removeRoomFromRealtimeEngine : string → kuzzle → kuzzle.

(** [setTimeout (callback, ms)], up to the moment the callback is run. *)
Definition setTimeout (ms : Z) (k : kuzzle) : kuzzle :=
  let after := meanwhile (Delay ms) (me (plugin k), hotelClerk_rooms k) in
  Kuzzle (World after.1 (trace (plugin k) ++ [Delay ms])) after.2.

(** [hotelClerk.rooms.has (roomId)]: the keys of the map are strings. *)
Definition rooms_has (roomId : value) (k : kuzzle) : bool :=
  match roomId with
  | VString id => bool_decide (is_Some (hotelClerk_rooms k !! id))
  | _ => false
  end.

(** [hotelClerk.rooms.set (roomId, room)] *)
Definition rooms_set (roomId : string) (room : hotel_room) (k : kuzzle) : kuzzle :=
  Kuzzle (plugin k) (<[roomId := room]> (hotelClerk_rooms k)).

(** The body of [beforeJoin (request, cb, attempts = 0)], with [self] for
    the method the timer calls on [this]; [cb (null, request)] is
    [cb None request]. *)
Definition beforeJoin_body {A}
    (self : Request → (option error → Request → kuzzle → A) → nat → kuzzle → A)
    (request : Request) (cb : option error → Request → kuzzle → A)
    (attempts : nat) (k : kuzzle) : A :=
  if no_roomId request then cb None request k
  else
    let roomId := body_roomId request in
    if rooms_has roomId k then cb None request k
    else
      match roomId, KuzzleCluster.flat_get roomId (me (plugin k)) with
      | VString id, Some room =>
        cb None request
          (rooms_set id
             {| hotel_index := Replica.room_index room;
                hotel_collection := Replica.room_collection room;
                hotel_id := id;
                hotel_customers := ∅;
                hotel_channels := [] |}
             k)
      | _, _ =>
        if (0 <? attempts)%nat then cb None request k
        else
          self request cb (attempts + 1)%nat
            (setTimeout config_timers_joinAttemptInterval k)
      end.

(** The method calls itself with [attempts + 1], and a call with a positive
    [attempts] makes no further call: two unfoldings are the whole method
    ([beforeJoin_unfold] below). *)
Definition beforeJoin {A}
    : Request → (option error → Request → kuzzle → A) → nat → kuzzle → A :=
  beforeJoin_body (beforeJoin_body (λ request cb _ k, cb None request k)).

Definition console_debug (format : string) (args : list value) (k : kuzzle)
    : kuzzle :=
  Kuzzle (World (me (plugin k)) (trace (plugin k) ++ [Debug format args]))
    (hotelClerk_rooms k).

(** The function [kuzzleStarted] installs as
    [kuzzle.hotelClerk._removeRoomFromRealtimeEngine]. *)
Definition _removeRoomFromRealtimeEngine (id : string) (k : kuzzle) : kuzzle :=
  let room := Replica.flat (_rooms (me (plugin k))) !! id in
  if match room with
     | Some room => greater_than_one (Replica.room_count room)
     | None => false
     end
  then
    console_debug "[hotelClerk._removeRoomFromRealtimeEngine] do not delete room %s"
      [VString id] k
  else
    prototype_removeRoomFromRealtimeEngine id
      (console_debug "[hotelClerk._removeRoomFromRealtimeEngine] delete room %s"
         [VString id] k).

End Methods.
End Engine.

(** [set.delete (v)] on a set of strings. *)
Definition set_delete (v : value) (s : gset string) : gset string :=
  match v with
  | VString k => s ∖ {[ k ]}
  | _ => s
  end.

Module Locks.

Definition unlockCreateRoom (request : Request) : M unit :=
  if no_roomId request then mret ()
  else
    modify (λ c, set_locks_create
                   (set_delete (body_roomId request) (locks_create c)) c).

Definition unlockDeleteRoom (request : Request) : M unit :=
  if no_roomId request then mret ()
  else
    modify (λ c, set_locks_delete
                   (set_delete (body_roomId request) (locks_delete c)) c).

End Locks.

(** ** Vocabulary of the statements on kuzzle's rooms *)

(** The room shell [beforeJoin] makes of a room of the replica. *)
Definition shell (id : string) (room : Replica.room) : hotel_room :=
  {| hotel_index := Replica.room_index room;
     hotel_collection := Replica.room_collection room;
     hotel_id := id;
     hotel_customers := ∅;
     hotel_channels := [] |}.

(** The request names a room that neither the hotel clerk nor the replica
    holds. *)
Definition unknown_room (request : Request) (k : kuzzle) : bool :=
  negb (no_roomId request)
  && negb (Engine.rooms_has (body_roomId request) k)
  && match KuzzleCluster.flat_get (body_roomId request) (me (plugin k)) with
     | Some _ => false
     | None => true
     end.

(** kuzzle once [beforeJoin] has looked for the room of the request, and
    made a shell of it or left things as they are. *)
Definition settled (request : Request) (k : kuzzle) : kuzzle :=
  match body_roomId request with
  | VString id =>
    if no_roomId request || Engine.rooms_has (VString id) k then k
    else match Replica.flat (_rooms (me (plugin k))) !! id with
         | Some room => Engine.rooms_set id (shell id room) k
         | None => k
         end
  | _ => k
  end.

(** kuzzle with a replica in place of the one it had. *)
Definition with_replica (r : Replica.rooms) (k : kuzzle) : kuzzle :=
  Kuzzle (World (set_rooms r (me (plugin k))) (trace (plugin k)))
    (hotelClerk_rooms k).

(** A ready node whose replica holds the rooms of [city_rooms], and whose
    hotel clerk has no room. *)
Definition a_kuzzle : kuzzle :=
  Kuzzle (World (set_rooms city_rooms ready_node) []) ∅.

Definition join_request (roomId : string) : Request :=
  count_request (VObject [("roomId", VString roomId)]).

(** Nothing happens while a timer runs. *)
Definition quiet (e : event) (s : cluster * gmap string hotel_room)
    : cluster * gmap string hotel_room := s.

(** A sync lands while a timer runs: room-9 of nyc/tram arrives in the
    replica. *)
Definition room_arrives (e : event) (s : cluster * gmap string hotel_room)
    : cluster * gmap string hotel_room :=
  (set_rooms (Replica.setRoomCount "nyc" "tram" "room-9" (Num 1) (_rooms s.1)).1 s.1,
   s.2).

(** ** Vocabulary of the statements on pipes and hooks *)

(** [filters && JSON.stringify (filter) || 'none'], as [subscriptionAdded]
    computes it. *)
Definition serializedFilter (JSON_stringify : value → string) (diff : Diff)
    : string :=
  let filter :=
    VObject [ ("index", VString (diff_index diff));
              ("collection", VString (diff_collection diff));
              ("filters", diff_filters diff) ] in
  if truthy (diff_filters diff)
  then (if truthy (VString (JSON_stringify filter))
        then JSON_stringify filter else "none")
  else "none".

(** The commands of the pipes: the subOn script with the filter of an
    added subscription, the registration of its collection, and the subOff
    script. *)
Definition subOn_of (JSON_stringify : value → string) (c : cluster) (diff : Diff)
    : command :=
  ClusterSubOn (tag_of (diff_index diff) (diff_collection diff)) (uuid c)
    (diff_roomId diff) (diff_connectionId diff)
    (serializedFilter JSON_stringify diff).

Definition register_of (diff : Diff) : command :=
  Sadd "cluster:collections" (diff_index diff +:+ "/" +:+ diff_collection diff).

Definition subOff_of (c : cluster) (object : Removal) : command :=
  ClusterSubOff (tag_of (removal_index object) (removal_collection object))
    (uuid c) (room_id object) (requestContext_connectionId object).

(** The topic a guarded hook broadcasts on. *)
Definition topic_of (h : KuzzleCluster.guarded_hook) : string :=
  match h with
  | KuzzleCluster.NotifyDocument _ => "cluster:notify:document"
  | KuzzleCluster.NotifyUser _ => "cluster:notify:user"
  | KuzzleCluster.Dump _ => "cluster:admin:dump"
  | KuzzleCluster.Shutdown => "cluster:admin:shutdown"
  | _ => "cluster:sync"
  end.

(** The hook reads [diff._id] of a [diff] that is [undefined] or [null]. *)
Definition reads_id_of_nothing (h : KuzzleCluster.guarded_hook) : bool :=
  match h with
  | KuzzleCluster.ProfileUpdated (VUndefined | VNull)
  | KuzzleCluster.RoleUpdated (VUndefined | VNull) => true
  | _ => false
  end.

(** A coordinator store that runs the subscription scripts and fails to
    register a collection. *)
Definition no_registry (c : command) : result reply :=
  match c with
  | Sadd _ _ => Err (ExternalError "READONLY You can't write against a read only replica.")
  | _ => obliging c
  end.

(** Another node of the cluster. *)
Definition a_peer : descriptor :=
  Descriptor "1b9d6bcd" "tcp://n2:7511" "tcp://n2:7510".

(** A caller whose permission checks fail. *)
Definition stranger : User :=
  {| isActionAllowed := λ _ _ _ _, Err (ExternalError "Connection is closed.") |}.

(** A ready node with a peer in its pool, whose replica holds the rooms of
    [city_rooms]. *)
Definition city_node : cluster := set_rooms city_rooms ready_node.

(** ** The replica under the pipes *)

(** Room ids as kuzzle makes them are fingerprints of an index, a collection
    and filters: each belongs to one path, [path_of] it, and the replica
    has it there. *)
Definition on_its_path (path_of : string → string * string) (r : Replica.rooms)
    : Prop :=
  ∀ roomId room, Replica.flat r !! roomId = Some room →
    (Replica.room_index room, Replica.room_collection room) = path_of roomId.

(** The replica of a cluster object satisfies the invariant and has every
    room on its path. *)
Definition sound (path_of : string → string * string) (c : cluster) : Prop :=
  Replica.replica_inv (_rooms c) ∧ on_its_path path_of (_rooms c).

(** Every room id is one of nyc/taxi. *)
Definition taxi_only (roomId : string) : string * string := ("nyc", "taxi").

(** The paths of [city_rooms] in the order its rooms were set: nyc/taxi
    came before nyc/bus. *)
Definition city_paths (t : gmap string (gmap string (gset string)))
    : list (string * string) :=
  [("nyc", "taxi"); ("nyc", "bus")].

(** ** The count of a result, applied *)

(** The replica [after] is [before] with the count of a result applied to
    a room: [flat] holds the room under the index and collection with that
    count and the tree has it on that path, or, the count being zero,
    [flat] holds the room no more and the tree has it no more on the path
    [flat] had for it; every other room is as it was, in [flat] and in the
    sets of the tree. *)
Definition applied (index collection roomId : string) (count : number)
    (before after : Replica.rooms) : Prop :=
  Replica.flat after
  = (if is_zero (parseInt10 count) then delete roomId (Replica.flat before)
     else <[roomId := Replica.Room index collection (parseInt10 count)]>
            (Replica.flat before))
  ∧ (is_zero (parseInt10 count) = false →
     Replica.in_tree after index collection roomId)
  ∧ (is_zero (parseInt10 count) = true →
     ∀ room, Replica.flat before !! roomId = Some room →
       ¬ Replica.in_tree after (Replica.room_index room)
           (Replica.room_collection room) roomId)
  ∧ (∀ index' collection' roomId', roomId' ≠ roomId →
       Replica.in_tree after index' collection' roomId'
       ↔ Replica.in_tree before index' collection' roomId').

(** The subOn script of a join. *)
Definition join_of (c : cluster) (diff : Diff) : command :=
  ClusterSubOn (tag_of (diff_index diff) (diff_collection diff)) (uuid c)
    (diff_roomId diff) (diff_connectionId diff) "none".

(** A request to list the rooms from a caller whose permission checks
    fail. *)
Definition strangers_request : Request :=
  {| input_body := VUndefined; input_args := []; context_user := stranger |}.

(** * Properties *)

Section ObjFacts.
Import Obj.

Context {A : Type}.
Implicit Types (o : obj A) (k : string) (v : A).

Lemma get_own_None k o : get_own k o = None ↔ k ∉ keys o.
Proof.
  unfold keys. induction o as [|[k' v'] o IH]; cbn.
  - split; [intros _; apply not_elem_of_nil | done].
  - rewrite not_elem_of_cons. destruct (String.eqb_spec k k') as [->|Hne].
    + split; [done | intros [? _]; done].
    + rewrite IH. naive_solver.
Qed.

Lemma get_own_Some_elem k v o : get_own k o = Some v → (k, v) ∈ o.
Proof.
  induction o as [|[k' v'] o IH]; cbn; [done |].
  destruct (String.eqb_spec k k') as [->|Hne].
  - intros [= ->]. apply elem_of_cons. by left.
  - intros H. apply elem_of_cons. right. by apply IH.
Qed.

Lemma elem_get_own k v o : NoDup (keys o) → (k, v) ∈ o → get_own k o = Some v.
Proof.
  unfold keys. induction o as [|[k' v'] o IH]; cbn.
  - intros _ H. by apply elem_of_nil in H.
  - intros [Hk' Hnd]%NoDup_cons [Heq | Hin]%elem_of_cons.
    + injection Heq as <- <-. by rewrite String.eqb_refl.
    + destruct (String.eqb_spec k k') as [->|Hne]; [| by apply IH].
      exfalso. apply Hk'. apply list_elem_of_fmap. by exists (k', v).
Qed.

Lemma has_own_true k o : has_own k o = true ↔ k ∈ keys o.
Proof.
  unfold has_own. rewrite bool_decide_eq_true.
  destruct (get_own k o) as [v|] eqn:H.
  - split; [intros _ | by eauto].
    destruct (decide (k ∈ keys o)) as [|Hn]; [done |].
    apply get_own_None in Hn. congruence.
  - split; [by intros [? [=]] |]. by intros ?%(proj1 (get_own_None k o) H).
Qed.

Lemma keys_replace k v o : keys (replace k v o) = keys o.
Proof.
  unfold keys. induction o as [|[k' v'] o IH]; cbn; [done |].
  destruct (String.eqb k k'); cbn; by rewrite ?IH.
Qed.

Lemma get_own_replace k v o k' :
  get_own k' (replace k v o)
  = if String.eqb k' k then (λ _, v) <$> get_own k o else get_own k' o.
Proof.
  induction o as [|[k0 v0] o IH]; cbn; [by destruct (String.eqb k' k) |].
  destruct (String.eqb_spec k k0) as [->|Hne]; cbn.
  - by destruct (String.eqb_spec k' k0).
  - rewrite IH. destruct (String.eqb_spec k' k) as [Heq|Hne']; [| done].
    subst k'. by destruct (String.eqb_spec k k0).
Qed.

Lemma keys_insert_index n k v o : keys (insert_index n k v o) ≡ₚ k :: keys o.
Proof.
  unfold keys. induction o as [|[k' v'] o IH]; cbn; [done |].
  destruct (array_index k') as [n'|]; [| done].
  destruct (n <? n')%N; [done |]. cbn. rewrite IH. apply Permutation_swap.
Qed.

Lemma get_own_insert_index n k v o k' :
  k ∉ keys o →
  get_own k' (insert_index n k v o)
  = if String.eqb k' k then Some v else get_own k' o.
Proof.
  unfold keys. induction o as [|[k0 v0] o IH]; cbn; [done |].
  intros [Hk0 Hk]%not_elem_of_cons.
  destruct (array_index k0) as [n'|]; [| done].
  destruct (n <? n')%N; [done |]. cbn. rewrite (IH Hk).
  destruct (String.eqb_spec k' k0) as [->|]; [| done].
  by destruct (String.eqb_spec k0 k).
Qed.

Lemma get_own_app k o1 o2 :
  get_own k (o1 ++ o2)
  = match get_own k o1 with Some v => Some v | None => get_own k o2 end.
Proof.
  induction o1 as [|[k' v'] o1 IH]; cbn; [done |].
  by destruct (String.eqb k k').
Qed.

(** Reading back what was written. *)
Lemma get_own_set_own k v o k' :
  get_own k' (set_own k v o)
  = if String.eqb k' k then Some v else get_own k' o.
Proof.
  unfold set_own. destruct (has_own k o) eqn:Hown.
  - rewrite get_own_replace. destruct (String.eqb k' k); [| done].
    apply has_own_true in Hown.
    destruct (get_own k o) eqn:Hget; [done |].
    by apply get_own_None in Hget.
  - assert (k ∉ keys o) as Hk.
    { intros Hk%has_own_true. congruence. }
    destruct (array_index k) as [n|].
    + by apply get_own_insert_index.
    + rewrite get_own_app. cbn.
      destruct (String.eqb_spec k' k) as [->|].
      * by rewrite (proj2 (get_own_None k o) Hk).
      * by destruct (get_own k' o).
Qed.

Lemma keys_set_own_old k v o : k ∈ keys o → keys (set_own k v o) = keys o.
Proof.
  intros Hk%has_own_true. unfold set_own. rewrite Hk. apply keys_replace.
Qed.

Lemma keys_set_own_new k v o :
  k ∉ keys o → array_index k = None → keys (set_own k v o) = keys o ++ [k].
Proof.
  intros Hk Hidx. unfold set_own.
  destruct (has_own k o) eqn:Hown; [by apply has_own_true in Hown |].
  rewrite Hidx. unfold keys. by rewrite fmap_app.
Qed.

Lemma keys_set_own_perm k v o : k ∉ keys o → keys (set_own k v o) ≡ₚ k :: keys o.
Proof.
  intros Hk. unfold set_own.
  destruct (has_own k o) eqn:Hown; [by apply has_own_true in Hown |].
  destruct (array_index k) as [n|]; [apply keys_insert_index |].
  unfold keys. rewrite fmap_app. cbn. by rewrite Permutation_app_comm.
Qed.

Lemma NoDup_keys_set_own k v o : NoDup (keys o) → NoDup (keys (set_own k v o)).
Proof.
  intros Hnd. destruct (decide (k ∈ keys o)) as [Hk|Hk].
  - by rewrite keys_set_own_old.
  - rewrite keys_set_own_perm by done. by apply NoDup_cons.
Qed.

Lemma elem_of_keys_set_own k v o k' :
  k' ∈ keys (set_own k v o) ↔ k' = k ∨ k' ∈ keys o.
Proof.
  destruct (decide (k ∈ keys o)) as [Hk|Hk].
  - rewrite keys_set_own_old by done. naive_solver.
  - rewrite keys_set_own_perm by done. apply elem_of_cons.
Qed.

Lemma replace_replace k v v' o : replace k v (replace k v' o) = replace k v o.
Proof.
  induction o as [|[k0 v0] o IH]; cbn; [done |].
  destruct (String.eqb k k0) eqn:Hk; cbn; rewrite Hk; [done |]. by rewrite IH.
Qed.

Lemma replace_insert_index n k v v' o :
  k ∉ keys o → replace k v (insert_index n k v' o) = insert_index n k v o.
Proof.
  unfold keys. induction o as [|[k0 v0] o IH]; cbn.
  - intros _. by rewrite String.eqb_refl.
  - intros [Hk0 Hk]%not_elem_of_cons.
    destruct (array_index k0) as [n'|].
    + destruct (n <? n')%N; cbn.
      * by rewrite String.eqb_refl.
      * destruct (String.eqb_spec k k0); [done |]. by rewrite IH.
    + cbn. by rewrite String.eqb_refl.
Qed.

Lemma replace_app_new k v v' o :
  k ∉ keys o → replace k v (o ++ [(k, v')]) = o ++ [(k, v)].
Proof.
  unfold keys. induction o as [|[k0 v0] o IH]; cbn.
  - intros _. by rewrite String.eqb_refl.
  - intros [Hk0 Hk]%not_elem_of_cons.
    destruct (String.eqb_spec k k0); [done |]. by rewrite IH.
Qed.

(** A second write of a key hides the first. *)
Lemma set_own_set_own k v v' o : set_own k v (set_own k v' o) = set_own k v o.
Proof.
  assert (has_own k (set_own k v' o) = true) as Hown.
  { apply has_own_true, elem_of_keys_set_own. by left. }
  unfold set_own at 1. rewrite Hown. unfold set_own.
  destruct (has_own k o) eqn:Hk; [apply replace_replace |].
  assert (k ∉ keys o) as Hk' by (intros ?%has_own_true; congruence).
  destruct (array_index k) as [n|].
  - by apply replace_insert_index.
  - by apply replace_app_new.
Qed.

Lemma elem_of_set_own k v o kv : kv ∈ set_own k v o → kv = (k, v) ∨ kv ∈ o.
Proof.
  unfold set_own. destruct (has_own k o).
  - induction o as [|[k0 v0] o IH]; cbn; [by right |].
    destruct (String.eqb_spec k k0) as [->|].
    + intros [->|?]%elem_of_cons; [by left | right; by apply elem_of_cons; right].
    + intros [->|?]%elem_of_cons; [right; by apply elem_of_cons; left |].
      destruct (IH H) as [->|?]; [by left | right; by apply elem_of_cons; right].
  - destruct (array_index k) as [n|].
    + induction o as [|[k0 v0] o IH]; cbn.
      * intros ?%list_elem_of_singleton. by left.
      * destruct (array_index k0) as [n'|].
        -- destruct (n <? n')%N.
           ++ intros [->|?]%elem_of_cons; [by left | by right].
           ++ intros [->|?]%elem_of_cons; [right; by apply elem_of_cons; left |].
              destruct (IH H) as [->|?]; [by left | right; by apply elem_of_cons; right].
        -- intros [->|?]%elem_of_cons; [by left | by right].
    + intros [?|?%list_elem_of_singleton]%elem_of_app; [by right | by left].
Qed.

Lemma Forall_set_own (P : string * A → Prop) k v o :
  P (k, v) → Forall P o → Forall P (set_own k v o).
Proof.
  intros Hkv Ho. apply Forall_forall. intros kv [->|Hin]%elem_of_set_own; [done |].
  exact (proj1 (Forall_forall _ _) Ho _ Hin).
Qed.

Lemma build_snoc ks k (f : string → A) :
  build (ks ++ [k]) f = set_own k (f k) (build ks f).
Proof. unfold build. by rewrite foldl_app. Qed.

Lemma elem_of_keys_build ks (f : string → A) k : k ∈ keys (build ks f) ↔ k ∈ ks.
Proof.
  induction ks as [|k0 ks IH] using rev_ind.
  - cbn. split; intros H; by apply elem_of_nil in H.
  - rewrite build_snoc, elem_of_keys_set_own, IH, elem_of_app, list_elem_of_singleton.
    naive_solver.
Qed.

Lemma NoDup_keys_build ks (f : string → A) : NoDup (keys (build ks f)).
Proof.
  induction ks as [|k0 ks IH] using rev_ind.
  - cbn. constructor.
  - rewrite build_snoc. by apply NoDup_keys_set_own.
Qed.

Lemma get_own_build ks (f : string → A) k :
  get_own k (build ks f) = if bool_decide (k ∈ ks) then Some (f k) else None.
Proof.
  induction ks as [|k0 ks IH] using rev_ind.
  - cbn. rewrite bool_decide_eq_false_2; [done | apply not_elem_of_nil].
  - rewrite build_snoc, get_own_set_own, IH.
    destruct (String.eqb_spec k k0) as [->|Hne].
    + rewrite bool_decide_eq_true_2; [done |]. apply elem_of_app. right.
      by apply list_elem_of_singleton.
    + destruct (decide (k ∈ ks)) as [Hin|Hin].
      * rewrite !bool_decide_eq_true_2; [done | | done]. apply elem_of_app. by left.
      * rewrite !bool_decide_eq_false_2; [done | | done].
        intros [?|?%list_elem_of_singleton]%elem_of_app; done.
Qed.

(** Keys that are no array indices come out in the order they went in. *)
Lemma keys_build ks (f : string → A) :
  NoDup ks → Forall (λ k, array_index k = None) ks → keys (build ks f) = ks.
Proof.
  induction ks as [|k0 ks IH] using rev_ind; [done |].
  intros [Hnd [Hk0 _]]%NoDup_app [Hks Hk]%Forall_app.
  rewrite build_snoc, keys_set_own_new, IH; try done.
  - rewrite elem_of_keys_build. intros Hin. apply (Hk0 _ Hin).
    by apply list_elem_of_singleton.
  - by apply (Forall_singleton (λ k, array_index k = None)) in Hk.
Qed.

End ObjFacts.

Lemma code_unit_le_total : Total Obj.code_unit_le.
Proof. intros a b. apply String.leb_total. Qed.

(** [sort] orders its argument and keeps its members. *)
Lemma Sorted_sort ks : Sorted Obj.code_unit_le (Obj.sort ks).
Proof. apply Sorted_merge_sort, code_unit_le_total. Qed.

Lemma sort_Permutation ks : Obj.sort ks ≡ₚ ks.
Proof. apply merge_sort_Permutation. Qed.
Section ReplicaFacts.
Import Replica.

Implicit Types (r : rooms) (index collection roomId : string).

Lemma in_tree_members r i c x : in_tree r i c x ↔ x ∈ members r i c.
Proof.
  unfold in_tree, members. split.
  - intros (cols & rms & -> & Hc & Hx). cbn. by rewrite Hc.
  - destruct (tree r !! i) as [cols|]; cbn; [| set_solver].
    destruct (cols !! c) as [rms|] eqn:Hc; cbn; [| set_solver].
    intros Hx. by exists cols, rms.
Qed.

Lemma flat_setRoomCount index collection roomId n r :
  is_zero (parseInt10 n) = false →
  flat (setRoomCount index collection roomId n r).1
  = <[roomId := Room index collection (parseInt10 n)]> (flat r).
Proof. intros Hz. unfold setRoomCount. rewrite Hz. reflexivity. Qed.

Lemma setRoomCount_returns index collection roomId n r :
  is_zero (parseInt10 n) = false →
  (setRoomCount index collection roomId n r).2 = Ok ().
Proof. intros Hz. unfold setRoomCount. rewrite Hz. reflexivity. Qed.

(** The tree after an upsert: the set on the path given gains the room. *)
Lemma members_setRoomCount index collection roomId n r i c :
  is_zero (parseInt10 n) = false →
  members (setRoomCount index collection roomId n r).1 i c
  = if bool_decide (i = index ∧ c = collection)
    then members r i c ∪ {[ roomId ]} else members r i c.
Proof.
  intros Hz. unfold setRoomCount, members. rewrite Hz. cbn [fst tree].
  destruct (decide (i = index)) as [->|Hi].
  - rewrite lookup_insert_eq. cbn [default from_option id].
    destruct (decide (c = collection)) as [->|Hc].
    + rewrite lookup_insert_eq, bool_decide_eq_true_2 by done. cbn [default from_option id].
      destruct (tree r !! index) as [cols|]; cbn [default from_option id].
      * destruct (cols !! collection) as [rms|] eqn:Hcs; [by rewrite Hcs |].
        by rewrite lookup_insert_eq.
      * by rewrite lookup_empty, lookup_insert_eq.
    + rewrite lookup_insert_ne, bool_decide_eq_false_2 by (done || (intros [??]; done)).
      destruct (tree r !! index) as [cols|]; cbn [default from_option id].
      * destruct (cols !! collection); [done |]. by rewrite lookup_insert_ne.
      * rewrite lookup_empty. by rewrite lookup_insert_ne.
  - rewrite lookup_insert_ne, bool_decide_eq_false_2 by (done || (intros [??]; done)). done.
Qed.

Lemma flat_deleteRoomCount roomId r :
  flat (deleteRoomCount roomId r).1 = delete roomId (flat r).
Proof.
  unfold deleteRoomCount.
  destruct (flat r !! roomId) as [room|] eqn:Hf.
  - destruct (tree r !! room_index room) as [cols|]; [| done].
    destruct (cols !! room_collection room) as [rms|]; [| done].
    repeat case_bool_decide; done.
  - by rewrite delete_id.
Qed.

(** Removing a room that sits on its path returns normally and takes that
    one membership out of the tree; pruning an empty set or an empty map
    removes no member. *)
Lemma members_deleteRoomCount roomId room r :
  flat r !! roomId = Some room →
  roomId ∈ members r (room_index room) (room_collection room) →
  (deleteRoomCount roomId r).2 = Ok ()
  ∧ ∀ i c,
      members (deleteRoomCount roomId r).1 i c
      = if bool_decide (i = room_index room ∧ c = room_collection room)
        then members r i c ∖ {[ roomId ]} else members r i c.
Proof.
  intros Hf Hx. unfold deleteRoomCount. rewrite Hf.
  unfold members in *.
  destruct (tree r !! room_index room) as [cols|] eqn:Ht; [| set_solver].
  cbn [default from_option id] in Hx.
  destruct (cols !! room_collection room) as [rms|] eqn:Hcs; [| set_solver].
  cbn [default from_option id] in Hx.
  case_bool_decide as Hsz.
  - apply size_empty_inv in Hsz. apply leibniz_equiv in Hsz.
    case_bool_decide as Hsz'.
    + apply map_size_empty_inv in Hsz'.
      split; [done |]. intros i c. cbn [fst tree].
      destruct (decide (i = room_index room)) as [->|Hi].
      * rewrite lookup_delete_eq, Ht. cbn [default from_option id]. rewrite lookup_empty.
        destruct (decide (c = room_collection room)) as [->|Hc].
        -- rewrite bool_decide_eq_true_2, Hcs by done. cbn. by rewrite Hsz.
        -- rewrite bool_decide_eq_false_2 by (done || (intros [??]; done)).
           rewrite <- (lookup_delete_ne cols (room_collection room) c) by done.
           by rewrite Hsz', lookup_empty.
      * rewrite lookup_delete_ne, bool_decide_eq_false_2 by (done || (intros [??]; done)). done.
    + split; [done |]. intros i c. cbn [fst tree].
      destruct (decide (i = room_index room)) as [->|Hi].
      * rewrite lookup_insert_eq, Ht. cbn [default from_option id].
        destruct (decide (c = room_collection room)) as [->|Hc].
        -- rewrite bool_decide_eq_true_2, Hcs, lookup_delete_eq by done.
           cbn. by rewrite Hsz.
        -- rewrite bool_decide_eq_false_2 by (done || (intros [??]; done)).
           by rewrite lookup_delete_ne.
      * rewrite lookup_insert_ne, bool_decide_eq_false_2 by (done || (intros [??]; done)). done.
  - split; [done |]. intros i c. cbn [fst tree].
    destruct (decide (i = room_index room)) as [->|Hi].
    + rewrite lookup_insert_eq, Ht. cbn [default from_option id].
      destruct (decide (c = room_collection room)) as [->|Hc].
      * by rewrite bool_decide_eq_true_2, Hcs, lookup_insert_eq by done.
      * rewrite bool_decide_eq_false_2 by (done || (intros [??]; done)).
        by rewrite lookup_insert_ne.
    + rewrite lookup_insert_ne, bool_decide_eq_false_2 by (done || (intros [??]; done)). done.
Qed.

Lemma replica_inv_members r :
  replica_inv r ↔
  (∀ roomId room, flat r !! roomId = Some room →
     roomId ∈ members r (room_index room) (room_collection room)
     ∧ ∀ i c, roomId ∈ members r i c →
         i = room_index room ∧ c = room_collection room)
  ∧ (∀ i c roomId, roomId ∈ members r i c → is_Some (flat r !! roomId)).
Proof.
  unfold replica_inv. setoid_rewrite in_tree_members. reflexivity.
Qed.

Lemma replica_inv_empty : replica_inv Replica.empty.
Proof.
  apply replica_inv_members. split.
  - intros roomId room H. cbn in H. by rewrite lookup_empty in H.
  - intros i c roomId H. unfold members in H. cbn [Replica.empty tree] in H.
    rewrite lookup_empty in H. cbn in H. set_solver.
Qed.

Lemma replica_inv_deleteRoomCount roomId r :
  replica_inv r →
  (deleteRoomCount roomId r).2 = Ok ()
  ∧ replica_inv (deleteRoomCount roomId r).1.
Proof.
  intros Hinv. destruct (flat r !! roomId) as [room|] eqn:Hf.
  - apply replica_inv_members in Hinv as [Hflat Htree].
    destruct (Hflat _ _ Hf) as [Hin Huniq].
    destruct (members_deleteRoomCount _ _ _ Hf Hin) as [Hret Hmem].
    split; [done |]. apply replica_inv_members.
    rewrite flat_deleteRoomCount. split.
    + intros x room' [Hx Hf']%lookup_delete_Some.
      destruct (Hflat _ _ Hf') as [Hin' Huniq']. split.
      * rewrite Hmem. case_bool_decide; set_solver.
      * intros i c. rewrite Hmem. case_bool_decide; set_solver.
    + intros i c x. rewrite Hmem. intros Hx.
      assert (x ∈ members r i c) as Hx' by (case_bool_decide; set_solver).
      destruct (decide (x = roomId)) as [->|Hne].
      * destruct (Huniq _ _ Hx') as [-> ->].
        rewrite bool_decide_eq_true_2 in Hx by done. set_solver.
      * rewrite lookup_delete_ne by done. eauto.
  - unfold deleteRoomCount. rewrite Hf. done.
Qed.

(** One call that keeps rooms on their paths returns normally and keeps
    the invariant. *)
Lemma replica_inv_perform c r :
  replica_inv r → keeps_path r c = true →
  (perform c r).2 = Ok () ∧ replica_inv (perform c r).1.
Proof.
  intros Hinv Hk. destruct c as [index collection roomId n | roomId]; cbn in *.
  - destruct (is_zero (parseInt10 n)) eqn:Hz.
    + unfold setRoomCount. rewrite Hz. by apply replica_inv_deleteRoomCount.
    + split; [by apply setRoomCount_returns |].
      apply replica_inv_members in Hinv as [Hflat Htree].
      apply replica_inv_members. rewrite flat_setRoomCount by done.
      split.
      * intros x room'. destruct (decide (x = roomId)) as [->|Hne].
        -- rewrite lookup_insert_eq. intros [= <-]. cbn. split.
           ++ rewrite members_setRoomCount, bool_decide_eq_true_2 by done.
              set_solver.
           ++ intros i c. rewrite members_setRoomCount by done.
              case_bool_decide as Hic; [naive_solver |]. intros Hx.
              destruct (Htree _ _ _ Hx) as [room Hf]. rewrite Hf in Hk.
              apply andb_true_iff in Hk as [<-%bool_decide_eq_true <-%bool_decide_eq_true].
              by apply (Hflat _ _ Hf).
        -- rewrite lookup_insert_ne by done. intros Hf'.
           destruct (Hflat _ _ Hf') as [Hin' Huniq']. split.
           ++ rewrite members_setRoomCount by done. case_bool_decide; set_solver.
           ++ intros i c. rewrite members_setRoomCount by done.
              case_bool_decide; set_solver.
      * intros i c x. rewrite members_setRoomCount by done. intros Hx.
        destruct (decide (x = roomId)) as [->|Hne]; [by rewrite lookup_insert_eq |].
        rewrite lookup_insert_ne by done. apply (Htree i c).
        case_bool_decide; set_solver.
  - by apply replica_inv_deleteRoomCount.
Qed.

(** C10.  [deleteRoomCount] on a room id that [flat] does not hold returns
    without an exception and leaves [flat] and [tree] as they were. *)
Theorem deleteRoomCount_absent (roomId : string) (r : rooms) :
  flat r !! roomId = None →
  deleteRoomCount roomId r = (r, Ok ()).
Proof. intros H. unfold deleteRoomCount. by rewrite H. Qed.

Lemma deleteRoomCount_absent_witness :
  flat (Rooms {[ "r1" := Room "i" "c" (Num 2) ]}
              {[ "i" := {[ "c" := {[ "r1" ]} ]} ]}) !! "r2" = None
  ∧ deleteRoomCount "r2"
      (Rooms {[ "r1" := Room "i" "c" (Num 2) ]}
             {[ "i" := {[ "c" := {[ "r1" ]} ]} ]})
    = (Rooms {[ "r1" := Room "i" "c" (Num 2) ]}
             {[ "i" := {[ "c" := {[ "r1" ]} ]} ]}, Ok ()).
Proof.
  split; [reflexivity |]. apply deleteRoomCount_absent. reflexivity.
Defined.

(** C1, as the code has it.  From the empty replica, every sequence of
    [setRoomCount] and [deleteRoomCount] calls that keeps each room on its
    path (an upsert of a room [flat] holds names the index and collection
    stored for it) runs without an exception and ends in a state where
    every room of [flat] is in the tree set of its own index and collection
    and in no other, and every member of a tree set is a room of [flat]. *)
Theorem replica_inv_reachable (cs : list call) :
  keep_paths cs Replica.empty = true →
  (perform_all cs Replica.empty).2 = Ok ()
  ∧ replica_inv (perform_all cs Replica.empty).1.
Proof.
  generalize replica_inv_empty. generalize Replica.empty as r.
  induction cs as [|c cs IH]; intros r Hinv Hk; cbn in *.
  - done.
  - apply andb_true_iff in Hk as [Hc Hcs].
    destruct (replica_inv_perform c r Hinv Hc) as [Hret Hinv'].
    destruct (perform c r) as [r' [[]|e]]; cbn in *; [| done].
    by apply IH.
Qed.

Lemma replica_inv_reachable_witness :
  keep_paths two_rooms Replica.empty = true
  ∧ (perform_all two_rooms Replica.empty).2 = Ok ()
  ∧ replica_inv (perform_all two_rooms Replica.empty).1.
Proof.
  split; [vm_compute; reflexivity |].
  apply (replica_inv_reachable two_rooms). vm_compute. reflexivity.
Defined.

(** C1 as stated fails: after the two upserts of [moved_room] the calls have
    returned normally, [flat] holds room r under i2/c2, and r is a member of
    the tree set of i1/c1 too. *)
Lemma replica_inv_moved_room :
  (perform_all moved_room Replica.empty).2 = Ok ()
  ∧ ¬ replica_inv (perform_all moved_room Replica.empty).1.
Proof.
  split; [reflexivity |].
  intros [Hflat _].
  destruct (Hflat "r" (Room "i2" "c2" (Num 1))) as [_ Huniq]; [reflexivity |].
  destruct (Huniq "i1" "c1") as [Hi _]; [| discriminate Hi].
  apply in_tree_members. vm_compute. set_solver.
Qed.

End ReplicaFacts.

Section HandlerFacts.
Import KuzzleCluster.

Context (JSON_stringify : value → string)
        (coordinator : command → result reply)
        (publish : string → value → result unit)
        (state_reset : result unit)
        (meanwhile : event → cluster → cluster)
        (tree_paths : gmap string (gmap string (gset string))
                      → list (string * string)).

(** Runs the synchronous steps of a handler that stand at the head of the
    goal. *)
Local Ltac run_M :=
  unfold mbind, M_bind, mret, M_ret, this, debug, emit, modify; cbn.

Lemma _rooms_set_locks_create s c : _rooms (set_locks_create s c) = _rooms c.
Proof. reflexivity. Qed.

Lemma _rooms_set_locks_delete s c : _rooms (set_locks_delete s c) = _rooms c.
Proof. reflexivity. Qed.

(** What [_onSubOn] does with a well-formed result. *)
Lemma _onSubOn_run type index collection roomId version count w :
  _onSubOn publish type index collection roomId (VersionCount version count) w
  = match guarded (me w) index collection roomId version count with
    | (r, Ok _) =>
      (World (set_rooms r (me w))
         (trace w
          ++ [ Debug "[hook][sub %s] v%d %s/%s/%s = %d"
                 [ VString type; VNumber (Num version); VString index;
                   VString collection; VString roomId; VNumber count ];
               Broadcast "cluster:sync"
                 (state_event index collection roomId type) ]),
       publish "cluster:sync" (state_event index collection roomId type))
    | (r, Err e) => (World (set_rooms r (me w)) (trace w), Err e)
    end.
Proof.
  unfold _onSubOn, guarded, destructure.
  run_M.
  destruct (getVersion (me w) index collection <? version).
  - unfold setRoomCount.
    destruct (Replica.setRoomCount index collection roomId count (_rooms (me w)))
      as [r [[]|e]]; cbn; [| done].
    unfold node_broadcast. cbn. by rewrite <- app_assoc.
  - cbn. unfold node_broadcast. cbn. rewrite <- app_assoc.
    by destruct w as [[] ?].
Qed.

(** A chain under [finally (modify f)] ends with [f] applied. *)
Lemma finally_modify {A} (p : M A) (f : cluster → cluster) w :
  me (finally p (modify f) w).1 = f (me (p w).1).
Proof. unfold finally, modify. by destruct (p w) as [w' r]. Qed.

Lemma invoke_promise {A} (h : M (M A)) (p : M A) w w' :
  h w = (w', Ok p) → (invoke h w).1 = (p w').1.
Proof. unfold invoke. intros ->. by destruct (p w') as [w'' [a|e]]. Qed.

(** C7, as the code has it.  On a ready node, once the promise returned by
    [subscriptionAdded] has settled the room id of the diff is not in
    [locks.create], and once the promise returned by [subscriptionOff] has
    settled the room id is not in [locks.delete], whatever the coordinator
    answers or fails to answer. *)
Theorem locks_released_when_ready :
  (∀ diff w,
     node_ready (me w) = true →
     diff_roomId diff
     ∉ locks_create
         (me (invoke (subscriptionAdded JSON_stringify coordinator publish
                        meanwhile diff) w).1))
  ∧ (∀ object w,
       node_ready (me w) = true →
       room_id object
       ∉ locks_delete
           (me (invoke (subscriptionOff coordinator publish meanwhile object) w).1)).
Proof.
  split.
  - intros diff w Hready.
    erewrite invoke_promise; last first.
    { unfold subscriptionAdded, mbind, M_bind, this. cbn. rewrite Hready. cbn.
      reflexivity. }
    rewrite finally_modify. cbn. set_solver.
  - intros object w Hready.
    erewrite invoke_promise; last first.
    { unfold subscriptionOff, mbind, M_bind, this. cbn. rewrite Hready. cbn.
      reflexivity. }
    rewrite finally_modify. cbn. set_solver.
Qed.

(** What [subscriptionJoined] does on a ready node with a diff that
    changed, once the coordinator has answered [[version, count]]. *)
Lemma subscriptionJoined_run diff w version count :
  diff_changed diff ≠ VBool false →
  node_ready (me w) = true →
  let index := diff_index diff in
  let collection := diff_collection diff in
  let roomId := diff_roomId diff in
  let cmd := ClusterSubOn (tag_of index collection) (uuid (me w)) roomId
               (diff_connectionId diff) "none" in
  let c1 := meanwhile (Redis cmd) (me w) in
  coordinator cmd = Ok (VersionCount version count) →
  invoke (subscriptionJoined coordinator publish meanwhile diff) w
  = match guarded c1 index collection roomId version count with
    | (r, Ok _) =>
      (World (set_rooms r c1)
         (trace w
          ++ [ Redis cmd;
               Debug "[hook][sub %s] v%d %s/%s/%s = %d"
                 [ VString "join"; VNumber (Num version); VString index;
                   VString collection; VString roomId; VNumber count ];
               Broadcast "cluster:sync"
                 (state_event index collection roomId "join") ]),
       match publish "cluster:sync" (state_event index collection roomId "join") with
       | Ok _ => Fulfilled diff
       | Err e => Rejected e
       end)
    | (r, Err e) => (World (set_rooms r c1) (trace w ++ [Redis cmd]), Rejected e)
    end.
Proof.
  intros Hchanged Hready index collection roomId cmd c1 Hreply.
  unfold invoke, subscriptionJoined, mbind at 1, M_bind at 1, this. cbn.
  rewrite Hready. cbn.
  assert (∀ (A : Type) (x y : A),
    match diff_changed diff with VBool false => x | _ => y end = y) as Hm.
  { intros A x y. destruct (diff_changed diff) as [| |[]| | |]; done. }
  rewrite Hm. cbn.
  unfold mbind, M_bind, redis, await. cbn. fold index collection roomId cmd.
  rewrite Hreply. fold c1. rewrite _onSubOn_run. cbn [me trace].
  destruct (guarded c1 index collection roomId version count) as [r [[]|e]];
    [| done].
  rewrite <- app_assoc. cbn.
  by destruct (publish "cluster:sync" _) as [[]|e].
Qed.


(** X20.  On a node that is not ready, each of the nine guarded hooks
    writes one log line and returns: nothing is broadcast and the cluster
    object is as before. *)
Lemma guarded_hooks_drop (h : guarded_hook) w :
  node_ready (me w) = false →
  ∃ line,
    fire publish h w = (World (me w) (trace w ++ [line]), Ok ()) ∧ only_logs [line].
Proof.
  intros Hready.
  destruct h; unfold fire, indexCacheAdded, indexCacheRemoved, notifyDocument,
    notifyUser, profileUpdated, roleUpdated, refreshSpecifications, dump,
    shutdown, mbind, M_bind, this, debug, emit; cbn; rewrite Hready; cbn;
    (eexists; split; [reflexivity | by repeat constructor]).
Qed.

(** [cleanNode (this.node)] when the pool is empty as the discovery removal
    settles. *)
Lemma cleanNode_last_run w :
  let cmd := leave_discovery JSON_stringify (node (me w)) in
  let c1 := meanwhile (Redis cmd) (me w) in
  node_pool_size c1 = 0%nat →
  invoke (cleanNode JSON_stringify coordinator publish state_reset meanwhile
            tree_paths ThisNode) w
  = match coordinator cmd with
    | Err e => (World c1 (trace w ++ [Redis cmd]), Rejected e)
    | Ok _ =>
      let quit := [ Redis cmd; Debug "last node to quit.. cleaning up" [];
                    StateReset ] in
      let all := VObject [("event", VString "state:all")] in
      match state_reset with
      | Err e => (World (meanwhile StateReset c1) (trace w ++ quit), Rejected e)
      | Ok _ =>
        (World (meanwhile StateReset c1)
           (trace w ++ quit ++ [Broadcast "cluster:sync" all]),
         match publish "cluster:sync" all with
         | Ok _ => Fulfilled ()
         | Err e => Rejected e
         end)
      end
    end.
Proof.
  intros cmd c1 Hpool.
  unfold invoke, cleanNode, mbind, M_bind, mret, M_ret, this, redis, await. cbn.
  fold (leave_discovery JSON_stringify (node (me w))). fold cmd.
  destruct (coordinator cmd) as [x|e]; [| done].
  fold c1. rewrite Hpool. cbn.
  unfold node_state_reset, await, debug, emit. cbn.
  destruct state_reset as [[]|e]; cbn.
  - unfold node_broadcast. cbn. rewrite <- !app_assoc. cbn.
    by destruct (publish _ _) as [[]|e].
  - by rewrite <- !app_assoc.
Qed.

(** The first [_onShutDown] sets the flag, logs and calls
    [cleanNode (this.node)]. *)
Lemma shut_down_cleanNode event w :
  _shutdown (me w) = false →
  shut_down JSON_stringify coordinator publish state_reset meanwhile tree_paths
    event w
  = (let run := invoke (cleanNode JSON_stringify coordinator publish state_reset
                          meanwhile tree_paths ThisNode) (shutting_down event w) in
     (run.1, Some run.2)).
Proof.
  intros Hflag.
  unfold shut_down, _onShutDown, shutting_down, invoke.
  unfold mbind at 1 2 3, M_bind at 1 2 3, this at 1, modify. cbn.
  rewrite Hflag. cbn.
  destruct (log _ _ _) as [w1 [[]|e]] eqn:Hlog.
  - cbn. unfold mbind, M_bind. cbn.
    destruct (cleanNode _ _ _ _ _ _ ThisNode w1) as [w2 [p|e]]; cbn; [| done].
    by destruct (p w2) as [w3 [a|e]].
  - unfold log, mbind, M_bind, this, emit in Hlog. cbn in Hlog.
    by destruct (_isKuzzleStarted (me w)).
Qed.

(** C9, as the code has it.  When the shutdown path calls
    [cleanNode (this.node)] and the pool is empty as the removal from the
    discovery set settles, that removal is the only command sent to the
    coordinator, so no cleanNode script is called for any tag; and once the
    removal has succeeded, [state.reset ()] is invoked. *)
Theorem last_node_out event w :
  _shutdown (me w) = false →
  let w1 := shutting_down event w in
  let cmd := leave_discovery JSON_stringify (node (me w1)) in
  node_pool_size (meanwhile (Redis cmd) (me w1)) = 0%nat →
  let run := shut_down JSON_stringify coordinator publish state_reset meanwhile
               tree_paths event w in
  coordinator_writes (trace run.1) = coordinator_writes (trace w1) ++ [cmd]
  ∧ (∀ tag id, Redis (ClusterCleanNode tag id) ∉ drop (length (trace w1)) (trace run.1))
  ∧ (∀ x, coordinator cmd = Ok x →
       ∃ later,
         trace run.1
         = trace w1
           ++ [ Redis cmd; Debug "last node to quit.. cleaning up" []; StateReset ]
           ++ later).
Proof.
  intros Hflag w1 cmd Hpool run. subst run.
  rewrite (shut_down_cleanNode event w Hflag). cbn [fst snd]. fold w1.
  rewrite (cleanNode_last_run w1 Hpool). fold cmd.
  unfold coordinator_writes.
  destruct (coordinator cmd) as [x|e]; cbn [fst snd trace].
  - destruct state_reset as [[]|e]; cbn [fst snd trace].
    + rewrite !omap_app, drop_app_length. cbn. rewrite ?app_nil_r.
      split; [done |]. split.
      * intros tag id Hin. repeat (apply elem_of_cons in Hin as [Hin | Hin]; [done |]).
        by apply elem_of_nil in Hin.
      * intros _ _. by eexists [_].
    + rewrite !omap_app, drop_app_length. cbn.
      split; [done |]. split.
      * intros tag id Hin. repeat (apply elem_of_cons in Hin as [Hin | Hin]; [done |]).
        by apply elem_of_nil in Hin.
      * intros _ _. by exists [].
  - rewrite !omap_app, drop_app_length. cbn. split; [done |]. split.
    + intros tag id Hin. apply elem_of_cons in Hin as [Hin | Hin]; [done |].
      by apply elem_of_nil in Hin.
    + intros x [=].
Qed.

(** The body uses [self] at [attempt + 1] only. *)
Lemma realtimeCountOverride_body_ext self1 self2 request attempt w :
  (∀ w', self1 request (attempt + 1)%nat w' = self2 request (attempt + 1)%nat w') →
  invoke (realtimeCountOverride_body meanwhile self1 request attempt) w
  = invoke (realtimeCountOverride_body meanwhile self2 request attempt) w.
Proof.
  intros Hself. unfold invoke, realtimeCountOverride_body.
  destruct (negb (truthy (input_body request))); [done |].
  destruct (negb (hasOwnProperty (input_body request) "roomId")); [done |].
  run_M.
  destruct (flat_get _ (me w)) as [room|]; [done |].
  destruct attempt; [| done]. cbn.
  unfold adopt, mbind, M_bind. by rewrite Hself.
Qed.

(** A call with a positive [attempt] makes no call of [self]. *)
Lemma realtimeCountOverride_body_positive self1 self2 request attempt w :
  realtimeCountOverride_body meanwhile self1 request (attempt + 1)%nat w
  = realtimeCountOverride_body meanwhile self2 request (attempt + 1)%nat w.
Proof.
  rewrite Nat.add_1_r. unfold realtimeCountOverride_body.
  destruct (negb (truthy (input_body request))); [done |].
  destruct (negb (hasOwnProperty (input_body request) "roomId")); [done |].
  run_M.
  by destruct (flat_get _ (me w)) as [room|].
Qed.

(** The definition of [_realtimeCountOverride] satisfies the recursive
    equation of the method. *)
Lemma _realtimeCountOverride_unfold request attempt w :
  invoke (_realtimeCountOverride meanwhile request attempt) w
  = invoke (realtimeCountOverride_body meanwhile
              (_realtimeCountOverride meanwhile) request attempt) w.
Proof.
  unfold _realtimeCountOverride.
  apply realtimeCountOverride_body_ext. intros w'.
  apply realtimeCountOverride_body_positive.
Qed.

(** X21.  What [realtime.count] does with a request whose body has a
    [roomId]: the count at once when [flat] holds the room; otherwise one
    wait of [waitForMissingRooms] and one more look, which gives the count,
    or rejects with what [new this.context.errors.NotFoundError] evaluates
    to. *)
Lemma _realtimeCountOverride_run request w :
  truthy (input_body request) = true →
  hasOwnProperty (input_body request) "roomId" = true →
  let roomId := member "roomId" (input_body request) in
  let counted (room : Replica.room) :=
    Fulfilled (VObject [("count", VNumber (Replica.room_count room))]) in
  invoke (_realtimeCountOverride meanwhile request 0) w
  = match flat_get roomId (me w) with
    | Some room => (w, counted room)
    | None =>
      let wait := Delay (timers_waitForMissingRooms (me w)) in
      let c1 := meanwhile wait (me w) in
      (World c1 (trace w ++ [wait]),
       match flat_get roomId c1 with
       | Some room => counted room
       | None =>
         match context c1 with
         | Some _ =>
           Rejected (NotFoundError
                       ("The room Id " +:+ double_quote +:+ to_string roomId
                        +:+ double_quote +:+ " does not exist"))
         | None => Rejected (undefined_has_no "errors")
         end
       end)
    end.
Proof.
  intros Hbody Hown roomId counted.
  unfold _realtimeCountOverride, invoke, realtimeCountOverride_body at 1.
  rewrite Hbody, Hown. cbn.
  unfold mbind at 1, M_bind at 1, this at 1. cbn. fold roomId.
  destruct (flat_get roomId (me w)) as [room|]; [by destruct w |]. cbn.
  unfold mbind at 1, M_bind at 1, Bluebird_delay, await. cbn.
  unfold adopt, realtimeCountOverride_body. rewrite Hbody, Hown. cbn.
  run_M. fold roomId.
  destruct (flat_get roomId _) as [room|]; [done |]. cbn.
  unfold new_context_error. run_M.
  by destruct (context _).
Qed.

(** X23.  What [realtime.count] does with a request that has no body, or
    whose body has no own [roomId]: it evaluates
    [new this.context.errors.BadRequestError], which gives the error to
    reject with when [this.context] is set and throws when it is not; it
    sets no timer, whatever [attempt] is. *)
Lemma _realtimeCountOverride_invalid request attempt w :
  truthy (input_body request) = false
  ∨ hasOwnProperty (input_body request) "roomId" = false →
  ∃ msg,
    invoke (_realtimeCountOverride meanwhile request attempt) w
    = (w, match context (me w) with
          | Some _ => Rejected (BadRequestError msg)
          | None => Thrown (undefined_has_no "errors")
          end).
Proof.
  intros H.
  unfold _realtimeCountOverride, invoke, realtimeCountOverride_body at 1.
  destruct (truthy (input_body request)) eqn:Hbody; cbn.
  - destruct H as [[=] | ->]. cbn.
    unfold new_context_error. run_M.
    eexists. by destruct (context (me w)).
  - unfold new_context_error. run_M.
    eexists. by destruct (context (me w)).
Qed.

End HandlerFacts.

Section ListFacts.
Import KuzzleCluster Obj.

Lemma ensure_Some {A} k (o : obj (obj A)) :
  inherited k = false ∨ k ∈ keys o →
  ∃ o1,
    ensure k o = Some (o1, default [] (get_own k o))
    ∧ ∀ x, set_own k x o1 = set_own k x o.
Proof.
  intros Hk. unfold ensure.
  destruct (get_own k o) as [inner|] eqn:Hget; cbn.
  - by exists o.
  - destruct Hk as [-> | Hk].
    + exists (set_own k [] o). split; [done |]. intros x. apply set_own_set_own.
    + by apply get_own_None in Hget.
Qed.

Lemma list_room_with_room l roomId room :
  inherited (Replica.room_index room) = false →
  inherited (Replica.room_collection room) = false →
  list_room l roomId room = Some (with_room l roomId room).
Proof.
  intros Hi Hc. unfold list_room, with_room.
  destruct (ensure_Some (Replica.room_index room) l) as (l1 & -> & Hl1); [by left |].
  cbn.
  destruct (ensure_Some (Replica.room_collection room)
              (default [] (get_own (Replica.room_index room) l)))
    as (c1 & -> & Hc1); [by left |].
  cbn. by rewrite Hc1, Hl1.
Qed.

Lemma keys_assign roomId (n : number) rms k :
  k ∈ keys (assign roomId n rms) ↔ (k = roomId ∧ roomId ≠ "__proto__") ∨ k ∈ keys rms.
Proof.
  unfold assign. destruct (String.eqb_spec roomId "__proto__") as [->|Hne].
  - naive_solver.
  - rewrite elem_of_keys_set_own. naive_solver.
Qed.

Lemma get_own_assign roomId (n : number) rms k :
  get_own k (assign roomId n rms)
  = if bool_decide (k = roomId ∧ roomId ≠ "__proto__") then Some n
    else get_own k rms.
Proof.
  unfold assign. destruct (String.eqb_spec roomId "__proto__") as [->|Hne].
  - rewrite bool_decide_eq_false_2; [done | naive_solver].
  - rewrite get_own_set_own. destruct (String.eqb_spec k roomId) as [->|Hk].
    + by rewrite bool_decide_eq_true_2.
    + rewrite bool_decide_eq_false_2; [done | naive_solver].
Qed.

Lemma plain_rooms_nil : plain_rooms [].
Proof. split; [constructor | apply not_elem_of_nil]. Qed.

Lemma plain_rooms_assign roomId n rms :
  plain_rooms rms → plain_rooms (assign roomId n rms).
Proof.
  intros [Hnd Hp]. split.
  - unfold assign. destruct (String.eqb roomId "__proto__"); [done |].
    by apply NoDup_keys_set_own.
  - rewrite keys_assign. naive_solver.
Qed.

Lemma plain_collections_nil : plain_collections [].
Proof. split; constructor. Qed.

Lemma plain_collections_get k o :
  plain_collections o → plain_rooms (default [] (get_own k o)).
Proof.
  intros [_ Hall]. destruct (get_own k o) as [rms|] eqn:Hget; cbn.
  - apply get_own_Some_elem in Hget. eapply Forall_forall in Hall; [| done].
    by destruct Hall.
  - apply plain_rooms_nil.
Qed.

Lemma plain_listing_get k l :
  plain_listing l → plain_collections (default [] (get_own k l)).
Proof.
  intros [_ Hall]. destruct (get_own k l) as [cols|] eqn:Hget; cbn.
  - apply get_own_Some_elem in Hget. eapply Forall_forall in Hall; [| done].
    by destruct Hall.
  - apply plain_collections_nil.
Qed.

Lemma plain_listing_with_room l roomId room :
  inherited (Replica.room_index room) = false →
  inherited (Replica.room_collection room) = false →
  plain_listing l → plain_listing (with_room l roomId room).
Proof.
  intros Hi Hc Hl. unfold with_room.
  pose proof (plain_listing_get (Replica.room_index room) l Hl) as Hcols.
  pose proof (plain_collections_get (Replica.room_collection room) _ Hcols) as Hrms.
  destruct Hl as [Hnd Hall]. split; [by apply NoDup_keys_set_own |].
  apply Forall_set_own; [| done]. cbn. split; [done |].
  destruct Hcols as [Hnd' Hall']. split; [by apply NoDup_keys_set_own |].
  apply Forall_set_own; [| done]. cbn. split; [done |].
  by apply plain_rooms_assign.
Qed.

(** What the listing holds once a room has been written. *)
Lemma listed_with_room l roomId room i c r :
  listed (with_room l roomId room) i c r
  = if bool_decide (i = Replica.room_index room ∧ c = Replica.room_collection room
                    ∧ r = roomId ∧ roomId ≠ "__proto__")
    then Some (Replica.room_count room)
    else listed l i c r.
Proof.
  unfold listed, with_room. rewrite get_own_set_own.
  destruct (String.eqb_spec i (Replica.room_index room)) as [->|Hi]; cbn.
  - rewrite get_own_set_own.
    destruct (String.eqb_spec c (Replica.room_collection room)) as [->|Hc]; cbn.
    + rewrite get_own_assign. case_bool_decide as Hr.
      * destruct Hr as [-> Hp]. by rewrite bool_decide_eq_true_2.
      * rewrite bool_decide_eq_false_2 by naive_solver.
        destruct (get_own (Replica.room_index room) l) as [cols|]; cbn; [| done].
        by destruct (get_own (Replica.room_collection room) cols).
    + rewrite bool_decide_eq_false_2 by naive_solver.
      by destruct (get_own (Replica.room_index room) l).
  - rewrite bool_decide_eq_false_2 by naive_solver. done.
Qed.

Lemma collected_snoc allowed entries roomId room :
  collected allowed (entries ++ [(roomId, room)])
  = if allowed (Replica.room_index room) (Replica.room_collection room)
    then with_room (collected allowed entries) roomId room
    else collected allowed entries.
Proof. unfold collected. by rewrite foldl_app. Qed.

(** While the permitted rooms carry no name of [Object.prototype] as index
    or collection, no write leaves the plain objects. *)
Lemma collect_collected allowed entries :
  (∀ roomId room, (roomId, room) ∈ entries →
     allowed (Replica.room_index room) (Replica.room_collection room) = true →
     inherited (Replica.room_index room) = false
     ∧ inherited (Replica.room_collection room) = false) →
  foldl (λ acc '(roomId, room),
           list ← acc;
           if negb (allowed (Replica.room_index room) (Replica.room_collection room))
           then Some list else list_room list roomId room)
        (Some []) entries
  = Some (collected allowed entries).
Proof.
  induction entries as [|[roomId room] entries IH] using rev_ind; [done |].
  intros Hplain. rewrite foldl_app, collected_snoc. cbn. rewrite IH.
  - cbn. destruct (allowed _ _) eqn:Hallowed; cbn; [| done].
    destruct (Hplain roomId room) as [Hi Hc]; [| done |].
    + apply elem_of_app. right. by apply list_elem_of_singleton.
    + by apply list_room_with_room.
  - intros r rm Hin. apply (Hplain r rm). apply elem_of_app. by left.
Qed.

Lemma plain_listing_collected allowed entries :
  (∀ roomId room, (roomId, room) ∈ entries →
     allowed (Replica.room_index room) (Replica.room_collection room) = true →
     inherited (Replica.room_index room) = false
     ∧ inherited (Replica.room_collection room) = false) →
  plain_listing (collected allowed entries).
Proof.
  induction entries as [|[roomId room] entries IH] using rev_ind.
  - intros _. split; constructor.
  - intros Hplain. rewrite collected_snoc.
    assert (plain_listing (collected allowed entries)) as Hl.
    { apply IH. intros r rm Hin. apply (Hplain r rm). apply elem_of_app. by left. }
    destruct (allowed _ _) eqn:Hallowed; [| done].
    destruct (Hplain roomId room) as [Hi Hc]; [| done |].
    + apply elem_of_app. right. by apply list_elem_of_singleton.
    + by apply plain_listing_with_room.
Qed.

(** The listing holds a count for a room on a path exactly when the room
    is one of the entries, on that path with that count, and permitted. *)
Lemma listed_collected allowed entries i c r n :
  NoDup entries.*1 →
  (∀ roomId room, (roomId, room) ∈ entries → roomId ≠ "__proto__") →
  listed (collected allowed entries) i c r = Some n
  ↔ (r, Replica.Room i c n) ∈ entries ∧ allowed i c = true.
Proof.
  induction entries as [|[roomId room] entries IH] using rev_ind.
  - intros _ _. cbn. split; [done |]. intros [H _]. by apply elem_of_nil in H.
  - rewrite fmap_app. intros [Hnd [Hfresh _]]%NoDup_app Hproto.
    assert (roomId ∉ entries.*1) as Hnew.
    { intros Hin. apply (Hfresh _ Hin). cbn. by apply list_elem_of_singleton. }
    assert (∀ rm, (roomId, rm) ∉ entries) as Hnew'.
    { intros rm Hin. apply Hnew. apply list_elem_of_fmap. by exists (roomId, rm). }
    assert (roomId ≠ "__proto__") as Hp.
    { apply (Hproto roomId room). apply elem_of_app. right.
      by apply list_elem_of_singleton. }
    specialize (IH Hnd).
    rewrite collected_snoc, elem_of_app, list_elem_of_singleton.
    destruct (allowed (Replica.room_index room) (Replica.room_collection room))
      eqn:Hallowed.
    + rewrite listed_with_room. case_bool_decide as Hhere.
      * destruct Hhere as (-> & -> & -> & _). split.
        -- intros [= <-]. split; [right; by destruct room | done].
        -- intros [[Hin | Heq] _]; [by apply Hnew' in Hin |].
           by injection Heq as <-.
      * rewrite IH; [| intros r0 rm0 Hin; apply (Hproto r0 rm0), elem_of_app; by left].
        split; [naive_solver |]. intros [[Hin | Heq] Ha]; [done |].
        injection Heq as -> <-. cbn in Hhere. naive_solver.
    + rewrite IH; [| intros r0 rm0 Hin; apply (Hproto r0 rm0), elem_of_app; by left].
      split; [naive_solver |]. intros [[Hin | Heq] Ha]; [done |].
      injection Heq as -> <-. cbn in Hallowed. congruence.
Qed.

Lemma foldl_ext_in {B C} (f g : B → C → B) (b : B) (l : list C) :
  (∀ b x, x ∈ l → f b x = g b x) → foldl f b l = foldl g b l.
Proof.
  revert b. induction l as [|x l IH]; intros b Hfg; cbn; [done |].
  rewrite Hfg by (apply elem_of_cons; by left).
  apply IH. intros b' y Hy. apply Hfg. apply elem_of_cons. by right.
Qed.

(** The innermost loop copies the rooms of a plain object. *)
Lemma sorted_rooms_build src :
  plain_rooms src →
  sorted_rooms src []
  = build (sort (keys src)) (λ roomId, default NaN (get_own roomId src)).
Proof.
  intros [_ Hproto]. unfold sorted_rooms, build. apply foldl_ext_in.
  intros dst r Hr. rewrite sort_Permutation in Hr.
  destruct (get_own r src) as [n|] eqn:Hget; cbn.
  - unfold assign. destruct (String.eqb_spec r "__proto__") as [->|]; done.
  - by apply get_own_None in Hget.
Qed.

(** A loop over distinct keys that are no names of [Object.prototype],
    each guarded by [ensure], builds its object key by key. *)
Lemma foldl_ensure_build {B} (g : string → obj B → option (obj B))
    (f : string → obj B) ks :
  NoDup ks →
  (∀ k, k ∈ ks → inherited k = false ∧ g k [] = Some (f k)) →
  foldl (λ acc k,
           dst ← acc;
           '(dst, inner) ← ensure k dst;
           inner ← g k inner;
           Some (set_own k inner dst))
        (Some []) ks
  = Some (build ks f).
Proof.
  induction ks as [|k ks IH] using rev_ind; [done |].
  intros [Hnd [Hfresh _]]%NoDup_app Hks.
  rewrite foldl_app, build_snoc, IH; [| done |]; last first.
  { intros k' Hk'. apply Hks. apply elem_of_app. by left. }
  destruct (Hks k) as [Hk Hg].
  { apply elem_of_app. right. by apply list_elem_of_singleton. }
  cbn. unfold ensure. rewrite get_own_build, bool_decide_eq_false_2, Hk.
  - cbn. rewrite Hg. cbn. by rewrite set_own_set_own.
  - intros Hin. apply (Hfresh _ Hin). by apply list_elem_of_singleton.
Qed.

Lemma NoDup_sort ks : NoDup ks → NoDup (sort ks).
Proof. by rewrite sort_Permutation. Qed.

Lemma sorted_collections_build src :
  plain_collections src →
  sorted_collections src []
  = Some (build (sort (keys src))
            (λ collection,
               let rms := default [] (get_own collection src) in
               build (sort (keys rms))
                 (λ roomId, default NaN (get_own roomId rms)))).
Proof.
  intros Hsrc. unfold sorted_collections.
  rewrite <- (foldl_ensure_build
    (λ collection inner,
       Some (sorted_rooms (default [] (get_own collection src)) inner))).
  - done.
  - apply NoDup_sort, Hsrc.
  - intros k Hk. rewrite sort_Permutation in Hk.
    destruct Hsrc as [Hnd Hall]. split.
    + apply list_elem_of_fmap in Hk as ([k' v] & -> & Hin).
      eapply Forall_forall in Hall; [| done]. by destruct Hall.
    + f_equal. apply sorted_rooms_build.
      by apply plain_collections_get.
Qed.

(** On a plain listing the three loops leave the plain objects nowhere,
    and give the sorted copy. *)
Lemma sorted_listing_copy l :
  plain_listing l → sorted_listing l = Some (sorted_copy l).
Proof.
  intros Hl. unfold sorted_listing, sorted_copy.
  apply (foldl_ensure_build
    (λ index inner, sorted_collections (default [] (get_own index l)) inner)).
  - apply NoDup_sort, Hl.
  - intros k Hk. rewrite sort_Permutation in Hk. split.
    + destruct Hl as [Hnd Hall].
      apply list_elem_of_fmap in Hk as ([k' v] & -> & Hin).
      eapply Forall_forall in Hall; [| done]. by destruct Hall.
    + apply sorted_collections_build. by apply plain_listing_get.
Qed.

Lemma get_own_build_copy {B} (d : B) (o : obj B) k :
  get_own k (build (sort (keys o)) (λ k, default d (get_own k o))) = get_own k o.
Proof.
  rewrite get_own_build. case_bool_decide as Hk.
  - rewrite sort_Permutation in Hk.
    destruct (get_own k o) eqn:Hget; [done |]. by apply get_own_None in Hget.
  - rewrite sort_Permutation in Hk. symmetry. by apply get_own_None.
Qed.

(** The sorted copy holds the entries of the listing it copies. *)
Lemma listed_sorted_copy l i c r : listed (sorted_copy l) i c r = listed l i c r.
Proof.
  unfold listed, sorted_copy. rewrite get_own_build. case_bool_decide as Hi.
  - rewrite sort_Permutation in Hi.
    destruct (get_own i l) as [cols|] eqn:Hget; [| by apply get_own_None in Hget].
    simpl. rewrite get_own_build. case_bool_decide as Hc.
    + rewrite sort_Permutation in Hc.
      destruct (get_own c cols) as [rms|] eqn:Hget'; [| by apply get_own_None in Hget'].
      simpl. apply get_own_build_copy.
    + rewrite sort_Permutation in Hc. apply get_own_None in Hc. by rewrite Hc.
  - rewrite sort_Permutation in Hi. apply get_own_None in Hi. by rewrite Hi.
Qed.

Lemma named_set_own {B} k (v : B) o :
  array_index k = None → named o → named (set_own k v o).
Proof.
  intros Hk Ho. apply Forall_forall. intros k' [->|Hin]%elem_of_keys_set_own; [done |].
  exact (proj1 (Forall_forall _ _) Ho _ Hin).
Qed.

Lemma named_nil {B} : named ([] : obj B).
Proof. constructor. Qed.

Lemma named_listing_get k l :
  named_listing l →
  named (default [] (get_own k l))
  ∧ Forall (λ kv, named kv.2) (default [] (get_own k l)).
Proof.
  intros [_ Hall]. destruct (get_own k l) as [cols|] eqn:Hget; cbn.
  - apply get_own_Some_elem in Hget.
    exact (proj1 (Forall_forall _ _) Hall _ Hget).
  - split; constructor.
Qed.

Lemma named_listing_with_room l roomId room :
  array_index (Replica.room_index room) = None →
  array_index (Replica.room_collection room) = None →
  array_index roomId = None →
  named_listing l → named_listing (with_room l roomId room).
Proof.
  intros Hi Hc Hr Hl. unfold with_room.
  destruct (named_listing_get (Replica.room_index room) l Hl) as [Hcols Hall'].
  destruct Hl as [Hkeys Hall]. split; [by apply named_set_own |].
  apply Forall_set_own; [| done]. cbn. split; [by apply named_set_own |].
  apply Forall_set_own; [| done]. cbn.
  unfold assign. destruct (String.eqb roomId "__proto__").
  - destruct (get_own (Replica.room_collection room) _) as [rms|] eqn:Hget; cbn;
      [| apply named_nil].
    apply get_own_Some_elem in Hget.
    exact (proj1 (Forall_forall _ _) Hall' _ Hget).
  - apply named_set_own; [done |].
    destruct (get_own (Replica.room_collection room) _) as [rms|] eqn:Hget; cbn;
      [| apply named_nil].
    apply get_own_Some_elem in Hget.
    exact (proj1 (Forall_forall _ _) Hall' _ Hget).
Qed.

Lemma named_listing_collected allowed entries :
  (∀ roomId room, (roomId, room) ∈ entries →
     array_index (Replica.room_index room) = None
     ∧ array_index (Replica.room_collection room) = None
     ∧ array_index roomId = None) →
  named_listing (collected allowed entries).
Proof.
  induction entries as [|[roomId room] entries IH] using rev_ind.
  - intros _. split; constructor.
  - intros Hnames. rewrite collected_snoc.
    assert (named_listing (collected allowed entries)) as Hl.
    { apply IH. intros r rm Hin. apply (Hnames r rm). apply elem_of_app. by left. }
    destruct (allowed _ _); [| done].
    destruct (Hnames roomId room) as (Hi & Hc & Hr).
    { apply elem_of_app. right. by apply list_elem_of_singleton. }
    by apply named_listing_with_room.
Qed.

Lemma elem_of_build {B} ks (f : string → B) k v :
  (k, v) ∈ build ks f → k ∈ ks ∧ v = f k.
Proof.
  intros Hin. apply elem_get_own in Hin; [| apply NoDup_keys_build].
  rewrite get_own_build in Hin. case_bool_decide; [| done].
  by injection Hin as <-.
Qed.

(** Written in sorted order, keys that are no array indices stay in
    sorted order. *)
Lemma sorted_keys_build {B C} (o : obj B) (f : string → C) :
  NoDup (keys o) → named o → sorted_keys (build (sort (keys o)) f).
Proof.
  intros Hnd Hnamed. unfold sorted_keys. rewrite keys_build.
  - apply Sorted_sort.
  - by apply NoDup_sort.
  - unfold named in Hnamed. by rewrite sort_Permutation.
Qed.

Lemma sorted_copy_sorted l :
  plain_listing l → named_listing l → sorted_at_every_level (sorted_copy l).
Proof.
  intros Hplain Hnamed. split.
  - apply sorted_keys_build; [apply Hplain | apply Hnamed].
  - apply Forall_forall. intros [i cols'] [Hi ->]%elem_of_build. cbn.
    pose proof (plain_listing_get i l Hplain) as Hcols.
    destruct (named_listing_get i l Hnamed) as [Hncols Hnall].
    split; [apply sorted_keys_build; [apply Hcols | done] |].
    apply Forall_forall. intros [c rms'] [Hc ->]%elem_of_build. cbn.
    pose proof (plain_collections_get c _ Hcols) as Hrms.
    apply sorted_keys_build; [apply Hrms |].
    destruct (get_own c (default [] (get_own i l))) as [rms|] eqn:Hget; cbn;
      [| apply named_nil].
    apply get_own_Some_elem in Hget.
    exact (proj1 (Forall_forall _ _) Hnall _ Hget).
Qed.

Lemma Bluebird_all_Ok {B C} (f : B → result C) (g : B → C) (l : list B) :
  (∀ x, x ∈ l → f x = Ok (g x)) → Bluebird_all (f <$> l) = Ok (g <$> l).
Proof.
  induction l as [|x l IH]; intros Hf; cbn; [done |].
  rewrite Hf by (apply elem_of_cons; by left).
  rewrite IH; [done |]. intros y Hy. apply Hf. apply elem_of_cons. by right.
Qed.

Lemma zip_fmap_self {B C} (g : B → C) (l : list B) :
  zip l (g <$> l) = (λ x, (x, g x)) <$> l.
Proof. induction l as [|x l IH]; cbn; [done |]. by rewrite IH. Qed.

(** X22.  What [realtime.list] resolves with.  The permission checks
    answer as [allowed] says and no name in the replica is a name of
    [Object.prototype] (nor a room id [__proto__]): the promise is
    fulfilled with a listing that holds a count for a room on a path
    exactly when [flat] holds the room on that path with that count and the
    caller may search there, whether [sorted] is set or not; and when
    [sorted] is set and no name in the replica is an array index, the keys
    of the listing and of every object in it are in sorted order. *)
Theorem realtime_list_entries
    (flat_entries : gmap string Replica.room → list (string * Replica.room))
    (allowed : string → string → bool) (request : Request) (c : cluster) :
  let flat := Replica.flat (_rooms c) in
  flat_entries flat ≡ₚ map_to_list flat →
  (∀ index collection,
     isActionAllowed (context_user request) "document" "search" index collection
     = Ok (allowed index collection)) →
  plain_names flat →
  ∃ l,
    _realtimeListOverride flat_entries request c = Ok (Some l)
    ∧ (∀ index collection roomId count,
         listed l index collection roomId = Some count
         ↔ flat !! roomId = Some (Replica.Room index collection count)
           ∧ allowed index collection = true)
    ∧ (truthy (member "sorted" (VObject (input_args request))) = true →
       no_array_index flat → sorted_at_every_level l).
Proof.
  intros flat Hperm Hallowed Hplain.
  assert (∀ r rm, (r, rm) ∈ flat_entries flat ↔ flat !! r = Some rm) as Hin.
  { intros r rm. rewrite Hperm. apply elem_of_map_to_list. }
  assert (NoDup (flat_entries flat).*1) as Hnd.
  { rewrite Hperm. apply NoDup_fst_map_to_list. }
  set (l := collected allowed (flat_entries flat)).
  assert (plain_listing l) as Hl.
  { apply plain_listing_collected. intros r rm Hrm%Hin _.
    destruct (Hplain r rm Hrm) as (? & ? & _). done. }
  assert (∀ i cl r n,
    listed l i cl r = Some n
    ↔ flat !! r = Some (Replica.Room i cl n) ∧ allowed i cl = true) as Hlisted.
  { intros i cl r n. unfold l. rewrite listed_collected, Hin; [done | done |].
    intros r' rm' Hrm%Hin. by destruct (Hplain r' rm' Hrm) as (_ & _ & ?). }
  unfold _realtimeListOverride. fold flat.
  rewrite (Bluebird_all_Ok _
    (λ e : string * Replica.room,
       allowed (Replica.room_index e.2) (Replica.room_collection e.2))).
  2: { intros [r rm] _. apply Hallowed. }
  rewrite zip_fmap_self, foldl_fmap.
  rewrite (foldl_ext_in _
    (λ acc '(roomId, room),
       list ← acc;
       if negb (allowed (Replica.room_index room) (Replica.room_collection room))
       then Some list else list_room list roomId room)).
  2: { by intros acc [r rm] _. }
  rewrite collect_collected.
  2: { intros r rm Hrm%Hin _. destruct (Hplain r rm Hrm) as (? & ? & _). done. }
  fold l. destruct (truthy (member "sorted" (VObject (input_args request)))); cbn.
  - rewrite (sorted_listing_copy l Hl). exists (sorted_copy l).
    split; [done |]. split.
    + intros i cl r n. by rewrite listed_sorted_copy.
    + intros _ Hnames. apply sorted_copy_sorted; [done |].
      apply named_listing_collected. intros r rm Hrm%Hin. by apply Hnames.
  - exists l. split; [done |]. split; [done | discriminate].
Qed.

End ListFacts.

Section Scenarios.
Import KuzzleCluster.

Local Ltac by_computation :=
  lazymatch goal with
  | |- ?P => apply (bool_decide_unpack P); vm_compute; exact I
  end.

Lemma locks_released_when_ready_witness :
  let w := roomCreated "room-1" (World ready_node []) in
  node_ready (me w.1) = true
  ∧ "room-1" ∈ locks_create (me w.1)
  ∧ "room-1"
    ∉ locks_create
        (me (invoke (subscriptionAdded stringify_stub unreachable delivered
                       undisturbed a_diff) w.1).1).
Proof.
  intros w. split; [reflexivity |]. split; [by_computation |].
  apply (proj1 (locks_released_when_ready stringify_stub unreachable delivered
                  undisturbed) a_diff w.1).
  reflexivity.
Defined.

(** C7 as stated fails on a node that is not ready: [room:new] has put the
    room id in [locks.create], [subscriptionAdded] resolves with the diff,
    and the room id is in [locks.create] still; the same with [room:remove],
    [subscriptionOff] and [locks.delete]. *)
Lemma locks_kept_when_not_ready :
  (let w := (roomCreated "room-1" (World fresh_node [])).1 in
   let run := invoke (subscriptionAdded stringify_stub obliging delivered
                        undisturbed a_diff) w in
   run.2 = Fulfilled a_diff ∧ "room-1" ∈ locks_create (me run.1))
  ∧ (let w := (roomDeleted "room-1" (World fresh_node [])).1 in
     let run := invoke (subscriptionOff obliging delivered undisturbed a_removal) w in
     run.2 = Fulfilled a_removal ∧ "room-1" ∈ locks_delete (me run.1)).
Proof.
  split; (split; [reflexivity | by_computation]).
Qed.



Lemma last_node_out_witness :
  let w := World lone_node [] in
  let w1 := shutting_down "SIGTERM" w in
  let cmd := leave_discovery stringify_stub (node (me w1)) in
  let run := shut_down stringify_stub obliging delivered (Ok ()) undisturbed
               paths_by_key "SIGTERM" w in
  _shutdown (me w) = false
  ∧ node_pool_size (undisturbed (Redis cmd) (me w1)) = 0%nat
  ∧ coordinator_writes (trace run.1) = coordinator_writes (trace w1) ++ [cmd]
  ∧ (∀ tag id, Redis (ClusterCleanNode tag id) ∉ drop (length (trace w1)) (trace run.1))
  ∧ (∀ x, obliging cmd = Ok x →
       ∃ later,
         trace run.1
         = trace w1
           ++ [ Redis cmd; Debug "last node to quit.. cleaning up" []; StateReset ]
           ++ later).
Proof.
  intros w w1 cmd run. split; [reflexivity |]. split; [reflexivity |].
  apply (last_node_out stringify_stub obliging delivered (Ok ()) undisturbed
           paths_by_key "SIGTERM" w); reflexivity.
Defined.

(** C9 as stated fails when the coordinator store is out of reach: the
    shutdown path calls [cleanNode (this.node)] with an empty pool, the
    removal from the discovery set is rejected, and the promise rejects
    with [state.reset ()] never invoked. *)
Lemma last_node_out_unreachable :
  let run := shut_down stringify_stub unreachable delivered (Ok ()) undisturbed
               paths_by_key "SIGTERM" (World lone_node []) in
  node_pool_size (me run.1) = 0%nat
  ∧ run.2 = Some (Rejected (ExternalError "Connection is closed."))
  ∧ trace run.1
    = [ Emit "log:warn" "SIGTERM kuzzle is shutting down... doing our best to clean rooms";
        Redis (Srem "cluster:discovery" "{}") ]
  ∧ StateReset ∉ trace run.1.
Proof.
  split; [reflexivity |]. split; [reflexivity |]. split; [reflexivity |].
  cbn. intros Hin. repeat (apply elem_of_cons in Hin as [Hin | Hin]; [done |]).
  by apply elem_of_nil in Hin.
Qed.

(** C6 fails on [resetSecurityCache], the one broadcast-only hook that does
    not look at [node.ready]: on a node that is not ready it broadcasts. *)
Theorem resetSecurityCache_not_ready :
  node_ready fresh_node = false
  ∧ resetSecurityCache delivered (World fresh_node [])
    = (World fresh_node [Broadcast "cluster:admin:resetSecurity" VUndefined], Ok ()).
Proof. split; reflexivity. Qed.

(** C4 fails on the object the constructor builds, whose [context] is
    [undefined]: for a request with no body, and for one whose body has no
    [roomId], [realtime.count] returns no promise; evaluating
    [new this.context.errors.BadRequestError] throws a TypeError. *)
Theorem count_without_roomId_throws :
  context ready_node = None
  ∧ invoke (_realtimeCountOverride undisturbed (count_request VUndefined) 0)
      (World ready_node [])
    = (World ready_node [],
       Thrown (TypeError "Cannot read property 'errors' of undefined"))
  ∧ invoke (_realtimeCountOverride undisturbed
              (count_request (VObject [("room", VString "room-1")])) 0)
      (World ready_node [])
    = (World ready_node [],
       Thrown (TypeError "Cannot read property 'errors' of undefined")).
Proof. split; [| split]; reflexivity. Qed.

(** C3 fails in its last clause on the object the constructor builds: for a
    room that [flat] does not hold, [realtime.count] waits
    [waitForMissingRooms] once, looks again, and rejects with the TypeError
    that evaluating [new this.context.errors.NotFoundError] throws. *)
Theorem count_of_missing_room_rejects :
  context ready_node = None
  ∧ invoke (_realtimeCountOverride undisturbed
              (count_request (VObject [("roomId", VString "room-1")])) 0)
      (World ready_node [])
    = (World ready_node [Delay 500],
       Rejected (TypeError "Cannot read property 'errors' of undefined")).
Proof. split; reflexivity. Qed.

(** C8 fails on indexes whose names are array indices: with rooms on the
    indexes 9 and 10 and [sorted] set, [realtime.list] resolves, in
    whichever order the two permission checks answer, with an object whose
    keys come in the order 9, 10, because an object lists its array-index
    keys in ascending numeric order; in code-unit order 10 comes before 9,
    so the keys are not in sorted order. *)
Theorem list_sorted_numbered_indexes :
  let request := list_request [("sorted", VBool true)] in
  let resolved : listing :=
    [ ("9", [("taxi", [("room-1", Num 4)])]);
      ("10", [("taxi", [("room-2", Num 2)])]) ] in
  _realtimeListOverride map_to_list request numbered_indexes = Ok (Some resolved)
  ∧ _realtimeListOverride (reverse ∘ map_to_list) request numbered_indexes
    = Ok (Some resolved)
  ∧ ¬ sorted_keys resolved.
Proof.
  split; [vm_compute; reflexivity |]. split; [vm_compute; reflexivity |].
  unfold sorted_keys. cbn. intros Hsorted.
  apply Sorted_inv in Hsorted as [_ Hhd]. apply HdRel_inv in Hhd.
  vm_compute in Hhd. discriminate Hhd.
Qed.

Lemma realtime_list_entries_witness :
  let request := list_request [("sorted", VBool true)] in
  let flat := Replica.flat (_rooms three_rooms) in
  ∃ l,
    _realtimeListOverride map_to_list request three_rooms = Ok (Some l)
    ∧ (∀ index collection roomId count,
         listed l index collection roomId = Some count
         ↔ flat !! roomId = Some (Replica.Room index collection count)
           ∧ (λ _ _ : string, true) index collection = true)
    ∧ (truthy (member "sorted" (VObject (input_args request))) = true →
       no_array_index flat → sorted_at_every_level l).
Proof.
  intros request flat.
  apply (realtime_list_entries map_to_list (λ _ _, true) request three_rooms).
  - reflexivity.
  - reflexivity.
  - apply (bool_decide_unpack
      (map_Forall (λ roomId room,
         Obj.inherited (Replica.room_index room) = false
         ∧ Obj.inherited (Replica.room_collection room) = false
         ∧ roomId ≠ "__proto__") _)).
    vm_compute. exact I.
Defined.

(** The specification's scenarios, run on the model. *)

(** A subscription on a ready node: the coordinator answers version 1 and
    count 1, the replica holds the room with count 1, the collection is
    registered, the state event is broadcast and [locks.create] is empty. *)
Example scenario_subscribe :
  let w := (roomCreated "room-1" (World ready_node [])).1 in
  let run := invoke (subscriptionAdded stringify_stub obliging delivered
                       undisturbed a_diff) w in
  run.2 = Fulfilled a_diff
  ∧ Replica.flat (_rooms (me run.1)) = {[ "room-1" := Replica.Room "nyc" "taxi" (Num 1) ]}
  ∧ Replica.tree (_rooms (me run.1)) = {[ "nyc" := {[ "taxi" := {[ "room-1" ]} ]} ]}
  ∧ locks_create (me run.1) = ∅
  ∧ broadcasts (trace run.1)
    = [("cluster:sync", state_event "nyc" "taxi" "room-1" "add")].
Proof. repeat split; vm_compute; reflexivity. Qed.

(** List override sorting: keys in the order i1 (c1, c2), i2 (c2). *)
Example scenario_list_sorted :
  _realtimeListOverride map_to_list (list_request [("sorted", VBool true)])
    three_rooms
  = Ok (Some [ ("i1", [ ("c1", [("R2", Num 2)]); ("c2", [("R3", Num 3)]) ]);
               ("i2", [ ("c2", [("R1", Num 4)]) ]) ]).
Proof. vm_compute. reflexivity. Qed.

(** Count with replication lag: the first look misses, a sync brings the
    room during the wait, the second look resolves with its count. *)
Example scenario_count_after_lag :
  invoke (_realtimeCountOverride late_sync
            (count_request (VObject [("roomId", VString "R")])) 0)
    (World ready_node [])
  = (World (late_sync (Delay 500) ready_node) [Delay 500],
     Fulfilled (VObject [("count", VNumber (Num 1))])).
Proof. vm_compute. reflexivity. Qed.

End Scenarios.

Section MoreReplicaFacts.
Import Replica.

Implicit Types (r : rooms) (index collection roomId : string).

Lemma pruned_empty : pruned Replica.empty.
Proof. intros i cols H. cbn in H. by rewrite lookup_empty in H. Qed.

Lemma pruned_setRoomCount_upsert index collection roomId n r :
  is_zero (parseInt10 n) = false →
  pruned r → pruned (setRoomCount index collection roomId n r).1.
Proof.
  intros Hz Hp. unfold setRoomCount. rewrite Hz. cbn [fst].
  intros i cols. cbn [tree].
  destruct (decide (i = index)) as [->|Hi].
  - rewrite lookup_insert_eq. intros [= <-]. split; [apply insert_non_empty |].
    intros c s. destruct (decide (c = collection)) as [->|Hc].
    + rewrite lookup_insert_eq. intros [= <-]. set_solver.
    + rewrite lookup_insert_ne by done.
      destruct (tree r !! index) as [cols|] eqn:Ht.
      * destruct (cols !! collection) as [s0|] eqn:Hcs.
        -- intros Hs. by eapply (Hp index cols Ht).
        -- rewrite lookup_insert_ne by done. intros Hs. by eapply (Hp index cols Ht).
      * rewrite lookup_empty. cbn. rewrite lookup_insert_ne, lookup_empty by done.
        done.
  - rewrite lookup_insert_ne by done. apply (Hp i).
Qed.

Lemma pruned_deleteRoomCount roomId r :
  pruned r → pruned (deleteRoomCount roomId r).1.
Proof.
  intros Hp. unfold deleteRoomCount.
  destruct (flat r !! roomId) as [room|]; [| done].
  destruct (tree r !! room_index room) as [cols|] eqn:Ht; [| done].
  destruct (cols !! room_collection room) as [rms|] eqn:Hcs; [| done].
  destruct (Hp _ _ Ht) as [Hcols Hsets].
  case_bool_decide as Hsz.
  - case_bool_decide as Hsz'; cbn [fst]; intros i cols'; cbn [tree].
    + intros [_ Hi]%lookup_delete_Some. by apply (Hp i).
    + destruct (decide (i = room_index room)) as [->|Hi].
      * rewrite lookup_insert_eq. intros [= <-].
        split; [by apply map_size_non_empty_iff |].
        intros c s [_ Hs]%lookup_delete_Some. by eapply Hsets.
      * rewrite lookup_insert_ne by done. apply (Hp i).
  - cbn [fst]. intros i cols'. cbn [tree].
    destruct (decide (i = room_index room)) as [->|Hi].
    + rewrite lookup_insert_eq. intros [= <-]. split; [apply insert_non_empty |].
      intros c s. destruct (decide (c = room_collection room)) as [->|Hc].
      * rewrite lookup_insert_eq. intros [= <-] Hempty. apply Hsz.
        by rewrite Hempty, size_empty.
      * rewrite lookup_insert_ne by done. by apply Hsets.
    + rewrite lookup_insert_ne by done. apply (Hp i).
Qed.

Lemma pruned_perform c r : pruned r → pruned (perform c r).1.
Proof.
  intros Hp. destruct c as [index collection roomId n | roomId]; cbn.
  - destruct (is_zero (parseInt10 n)) eqn:Hz.
    + unfold setRoomCount. rewrite Hz. by apply pruned_deleteRoomCount.
    + by apply pruned_setRoomCount_upsert.
  - by apply pruned_deleteRoomCount.
Qed.

(** Whatever holds of the empty replica and is kept by every call holds
    after every sequence of calls, also one that an exception ends. *)
Lemma perform_all_ind (P : rooms → Prop) cs :
  P Replica.empty → (∀ c r, P r → P (perform c r).1) →
  P (perform_all cs Replica.empty).1.
Proof.
  intros H0 Hstep. revert H0. generalize Replica.empty as r.
  induction cs as [|c cs IH]; intros r Hr; cbn; [done |].
  specialize (Hstep c r Hr).
  destruct (perform c r) as [r' [[]|e]]; cbn in *; [by apply IH | done].
Qed.

(** X1.  After any sequence of [setRoomCount] and [deleteRoomCount] calls
    on the empty replica, the tree holds no empty set and no empty inner
    map: a set that loses its last room is deleted, and so is the map of an
    index that loses its last collection. *)
Theorem tree_pruned (cs : list call) : pruned (perform_all cs Replica.empty).1.
Proof. apply perform_all_ind; [apply pruned_empty | apply pruned_perform]. Qed.

Lemma counted_perform c r : counted r → counted (perform c r).1.
Proof.
  intros Hc. assert (∀ roomId, counted (deleteRoomCount roomId r).1) as Hdel.
  { intros roomId x room. rewrite flat_deleteRoomCount.
    intros [_ H]%lookup_delete_Some. by eapply Hc. }
  destruct c as [index collection roomId n | roomId]; cbn; [| done].
  destruct (is_zero (parseInt10 n)) eqn:Hz.
  - unfold setRoomCount. rewrite Hz. apply Hdel.
  - intros x room. rewrite flat_setRoomCount by done.
    destruct (decide (x = roomId)) as [->|Hx].
    + rewrite lookup_insert_eq. by intros [= <-].
    + rewrite lookup_insert_ne by done. apply Hc.
Qed.

(** X2.  After any sequence of [setRoomCount] and [deleteRoomCount] calls
    on the empty replica, no room of [flat] has the count 0: a count that
    parses to 0 deletes the room. *)
Theorem no_room_counts_zero (cs : list call) :
  counted (perform_all cs Replica.empty).1.
Proof.
  apply perform_all_ind; [| apply counted_perform].
  intros roomId room H. cbn in H. by rewrite lookup_empty in H.
Qed.

(** A sequence of calls that keep rooms on their paths keeps the
    invariant. *)
Lemma replica_inv_kept cs r :
  replica_inv r → keep_paths cs r = true → replica_inv (perform_all cs r).1.
Proof.
  revert r. induction cs as [|c cs IH]; intros r Hinv Hk; cbn in *; [done |].
  apply andb_prop in Hk as [Hc Hcs].
  destruct (replica_inv_perform c r Hinv Hc) as [Hret Hinv'].
  destruct (perform c r) as [r' res]; cbn in *. subst res. by apply IH.
Qed.

Lemma replica_inv_city_rooms : replica_inv city_rooms.
Proof. apply replica_inv_kept; [apply replica_inv_empty | reflexivity]. Qed.

Lemma pruned_city_rooms : pruned city_rooms.
Proof.
  apply (perform_all_ind pruned); [apply pruned_empty | apply pruned_perform].
Qed.

(** X3.  Round trip.  On a replica that satisfies the invariant and is
    pruned, upserting a room id that [flat] does not hold and deleting it
    again gives back the replica as it was, [flat] and [tree] alike, without
    an exception. *)
Theorem setRoomCount_deleteRoomCount index collection roomId n r :
  replica_inv r → pruned r →
  flat r !! roomId = None →
  is_zero (parseInt10 n) = false →
  deleteRoomCount roomId (setRoomCount index collection roomId n r).1 = (r, Ok ()).
Proof.
  intros Hinv Hp Hnew Hz.
  assert (roomId ∉ members r index collection) as Hout.
  { intros Hin%in_tree_members. destruct Hinv as [_ Htree].
    destruct (Htree _ _ _ Hin) as [room Hroom]. congruence. }
  unfold members in Hout.
  destruct r as [f t]. cbn [flat tree] in *.
  unfold setRoomCount, deleteRoomCount. rewrite Hz. cbn [fst flat tree].
  rewrite lookup_insert_eq. cbn [room_index room_collection].
  rewrite (delete_insert_id f) by done.
  destruct (t !! index) as [cols|] eqn:Ht; cbn [default from_option id] in Hout.
  - destruct (Hp index cols Ht) as [Hcols Hsets].
    destruct (cols !! collection) as [s|] eqn:Hcs; cbn [default from_option id] in *.
    + rewrite ?Hcs, ?lookup_insert_eq. cbn [default from_option id].
      assert ((s ∪ {[roomId]}) ∖ {[roomId]} = s) as -> by set_solver.
      rewrite bool_decide_eq_false_2.
      * by rewrite !insert_insert_eq, (insert_id cols), (insert_id t).
      * intros Hs. apply (Hsets collection s Hcs). by apply size_empty_inv, leibniz_equiv in Hs.
    + rewrite ?lookup_insert_eq. cbn [default from_option id].
      assert ((∅ ∪ {[roomId]}) ∖ {[roomId]} = (∅ : gset string)) as -> by set_solver.
      rewrite bool_decide_eq_true_2 by apply size_empty.
      rewrite !insert_insert_eq, delete_insert_id by done.
      rewrite bool_decide_eq_false_2.
      * by rewrite insert_id.
      * intros Hs. by apply map_size_empty_inv in Hs.
  - rewrite ?lookup_empty, ?lookup_insert_eq. cbn [default from_option id].
    rewrite ?lookup_empty, ?lookup_insert_eq. cbn [default from_option id].
    assert ((∅ ∪ {[roomId]}) ∖ {[roomId]} = (∅ : gset string)) as -> by set_solver.
    rewrite bool_decide_eq_true_2 by apply size_empty.
    rewrite !insert_insert_eq, delete_insert_id by apply lookup_empty.
    rewrite bool_decide_eq_true_2 by apply map_size_empty.
    by rewrite delete_insert_id.
Qed.

Lemma setRoomCount_deleteRoomCount_witness :
  flat city_rooms !! "room-9" = None
  ∧ deleteRoomCount "room-9"
      (setRoomCount "nyc" "tram" "room-9" (Num 4) city_rooms).1
    = (city_rooms, Ok ()).
Proof.
  split; [reflexivity |].
  apply (setRoomCount_deleteRoomCount "nyc" "tram" "room-9" (Num 4) city_rooms).
  - apply replica_inv_city_rooms.
  - apply pruned_city_rooms.
  - reflexivity.
  - reflexivity.
Defined.

(** X4.  Upserting a room that [flat] holds on the same index and
    collection, on a replica that satisfies the invariant, renews its entry
    of [flat] and leaves the tree as it is. *)
Theorem setRoomCount_same_path index collection roomId n old r :
  replica_inv r →
  flat r !! roomId = Some (Room index collection old) →
  is_zero (parseInt10 n) = false →
  setRoomCount index collection roomId n r
  = (Rooms (<[roomId := Room index collection (parseInt10 n)]> (flat r)) (tree r),
     Ok ()).
Proof.
  intros [Hflat _] Hroom Hz.
  destruct (Hflat _ _ Hroom) as [(cols & s & Ht & Hcs & Hin) _].
  cbn [room_index room_collection] in *.
  unfold setRoomCount. rewrite Hz, Ht, Hcs. cbn. rewrite Hcs. cbn.
  assert (s ∪ {[roomId]} = s) as -> by set_solver.
  by rewrite (insert_id cols), (insert_id (tree r)).
Qed.

Lemma setRoomCount_same_path_witness :
  flat city_rooms !! "room-1" = Some (Room "nyc" "taxi" (Num 2))
  ∧ setRoomCount "nyc" "taxi" "room-1" (Num 7) city_rooms
    = (Rooms (<["room-1" := Room "nyc" "taxi" (Num 7)]> (flat city_rooms))
             (tree city_rooms), Ok ()).
Proof.
  split; [reflexivity |].
  apply (setRoomCount_same_path "nyc" "taxi" "room-1" (Num 7) (Num 2) city_rooms).
  - apply replica_inv_city_rooms.
  - reflexivity.
  - reflexivity.
Defined.

(** X5.  On a replica that satisfies the invariant, [deleteRoomCount]
    never throws; afterwards the room is in [flat] no more and in no set of
    the tree, every other room is where it was, and the invariant holds. *)
Theorem deleteRoomCount_removes roomId r :
  replica_inv r →
  (deleteRoomCount roomId r).2 = Ok ()
  ∧ flat (deleteRoomCount roomId r).1 !! roomId = None
  ∧ (∀ i c, ¬ in_tree (deleteRoomCount roomId r).1 i c roomId)
  ∧ (∀ x, x ≠ roomId →
       flat (deleteRoomCount roomId r).1 !! x = flat r !! x
       ∧ ∀ i c, in_tree (deleteRoomCount roomId r).1 i c x ↔ in_tree r i c x)
  ∧ replica_inv (deleteRoomCount roomId r).1.
Proof.
  intros Hinv. destruct (replica_inv_deleteRoomCount roomId r Hinv) as [Hret Hinv'].
  split; [done |]. rewrite flat_deleteRoomCount.
  split; [apply lookup_delete_eq |]. split; [| split; [| done]].
  - intros i c Hin. destruct Hinv' as [_ Htree].
    destruct (Htree _ _ _ Hin) as [room Hroom].
    rewrite flat_deleteRoomCount, lookup_delete_eq in Hroom. done.
  - intros x Hx. split; [by apply lookup_delete_ne |].
    intros i c. rewrite !in_tree_members.
    destruct (flat r !! roomId) as [room|] eqn:Hroom.
    + apply replica_inv_members in Hinv as [Hflat _].
      destruct (Hflat _ _ Hroom) as [Hin _].
      destruct (members_deleteRoomCount _ _ _ Hroom Hin) as [_ ->].
      case_bool_decide; set_solver.
    + unfold deleteRoomCount. by rewrite Hroom.
Qed.

Lemma deleteRoomCount_removes_witness :
  flat city_rooms !! "room-3" = Some (Room "nyc" "bus" (Num 5))
  ∧ (deleteRoomCount "room-3" city_rooms).2 = Ok ()
  ∧ flat (deleteRoomCount "room-3" city_rooms).1 !! "room-3" = None
  ∧ (∀ i c, ¬ in_tree (deleteRoomCount "room-3" city_rooms).1 i c "room-3").
Proof.
  split; [reflexivity |].
  destruct (deleteRoomCount_removes "room-3" city_rooms replica_inv_city_rooms)
    as (Hret & Hflat & Htree & _).
  exact (conj Hret (conj Hflat Htree)).
Defined.

(** Removing a room takes it out of the set of the path [flat] has for it
    and out of no other set, whether the call returns or throws; pruning
    removes no member. *)
Lemma members_deleteRoomCount_any roomId room r :
  flat r !! roomId = Some room →
  ∀ i c,
    members (deleteRoomCount roomId r).1 i c
    = if bool_decide (i = room_index room ∧ c = room_collection room)
      then members r i c ∖ {[ roomId ]} else members r i c.
Proof.
  intros Hf. unfold deleteRoomCount. rewrite Hf.
  unfold members in *.
  destruct (tree r !! room_index room) as [cols|] eqn:Ht.
  2: { intros i c. cbn [fst tree]. case_bool_decide as H; [| done].
       destruct H as [-> ->]. rewrite Ht. cbn [default from_option id].
       rewrite lookup_empty. cbn. set_solver. }
  destruct (cols !! room_collection room) as [rms|] eqn:Hcs.
  2: { intros i c. cbn [fst tree]. case_bool_decide as H; [| done].
       destruct H as [-> ->]. rewrite Ht. cbn [default from_option id].
       rewrite Hcs. cbn. set_solver. }
  case_bool_decide as Hsz.
  - apply size_empty_inv in Hsz. apply leibniz_equiv in Hsz.
    case_bool_decide as Hsz'.
    + apply map_size_empty_inv in Hsz'.
      intros i c. cbn [fst tree].
      destruct (decide (i = room_index room)) as [->|Hi].
      * rewrite lookup_delete_eq, Ht. cbn [default from_option id]. rewrite lookup_empty.
        destruct (decide (c = room_collection room)) as [->|Hc].
        -- rewrite bool_decide_eq_true_2, Hcs by done. cbn. by rewrite Hsz.
        -- rewrite bool_decide_eq_false_2 by (done || (intros [??]; done)).
           rewrite <- (lookup_delete_ne cols (room_collection room) c) by done.
           by rewrite Hsz', lookup_empty.
      * rewrite lookup_delete_ne, bool_decide_eq_false_2 by (done || (intros [??]; done)). done.
    + intros i c. cbn [fst tree].
      destruct (decide (i = room_index room)) as [->|Hi].
      * rewrite lookup_insert_eq, Ht. cbn [default from_option id].
        destruct (decide (c = room_collection room)) as [->|Hc].
        -- rewrite bool_decide_eq_true_2, Hcs, lookup_delete_eq by done.
           cbn. by rewrite Hsz.
        -- rewrite bool_decide_eq_false_2 by (done || (intros [??]; done)).
           by rewrite lookup_delete_ne.
      * rewrite lookup_insert_ne, bool_decide_eq_false_2 by (done || (intros [??]; done)). done.
  - intros i c. cbn [fst tree].
    destruct (decide (i = room_index room)) as [->|Hi].
    + rewrite lookup_insert_eq, Ht. cbn [default from_option id].
      destruct (decide (c = room_collection room)) as [->|Hc].
      * by rewrite bool_decide_eq_true_2, Hcs, lookup_insert_eq by done.
      * rewrite bool_decide_eq_false_2 by (done || (intros [??]; done)).
        by rewrite lookup_insert_ne.
    + rewrite lookup_insert_ne, bool_decide_eq_false_2 by (done || (intros [??]; done)). done.
Qed.

(** [setRoomCount] leaves every other room in the sets it was in. *)
Lemma in_tree_setRoomCount_other index collection roomId n r i c x :
  x ≠ roomId →
  in_tree (setRoomCount index collection roomId n r).1 i c x ↔ in_tree r i c x.
Proof.
  intros Hx. rewrite !in_tree_members.
  destruct (is_zero (parseInt10 n)) eqn:Hz.
  - unfold setRoomCount. rewrite Hz.
    destruct (flat r !! roomId) as [room|] eqn:Hroom.
    + rewrite (members_deleteRoomCount_any _ _ _ Hroom).
      case_bool_decide; set_solver.
    + unfold deleteRoomCount. by rewrite Hroom.
  - rewrite members_setRoomCount by done. case_bool_decide; set_solver.
Qed.

End MoreReplicaFacts.

(** ** kuzzle's rooms: [beforeJoin] and the room teardown *)
Section EngineFacts.

Context (interval : Z)
        (meanwhile : event → cluster * gmap string hotel_room
                     → cluster * gmap string hotel_room)
        (prototype : string → kuzzle → kuzzle).

(** A call with a positive [attempts] makes no call of [self]. *)
Lemma beforeJoin_body_positive {A}
    (self1 self2 : Request → (option error → Request → kuzzle → A) → nat → kuzzle → A)
    request cb attempts k :
  Engine.beforeJoin_body interval meanwhile self1 request cb (attempts + 1)%nat k
  = Engine.beforeJoin_body interval meanwhile self2 request cb (attempts + 1)%nat k.
Proof.
  rewrite Nat.add_1_r. unfold Engine.beforeJoin_body. cbv zeta.
  destruct (no_roomId request); [done |].
  destruct (Engine.rooms_has (body_roomId request) k); [done |].
  by destruct (body_roomId request).
Qed.

(** The definition of [beforeJoin] satisfies the recursive equation of the
    method. *)
Lemma beforeJoin_unfold {A} request (cb : option error → Request → kuzzle → A)
    attempts k :
  Engine.beforeJoin interval meanwhile request cb attempts k
  = Engine.beforeJoin_body interval meanwhile
      (Engine.beforeJoin interval meanwhile) request cb attempts k.
Proof.
  unfold Engine.beforeJoin at 1. unfold Engine.beforeJoin_body at 1 3. cbv zeta.
  destruct (no_roomId request); [done |].
  destruct (Engine.rooms_has (body_roomId request) k); [done |].
  assert (∀ k',
    Engine.beforeJoin_body interval meanwhile (λ request cb _ k, cb None request k)
      request cb (attempts + 1)%nat k'
    = Engine.beforeJoin interval meanwhile request cb (attempts + 1)%nat k') as Hself.
  { intros k'. unfold Engine.beforeJoin. apply beforeJoin_body_positive. }
  destruct (body_roomId request);
    try (by destruct (0 <? attempts)%nat).
  destruct (KuzzleCluster.flat_get _ _); [done |].
  by destruct (0 <? attempts)%nat.
Qed.

(** A call with a positive [attempts] looks once and calls back. *)
Lemma beforeJoin_body_last {A}
    (self : Request → (option error → Request → kuzzle → A) → nat → kuzzle → A)
    request cb attempts k :
  Engine.beforeJoin_body interval meanwhile self request cb (S attempts) k
  = cb None request (settled request k).
Proof.
  unfold Engine.beforeJoin_body, settled. cbv zeta.
  destruct (no_roomId request) eqn:Hno; [by destruct (body_roomId request) |].
  destruct (body_roomId request) as [| |b|n|roomId|o] eqn:Hid;
    cbn [Engine.rooms_has KuzzleCluster.flat_get orb]; try done.
  destruct (bool_decide (is_Some (hotelClerk_rooms k !! roomId))); [done |].
  by destruct (Replica.flat (_rooms (me (plugin k))) !! roomId).
Qed.

(** The first call of [beforeJoin], in one step: one timer when the room
    is unknown, then the look that settles it. *)
Lemma beforeJoin_settles {A} request (cb : option error → Request → kuzzle → A) k :
  Engine.beforeJoin interval meanwhile request cb 0 k
  = cb None request
      (settled request
         (if unknown_room request k then Engine.setTimeout meanwhile interval k
          else k)).
Proof.
  unfold Engine.beforeJoin, unknown_room.
  unfold Engine.beforeJoin_body at 1. cbv zeta.
  change (0 + 1)%nat with 1%nat. rewrite beforeJoin_body_last.
  set (retry := settled request (Engine.setTimeout meanwhile interval k)).
  unfold settled.
  destruct (no_roomId request) eqn:Hno; [by destruct (body_roomId request) |].
  destruct (body_roomId request) as [| |b|n|roomId|o] eqn:Hid;
    cbn [Engine.rooms_has KuzzleCluster.flat_get orb negb andb];
    try (subst retry; unfold settled; by rewrite Hid).
  destruct (bool_decide (is_Some (hotelClerk_rooms k !! roomId))) eqn:Hhas;
    cbn [negb andb]; [by rewrite Hhas |].
  destruct (Replica.flat (_rooms (me (plugin k))) !! roomId) eqn:Hflat;
    [by rewrite Hhas, Hflat |].
  subst retry. unfold settled. by rewrite Hid, Hno.
Qed.

(** What the look that settles a request does to kuzzle. *)
Lemma settled_spec request k :
  plugin (settled request k) = plugin k
  ∧ ∀ id,
      hotelClerk_rooms (settled request k) !! id = hotelClerk_rooms k !! id
      ∨ (hotelClerk_rooms k !! id = None
         ∧ body_roomId request = VString id
         ∧ ∃ room,
             Replica.flat (_rooms (me (plugin k))) !! id = Some room
             ∧ hotelClerk_rooms (settled request k) !! id = Some (shell id room)).
Proof.
  unfold settled.
  destruct (body_roomId request) as [| |b|n|roomId|o]; try (split; [done | by left]).
  destruct (no_roomId request); cbn; [split; [done | by left] |].
  case_bool_decide as Hhas; [split; [done | by left] |].
  destruct (Replica.flat _ !! roomId) as [room|] eqn:Hflat; [| split; [done | by left]].
  split; [done |]. intros id. cbn.
  destruct (decide (id = roomId)) as [->|Hne].
  - right. rewrite lookup_insert_eq.
    split; [by apply eq_None_not_Some |]. split; [done |]. by exists room.
  - left. by apply lookup_insert_ne.
Qed.

(** X6.  [beforeJoin (request, cb)] calls [cb] once, with [null] and the
    request it was given, at once or after one timer and never after two;
    it leaves the cluster object and its replica as they are, overwrites
    no room of the hotel clerk, and the one room it may add is the room
    the request names, as the replica has it, with no customer and no
    channel. *)
Theorem beforeJoin_calls_back request k :
  ∃ k0 k',
    (k0 = k ∨ k0 = Engine.setTimeout meanwhile interval k)
    ∧ plugin k' = plugin k0
    ∧ (∀ id,
         hotelClerk_rooms k' !! id = hotelClerk_rooms k0 !! id
         ∨ (hotelClerk_rooms k0 !! id = None
            ∧ body_roomId request = VString id
            ∧ ∃ room,
                Replica.flat (_rooms (me (plugin k0))) !! id = Some room
                ∧ hotelClerk_rooms k' !! id = Some (shell id room)))
    ∧ ∀ A (cb : option error → Request → kuzzle → A),
        Engine.beforeJoin interval meanwhile request cb 0 k = cb None request k'.
Proof.
  set (k0 := if unknown_room request k then Engine.setTimeout meanwhile interval k
             else k).
  exists k0, (settled request k0).
  split; [unfold k0; destruct (unknown_room request k); [by right | by left] |].
  destruct (settled_spec request k0) as [Hplugin Hrooms].
  split; [done |]. split; [done |].
  intros A cb. apply beforeJoin_settles.
Qed.

(** X7.  When the replica holds the room a request names, [beforeJoin]
    calls back without a timer, and the hotel clerk then has the room: the
    one it had, or else a shell with the index and collection of the
    replica. *)
Theorem beforeJoin_known_room request id room k :
  body_roomId request = VString id → id ≠ "" →
  Replica.flat (_rooms (me (plugin k))) !! id = Some room →
  ∃ k',
    (∀ A (cb : option error → Request → kuzzle → A),
       Engine.beforeJoin interval meanwhile request cb 0 k = cb None request k')
    ∧ plugin k' = plugin k
    ∧ hotelClerk_rooms k'
      = match hotelClerk_rooms k !! id with
        | Some _ => hotelClerk_rooms k
        | None => <[id := shell id room]> (hotelClerk_rooms k)
        end.
Proof.
  intros Hid Hne Hroom.
  assert (unknown_room request k = false) as Hknown.
  { unfold unknown_room. rewrite Hid. cbn. rewrite Hroom.
    by rewrite andb_false_r. }
  assert (no_roomId request = false) as Hno.
  { unfold no_roomId. rewrite Hid. cbn.
    destruct (input_body request) eqn:Hbody;
      try (by unfold body_roomId in Hid; rewrite Hbody in Hid).
    cbn. by destruct (String.eqb_spec id ""). }
  exists (settled request k). split.
  { intros A cb. by rewrite beforeJoin_settles, Hknown. }
  unfold settled. rewrite Hid, Hno, Hroom. cbn.
  case_bool_decide as Hhas.
  - destruct Hhas as [h Hh]. by rewrite Hh.
  - rewrite <- ?eq_None_not_Some in Hhas. by rewrite Hhas.
Qed.

(** X8.  When neither the hotel clerk nor the replica holds the room a
    request names, [beforeJoin] sets one timer of [joinAttemptInterval] and
    looks once more when it fires: a room the replica has by then is made a
    shell of, unless the hotel clerk has it by then; otherwise [cb] is
    called all the same. *)
Theorem beforeJoin_retries_once request id k :
  body_roomId request = VString id → id ≠ "" →
  hotelClerk_rooms k !! id = None →
  Replica.flat (_rooms (me (plugin k))) !! id = None →
  let k1 := Engine.setTimeout meanwhile interval k in
  ∃ k',
    (∀ A (cb : option error → Request → kuzzle → A),
       Engine.beforeJoin interval meanwhile request cb 0 k = cb None request k')
    ∧ trace (plugin k') = trace (plugin k) ++ [Delay interval]
    ∧ me (plugin k') = me (plugin k1)
    ∧ hotelClerk_rooms k'
      = match hotelClerk_rooms k1 !! id,
              Replica.flat (_rooms (me (plugin k1))) !! id with
        | None, Some room => <[id := shell id room]> (hotelClerk_rooms k1)
        | _, _ => hotelClerk_rooms k1
        end.
Proof.
  intros Hid Hne Hlocal Hreplica k1.
  assert (no_roomId request = false) as Hno.
  { unfold no_roomId. rewrite Hid. cbn.
    destruct (input_body request) eqn:Hbody;
      try (by unfold body_roomId in Hid; rewrite Hbody in Hid).
    cbn. by destruct (String.eqb_spec id ""). }
  assert (unknown_room request k = true) as Hunknown.
  { unfold unknown_room. rewrite Hno, Hid. cbn. by rewrite Hlocal, Hreplica. }
  exists (settled request k1). split.
  { intros A cb. by rewrite beforeJoin_settles, Hunknown. }
  destruct (settled_spec request k1) as [-> _].
  split; [done |]. split; [done |].
  unfold settled. rewrite Hid, Hno. cbn.
  case_bool_decide as Hhas.
  - destruct Hhas as [h Hh]. by rewrite Hh.
  - rewrite <- ?eq_None_not_Some in Hhas. rewrite ?Hhas.
    clear Hreplica. destruct (Replica.flat _ !! id); reflexivity.
Qed.

(** X9.  The room teardown follows the count.  Once
    [setRoomCount (index, collection, id, n)] has run, the function
    installed as [hotelClerk._removeRoomFromRealtimeEngine] keeps room [id]
    when [n] is greater than one, writing a log line and nothing else, and
    hands the room to kuzzle's own teardown for every other [n], zero and
    [NaN] among them. *)
Theorem room_teardown_follows_count index collection id n k :
  let r := Replica.setRoomCount index collection id n (_rooms (me (plugin k))) in
  let k1 := with_replica r.1 k in
  Engine._removeRoomFromRealtimeEngine prototype id k1
  = if greater_than_one (parseInt10 n)
    then
      Engine.console_debug
        "[hotelClerk._removeRoomFromRealtimeEngine] do not delete room %s"
        [VString id] k1
    else
      prototype id
        (Engine.console_debug
           "[hotelClerk._removeRoomFromRealtimeEngine] delete room %s"
           [VString id] k1).
Proof.
  intros r k1. unfold Engine._removeRoomFromRealtimeEngine.
  assert (Replica.flat (_rooms (me (plugin k1))) = Replica.flat r.1) as ->.
  { by destruct k as [[[] ?] ?]. }
  unfold r. destruct (is_zero (parseInt10 n)) eqn:Hz.
  - unfold Replica.setRoomCount. rewrite Hz, flat_deleteRoomCount, lookup_delete_eq.
    destruct n as [|z]; [done |]. by destruct z.
  - by rewrite flat_setRoomCount, lookup_insert_eq.
Qed.

End EngineFacts.

Lemma beforeJoin_known_room_witness :
  ∃ k',
    (∀ A (cb : option error → Request → kuzzle → A),
       Engine.beforeJoin 100 quiet (join_request "room-1") cb 0 a_kuzzle
       = cb None (join_request "room-1") k')
    ∧ plugin k' = plugin a_kuzzle
    ∧ hotelClerk_rooms k'
      = match hotelClerk_rooms a_kuzzle !! "room-1" with
        | Some _ => hotelClerk_rooms a_kuzzle
        | None =>
          <["room-1" := shell "room-1" (Replica.Room "nyc" "taxi" (Num 2))]>
            (hotelClerk_rooms a_kuzzle)
        end.
Proof.
  apply (beforeJoin_known_room 100 quiet (join_request "room-1") "room-1"
           (Replica.Room "nyc" "taxi" (Num 2)) a_kuzzle).
  - reflexivity.
  - discriminate.
  - reflexivity.
Defined.

Lemma beforeJoin_retries_once_witness :
  let k1 := Engine.setTimeout room_arrives 100 a_kuzzle in
  ∃ k',
    (∀ A (cb : option error → Request → kuzzle → A),
       Engine.beforeJoin 100 room_arrives (join_request "room-9") cb 0 a_kuzzle
       = cb None (join_request "room-9") k')
    ∧ trace (plugin k') = trace (plugin a_kuzzle) ++ [Delay 100]
    ∧ me (plugin k') = me (plugin k1)
    ∧ hotelClerk_rooms k'
      = match hotelClerk_rooms k1 !! "room-9",
              Replica.flat (_rooms (me (plugin k1))) !! "room-9" with
        | None, Some room => <["room-9" := shell "room-9" room]> (hotelClerk_rooms k1)
        | _, _ => hotelClerk_rooms k1
        end.
Proof.
  apply (beforeJoin_retries_once 100 room_arrives (join_request "room-9") "room-9"
           a_kuzzle).
  - reflexivity.
  - discriminate.
  - reflexivity.
  - reflexivity.
Defined.

(** ** The pipes, from the first log line to the settled promise *)
Section PipeFacts.
Import KuzzleCluster.

Context (JSON_stringify : value → string)
        (coordinator : command → result reply)
        (publish : string → value → result unit)
        (state_reset : result unit)
        (meanwhile : event → cluster → cluster).

Local Ltac run_steps :=
  unfold mbind, M_bind, mret, M_ret, this, debug, emit, modify; cbn.

(** What [subscriptionAdded] does on a ready node, whatever the
    coordinator answers. *)
Lemma subscriptionAdded_run diff w :
  node_ready (me w) = true →
  let index := diff_index diff in
  let collection := diff_collection diff in
  let roomId := diff_roomId diff in
  let cmd1 := subOn_of JSON_stringify (me w) diff in
  let cmd2 := register_of diff in
  let c1 := meanwhile (Redis cmd1) (me w) in
  let c2 := meanwhile (Redis cmd2) c1 in
  let unlock c := set_locks_create (locks_create c ∖ {[ roomId ]}) c in
  let t0 := trace w ++ [ Debug "[hook] sub add %s/%s"
                           [VString roomId; VString (diff_connectionId diff)] ] in
  invoke (subscriptionAdded JSON_stringify coordinator publish meanwhile diff) w
  = match coordinator cmd1 with
    | Err e => (World (unlock c1) (t0 ++ [Redis cmd1]), Rejected e)
    | Ok r =>
      match coordinator cmd2 with
      | Err e => (World (unlock c2) (t0 ++ [Redis cmd1; Redis cmd2]), Rejected e)
      | Ok _ =>
        match r with
        | VersionCount version count =>
          match guarded c2 index collection roomId version count with
          | (rs, Ok _) =>
            (World (unlock (set_rooms rs c2))
               (t0 ++ [ Redis cmd1; Redis cmd2;
                        Debug "[hook][sub %s] v%d %s/%s/%s = %d"
                          [ VString "add"; VNumber (Num version); VString index;
                            VString collection; VString roomId; VNumber count ];
                        Broadcast "cluster:sync"
                          (state_event index collection roomId "add") ]),
             match publish "cluster:sync"
                     (state_event index collection roomId "add") with
             | Ok _ => Fulfilled diff
             | Err e => Rejected e
             end)
          | (rs, Err e) =>
            (World (unlock (set_rooms rs c2)) (t0 ++ [Redis cmd1; Redis cmd2]),
             Rejected e)
          end
        | _ =>
          (World (unlock c2) (t0 ++ [Redis cmd1; Redis cmd2]),
           Rejected (TypeError "result is not iterable"))
        end
      end
    end.
Proof.
  intros Hready index collection roomId cmd1 cmd2 c1 c2 unlock t0.
  unfold invoke, subscriptionAdded, mbind at 1, M_bind at 1, this. cbn.
  rewrite Hready. cbn.
  unfold mbind at 1, M_bind at 1, debug, emit. cbn. fold t0.
  unfold finally, mbind at 1, M_bind at 1, redis at 1, await. cbn.
  change (ClusterSubOn _ _ _ _ _) with cmd1. fold c1.
  destruct (coordinator cmd1) as [r|e]; [| done].
  unfold mbind at 1, M_bind at 1, mbind at 1, M_bind at 1, redis, await. cbn.
  change (Sadd _ _) with cmd2. fold c2.
  destruct (coordinator cmd2) as [r2|e]; [| by rewrite <- app_assoc].
  destruct r as [z|version count|].
  - unfold _onSubOn, destructure, mbind, M_bind, throw. cbn.
    by rewrite <- app_assoc.
  - rewrite _onSubOn_run. cbn [me trace].
    fold index collection roomId.
    destruct (guarded c2 index collection roomId version count) as [rs [[]|e]]; cbn.
    + do 2 rewrite <- app_assoc. cbn.
      by destruct (publish "cluster:sync" _) as [[]|e].
    + by rewrite <- app_assoc.
  - unfold _onSubOn, destructure, mbind, M_bind, throw. cbn.
    by rewrite <- app_assoc.
Qed.

(** What [subscriptionOff] does on a ready node, whatever the coordinator
    answers. *)
Lemma subscriptionOff_all object w :
  node_ready (me w) = true →
  let index := removal_index object in
  let collection := removal_collection object in
  let cmd := subOff_of (me w) object in
  let c1 := meanwhile (Redis cmd) (me w) in
  let unlock c := set_locks_delete (locks_delete c ∖ {[ room_id object ]}) c in
  let t0 := trace w ++ [ Debug "[hook] sub off %s/%s"
                           [ VString (room_id object);
                             VString (requestContext_connectionId object) ] ] in
  invoke (subscriptionOff coordinator publish meanwhile object) w
  = match coordinator cmd with
    | Err e => (World (unlock c1) (t0 ++ [Redis cmd]), Rejected e)
    | Ok (VersionCount version count) =>
      match guarded c1 index collection (room_id object) version count with
      | (rs, Ok _) =>
        (World (unlock (set_rooms rs c1))
           (t0 ++ [ Redis cmd;
                    Debug "[hook][sub off] v%d %s/%s/%s -%s = %d"
                      [ VNumber (Num version); VString index; VString collection;
                        VString (room_id object);
                        VString (requestContext_connectionId object);
                        VNumber count ];
                    Broadcast "cluster:sync"
                      (state_event index collection (room_id object) "off") ]),
         match publish "cluster:sync"
                 (state_event index collection (room_id object) "off") with
         | Ok _ => Fulfilled object
         | Err e => Rejected e
         end)
      | (rs, Err e) =>
        (World (unlock (set_rooms rs c1)) (t0 ++ [Redis cmd]), Rejected e)
      end
    | Ok _ =>
      (World (unlock c1) (t0 ++ [Redis cmd]),
       Rejected (TypeError "result is not iterable"))
    end.
Proof.
  intros Hready index collection cmd c1 unlock t0.
  unfold invoke, subscriptionOff, mbind at 1, M_bind at 1, this. cbn.
  rewrite Hready. cbn.
  unfold mbind at 1, M_bind at 1, debug, emit. cbn.
  unfold finally, mbind at 1, M_bind at 1, redis at 1, await. cbn.
  change (ClusterSubOff _ _ _ _) with cmd. fold c1.
  destruct (coordinator cmd) as [r|e]; [| done].
  destruct r as [z|version count|]; [done | | done].
  unfold destructure, guarded. run_steps. fold index collection.
  destruct (getVersion c1 index collection <? version).
  - unfold setRoomCount. cbn.
    destruct (Replica.setRoomCount index collection (room_id object) count (_rooms c1))
      as [rs [[]|e]]; cbn; [| done].
    unfold node_broadcast. cbn. do 2 rewrite <- app_assoc. cbn.
    by destruct (publish "cluster:sync" _) as [[]|e].
  - cbn. unfold node_broadcast. cbn. do 2 rewrite <- app_assoc. cbn.
    assert (set_rooms (_rooms c1) c1 = c1) as -> by by destruct c1.
    by destruct (publish "cluster:sync" _) as [[]|e].
Qed.

(** X10.  On a node that is not ready, the three pipes resolve at once
    with the payload they were given: each writes one log line, sends no
    command, broadcasts nothing and leaves the cluster object, its replica
    and its locks as they are. *)
Theorem pipes_resolve_when_not_ready diff object w :
  node_ready (me w) = false →
  ∃ l1 l2 l3,
    only_logs [l1; l2; l3]
    ∧ invoke (subscriptionAdded JSON_stringify coordinator publish meanwhile diff) w
      = (World (me w) (trace w ++ [l1]), Fulfilled diff)
    ∧ invoke (subscriptionJoined coordinator publish meanwhile diff) w
      = (World (me w) (trace w ++ [l2]), Fulfilled diff)
    ∧ invoke (subscriptionOff coordinator publish meanwhile object) w
      = (World (me w) (trace w ++ [l3]), Fulfilled object).
Proof.
  intros Hready.
  unfold invoke, subscriptionAdded, subscriptionJoined, subscriptionOff.
  run_steps. rewrite Hready. cbn.
  eexists _, _, _. split; [| by repeat split].
  by repeat constructor.
Qed.

(** X11.  [subscriptionAdded] on a ready node, when the subOn script
    answers [[version, count]] and the collection is registered: the two
    commands are sent in that order and no other, the script carrying the
    serialized filter, or 'none' for a subscription without filters; the
    replica is what the version guard makes of it, read after both answers;
    and, [setRoomCount] having returned, one state event with post 'add' is
    broadcast and the promise settles as the broadcast completed. *)
Theorem subscriptionAdded_registers diff version count registered w :
  node_ready (me w) = true →
  let index := diff_index diff in
  let collection := diff_collection diff in
  let roomId := diff_roomId diff in
  let cmd1 := subOn_of JSON_stringify (me w) diff in
  let cmd2 := register_of diff in
  let c2 := meanwhile (Redis cmd2) (meanwhile (Redis cmd1) (me w)) in
  let run := invoke (subscriptionAdded JSON_stringify coordinator publish
                       meanwhile diff) w in
  coordinator cmd1 = Ok (VersionCount version count) →
  coordinator cmd2 = Ok registered →
  coordinator_writes (trace run.1) = coordinator_writes (trace w) ++ [cmd1; cmd2]
  ∧ _rooms (me run.1) = (guarded c2 index collection roomId version count).1
  ∧ ((guarded c2 index collection roomId version count).2 = Ok () →
     broadcasts (trace run.1)
     = broadcasts (trace w)
       ++ [("cluster:sync", state_event index collection roomId "add")]
     ∧ run.2 = match publish "cluster:sync"
                       (state_event index collection roomId "add") with
               | Ok _ => Fulfilled diff
               | Err e => Rejected e
               end).
Proof.
  intros Hready index collection roomId cmd1 cmd2 c2 run Hsub Hreg.
  subst run. rewrite (subscriptionAdded_run diff w Hready).
  fold index collection roomId cmd1 cmd2. rewrite Hsub, Hreg. fold c2.
  destruct (guarded c2 index collection roomId version count) as [rs [[]|e]];
    cbn [fst snd me trace].
  - unfold coordinator_writes, broadcasts. rewrite !omap_app. cbn.
    rewrite ?app_nil_r. by destruct c2.
  - unfold coordinator_writes. rewrite !omap_app. cbn. rewrite ?app_nil_r.
    split; [done |]. split; [by destruct c2 | done].
Qed.

(** X12.  [subscriptionAdded] on a ready node, when the coordinator store
    fails: if the subOn script is rejected the collection is not
    registered; if the script has run and the registration is rejected, the
    subscription is counted in the store and the replica is not updated all
    the same.  Either way the promise is rejected with the store's error,
    nothing is broadcast and this handler leaves the replica as it is. *)
Theorem subscriptionAdded_store_failure diff e w :
  node_ready (me w) = true →
  let cmd1 := subOn_of JSON_stringify (me w) diff in
  let cmd2 := register_of diff in
  let c1 := meanwhile (Redis cmd1) (me w) in
  let c2 := meanwhile (Redis cmd2) c1 in
  let run := invoke (subscriptionAdded JSON_stringify coordinator publish
                       meanwhile diff) w in
  (coordinator cmd1 = Err e →
   run.2 = Rejected e
   ∧ coordinator_writes (trace run.1) = coordinator_writes (trace w) ++ [cmd1]
   ∧ broadcasts (trace run.1) = broadcasts (trace w)
   ∧ _rooms (me run.1) = _rooms c1)
  ∧ (∀ answer, coordinator cmd1 = Ok answer → coordinator cmd2 = Err e →
     run.2 = Rejected e
     ∧ coordinator_writes (trace run.1) = coordinator_writes (trace w) ++ [cmd1; cmd2]
     ∧ broadcasts (trace run.1) = broadcasts (trace w)
     ∧ _rooms (me run.1) = _rooms c2).
Proof.
  intros Hready cmd1 cmd2 c1 c2 run.
  subst run. rewrite (subscriptionAdded_run diff w Hready).
  fold cmd1 cmd2 c1 c2. split.
  - intros ->. cbn [fst snd me trace].
    unfold coordinator_writes, broadcasts. rewrite !omap_app. cbn.
    by rewrite ?app_nil_r.
  - intros answer -> ->. cbn [fst snd me trace].
    unfold coordinator_writes, broadcasts. rewrite !omap_app. cbn.
    by rewrite ?app_nil_r.
Qed.

(** X13.  [subscriptionOff] on a ready node sends the subOff script and no
    other command.  When the script is rejected the promise is rejected
    with its error, nothing is broadcast and the replica is left as it is;
    when it answers [[version, count]] and [setRoomCount] returns, one
    state event with post 'off' is broadcast and the promise settles as the
    broadcast completed. *)
Theorem subscriptionOff_steps object w :
  node_ready (me w) = true →
  let index := removal_index object in
  let collection := removal_collection object in
  let cmd := subOff_of (me w) object in
  let c1 := meanwhile (Redis cmd) (me w) in
  let run := invoke (subscriptionOff coordinator publish meanwhile object) w in
  coordinator_writes (trace run.1) = coordinator_writes (trace w) ++ [cmd]
  ∧ (∀ e, coordinator cmd = Err e →
       run.2 = Rejected e
       ∧ broadcasts (trace run.1) = broadcasts (trace w)
       ∧ _rooms (me run.1) = _rooms c1)
  ∧ (∀ version count,
       coordinator cmd = Ok (VersionCount version count) →
       (guarded c1 index collection (room_id object) version count).2 = Ok () →
       broadcasts (trace run.1)
       = broadcasts (trace w)
         ++ [("cluster:sync", state_event index collection (room_id object) "off")]
       ∧ run.2 = match publish "cluster:sync"
                         (state_event index collection (room_id object) "off") with
                 | Ok _ => Fulfilled object
                 | Err e => Rejected e
                 end).
Proof.
  intros Hready index collection cmd c1 run.
  subst run. rewrite (subscriptionOff_all object w Hready).
  fold index collection cmd c1.
  split; [| split].
  - destruct (coordinator cmd) as [[z|version count|]|e]; cbn [fst snd me trace];
      try (unfold coordinator_writes; rewrite !omap_app; cbn;
           by rewrite ?app_nil_r).
    destruct (guarded c1 index collection (room_id object) version count)
      as [rs [[]|e]]; cbn [fst snd me trace];
      unfold coordinator_writes; rewrite !omap_app; cbn; by rewrite ?app_nil_r.
  - intros e ->. cbn [fst snd me trace].
    unfold broadcasts. rewrite !omap_app. cbn. by rewrite ?app_nil_r.
  - intros version count -> Hret.
    destruct (guarded c1 index collection (room_id object) version count)
      as [rs [[]|e]]; [| done].
    cbn [fst snd me trace].
    unfold broadcasts. rewrite !omap_app. cbn. by rewrite ?app_nil_r.
Qed.

(** The cluster object [subscriptionJoined] leaves: the one it found, or
    the one the version guard makes of the coordinator's answer. *)
Lemma subscriptionJoined_me diff w :
  let cmd := ClusterSubOn (tag_of (diff_index diff) (diff_collection diff))
               (uuid (me w)) (diff_roomId diff) (diff_connectionId diff) "none" in
  let c1 := meanwhile (Redis cmd) (me w) in
  let left := me (invoke (subscriptionJoined coordinator publish meanwhile diff) w).1 in
  left = me w ∨ left = c1
  ∨ ∃ version count,
      left = set_rooms (guarded c1 (diff_index diff) (diff_collection diff)
                          (diff_roomId diff) version count).1 c1.
Proof.
  intros cmd c1 left. subst left.
  set (run := invoke (subscriptionJoined coordinator publish meanwhile diff) w).
  assert (run = invoke (subscriptionJoined coordinator publish meanwhile diff) w)
    as Hrun by done.
  clearbody run. revert Hrun.
  unfold invoke, subscriptionJoined, mbind at 1, M_bind at 1, this. cbn.
  destruct (node_ready (me w)); cbn; [| by intros ->; left].
  assert (diff_changed diff = VBool false ∨ diff_changed diff ≠ VBool false)
    as [-> | Hchanged]
    by (destruct (diff_changed diff) as [| |[]| | |]; (by left) || (by right));
    [by intros ->; left |].
  assert (∀ (A : Type) (x y : A),
    match diff_changed diff with VBool false => x | _ => y end = y) as Hm.
  { intros A x y. destruct (diff_changed diff) as [| |[]| | |]; done. }
  rewrite Hm. cbn.
  unfold mbind at 1, M_bind at 1, redis, await. cbn.
  fold cmd. fold c1.
  destruct (coordinator cmd) as [r|e]; [| by intros ->; right; left].
  unfold mbind at 1, M_bind at 1.
  destruct r as [z|version count|].
  - unfold _onSubOn, destructure, mbind, M_bind, throw. cbn.
    by intros ->; right; left.
  - rewrite _onSubOn_run. cbn [me trace].
    intros ->. right; right. exists version, count.
    destruct (guarded c1 _ _ _ version count) as [rs [[]|e]]; cbn; [| done].
    by destruct (publish _ _).
  - unfold _onSubOn, destructure, mbind, M_bind, throw. cbn.
    by intros ->; right; left.
Qed.

Lemma sound_rooms path_of c c' :
  _rooms c' = _rooms c → sound path_of c → sound path_of c'.
Proof. unfold sound. by intros ->. Qed.

(** The version guard keeps a sound replica sound, and [setRoomCount]
    returns, when the room is on its path. *)
Lemma sound_guarded path_of c index collection roomId version count :
  sound path_of c →
  path_of roomId = (index, collection) →
  sound path_of (set_rooms (guarded c index collection roomId version count).1 c)
  ∧ (guarded c index collection roomId version count).2 = Ok ().
Proof.
  intros [Hinv Hpath] Hid. unfold guarded.
  destruct (getVersion c index collection <? version); [| by destruct c].
  destruct (replica_inv_perform
              (Replica.SetRoomCount index collection roomId count) (_rooms c) Hinv)
    as [Hret Hinv'].
  { cbn. destruct (is_zero (parseInt10 count)); [done |].
    destruct (Replica.flat (_rooms c) !! roomId) as [room|] eqn:Hroom; [| done].
    specialize (Hpath _ _ Hroom). rewrite Hid in Hpath.
    injection Hpath as -> ->. by rewrite !bool_decide_eq_true_2. }
  cbn in Hret, Hinv'. split; [| done].
  split; [by destruct c |].
  assert (_rooms (set_rooms (Replica.setRoomCount index collection roomId count
                               (_rooms c)).1 c)
          = (Replica.setRoomCount index collection roomId count (_rooms c)).1)
    as -> by by destruct c.
  intros x room. destruct (is_zero (parseInt10 count)) eqn:Hz.
  - unfold Replica.setRoomCount. rewrite Hz, flat_deleteRoomCount.
    intros [_ Hx]%lookup_delete_Some. by apply Hpath.
  - rewrite flat_setRoomCount by done.
    intros [[<- <-] | [_ Hx]]%lookup_insert_Some; [done | by apply Hpath].
Qed.

(** X24.  The pipes keep the replica sound.  Room ids are fingerprints,
    each of one index and collection.  If the replica satisfies the
    invariant and holds every room on the path of its id, and the handlers
    that run while a pipe waits keep it so, then it is so once
    [subscriptionAdded], [subscriptionJoined] or [subscriptionOff] has
    settled, whatever the coordinator answered, on a payload whose room id
    is one of its index and collection. *)
Theorem pipes_keep_replica_sound (path_of : string → string * string) w :
  (∀ e c, sound path_of c → sound path_of (meanwhile e c)) →
  sound path_of (me w) →
  (∀ diff,
     path_of (diff_roomId diff) = (diff_index diff, diff_collection diff) →
     sound path_of
       (me (invoke (subscriptionAdded JSON_stringify coordinator publish
                      meanwhile diff) w).1)
     ∧ sound path_of
         (me (invoke (subscriptionJoined coordinator publish meanwhile diff) w).1))
  ∧ (∀ object,
       path_of (room_id object) = (removal_index object, removal_collection object) →
       sound path_of
         (me (invoke (subscriptionOff coordinator publish meanwhile object) w).1)).
Proof.
  intros Hmeanwhile Hw. split.
  - intros diff Hid. split.
    + destruct (node_ready (me w)) eqn:Hready.
      * rewrite (subscriptionAdded_run diff w Hready).
        set (c1 := meanwhile (Redis (subOn_of JSON_stringify (me w) diff)) (me w)).
        set (c2 := meanwhile (Redis (register_of diff)) c1).
        assert (sound path_of c1) as Hc1 by by apply Hmeanwhile.
        assert (sound path_of c2) as Hc2 by by apply Hmeanwhile.
        destruct (coordinator (subOn_of _ _ _)) as [r|e];
          [| by apply (sound_rooms path_of c1)].
        destruct (coordinator (register_of _)) as [r2|e];
          [| by apply (sound_rooms path_of c2)].
        destruct r as [z|version count|]; try by apply (sound_rooms path_of c2).
        destruct (sound_guarded path_of c2 _ _ _ version count Hc2 Hid) as [Hg _].
        destruct (guarded c2 _ _ _ version count) as [rs [[]|e]];
          by apply (sound_rooms path_of (set_rooms rs c2)).
      * unfold invoke, subscriptionAdded. run_steps. by rewrite Hready.
    + destruct (subscriptionJoined_me diff w) as [-> | [-> | (version & count & ->)]];
        [done | by apply Hmeanwhile |].
      apply sound_guarded; [by apply Hmeanwhile | done].
  - intros object Hid.
    destruct (node_ready (me w)) eqn:Hready.
    + rewrite (subscriptionOff_all object w Hready).
      set (c1 := meanwhile (Redis (subOff_of (me w) object)) (me w)).
      assert (sound path_of c1) as Hc1 by by apply Hmeanwhile.
      destruct (coordinator (subOff_of _ _)) as [[z|version count|]|e];
        try by apply (sound_rooms path_of c1).
      destruct (sound_guarded path_of c1 _ _ _ version count Hc1 Hid) as [Hg _].
      destruct (guarded c1 _ _ _ version count) as [rs [[]|e]];
        by apply (sound_rooms path_of (set_rooms rs c1)).
    + unfold invoke, subscriptionOff. run_steps. by rewrite Hready.
Qed.

(** [deleteRoomCount] takes the room out of the set of the path [flat]
    has for it, whether it returns or throws. *)
Lemma deleteRoomCount_leaves_path roomId room r :
  Replica.flat r !! roomId = Some room →
  ¬ Replica.in_tree (Replica.deleteRoomCount roomId r).1
      (Replica.room_index room) (Replica.room_collection room) roomId.
Proof.
  intros Hroom (cols & rms & Hcols & Hrms & Hin). revert Hcols.
  unfold Replica.deleteRoomCount. rewrite Hroom.
  destruct (Replica.tree r !! Replica.room_index room) as [cols0|] eqn:Ht;
    cbn [fst Replica.tree]; [| by rewrite Ht].
  destruct (cols0 !! Replica.room_collection room) as [rms0|] eqn:Hc;
    cbn [fst Replica.tree].
  - repeat case_bool_decide; cbn [fst Replica.tree].
    + by rewrite lookup_delete_eq.
    + rewrite lookup_insert_eq. intros [= <-].
      by rewrite lookup_delete_eq in Hrms.
    + rewrite lookup_insert_eq. intros [= <-].
      rewrite lookup_insert_eq in Hrms. injection Hrms as <-. set_solver.
  - rewrite Ht. intros [= <-]. congruence.
Qed.

(** [setRoomCount] applies the count. *)
Lemma applied_setRoomCount index collection roomId count r :
  applied index collection roomId count r
    (Replica.setRoomCount index collection roomId count r).1.
Proof.
  unfold applied.
  assert (∀ i c x, x ≠ roomId →
    Replica.in_tree (Replica.setRoomCount index collection roomId count r).1 i c x
    ↔ Replica.in_tree r i c x) as Hother.
  { intros i c x Hx. by apply in_tree_setRoomCount_other. }
  destruct (is_zero (parseInt10 count)) eqn:Hz.
  - split; [| split; [done | split; [| done]]].
    + unfold Replica.setRoomCount. rewrite Hz. apply flat_deleteRoomCount.
    + intros _ room Hroom. unfold Replica.setRoomCount. rewrite Hz.
      by apply deleteRoomCount_leaves_path.
  - split; [by apply flat_setRoomCount |]. split; [| done]. intros _.
    apply in_tree_members. rewrite members_setRoomCount by done.
    rewrite bool_decide_eq_true_2 by done. set_solver.
Qed.

(** What the version guard makes of a result, in terms of the replica. *)
Lemma guarded_applied c index collection roomId version count :
  if getVersion c index collection <? version
  then applied index collection roomId count (_rooms c)
         (guarded c index collection roomId version count).1
  else (guarded c index collection roomId version count).1 = _rooms c.
Proof.
  unfold guarded. destruct (getVersion c index collection <? version); [| done].
  apply applied_setRoomCount.
Qed.

(** C2, as the code has it.  Version guard.  A result [[version, count]]
    of the subOn script reaches [_onSubOn] at once in [subscriptionJoined],
    and in [subscriptionAdded] once the collection has been registered; a
    result of the subOff script reaches the callback of [subscriptionOff].
    There, when the version stored for the index and collection, read at
    that moment, is strictly less than the returned version, the returned
    count is applied: [flat] holds the room under the index and collection
    with that count and the tree has it on that path, or, the count being
    zero, [flat] holds the room no more.  Otherwise the replica is left as
    it is. *)
Theorem version_guard :
  (∀ type index collection roomId version count w,
     let after := _rooms (me (_onSubOn publish type index collection roomId
                                (VersionCount version count) w).1) in
     if getVersion (me w) index collection <? version
     then applied index collection roomId count (_rooms (me w)) after
     else after = _rooms (me w))
  ∧ (∀ diff version count w,
       node_ready (me w) = true →
       diff_changed diff ≠ VBool false →
       let c1 := meanwhile (Redis (join_of (me w) diff)) (me w) in
       let after := _rooms (me (invoke (subscriptionJoined coordinator publish
                                          meanwhile diff) w).1) in
       coordinator (join_of (me w) diff) = Ok (VersionCount version count) →
       if getVersion c1 (diff_index diff) (diff_collection diff) <? version
       then applied (diff_index diff) (diff_collection diff) (diff_roomId diff)
              count (_rooms c1) after
       else after = _rooms c1)
  ∧ (∀ diff version count registered w,
       node_ready (me w) = true →
       let cmd1 := subOn_of JSON_stringify (me w) diff in
       let cmd2 := register_of diff in
       let c2 := meanwhile (Redis cmd2) (meanwhile (Redis cmd1) (me w)) in
       let after := _rooms (me (invoke (subscriptionAdded JSON_stringify
                                          coordinator publish meanwhile diff) w).1) in
       coordinator cmd1 = Ok (VersionCount version count) →
       coordinator cmd2 = Ok registered →
       if getVersion c2 (diff_index diff) (diff_collection diff) <? version
       then applied (diff_index diff) (diff_collection diff) (diff_roomId diff)
              count (_rooms c2) after
       else after = _rooms c2)
  ∧ (∀ object version count w,
       node_ready (me w) = true →
       let c1 := meanwhile (Redis (subOff_of (me w) object)) (me w) in
       let after := _rooms (me (invoke (subscriptionOff coordinator publish
                                          meanwhile object) w).1) in
       coordinator (subOff_of (me w) object) = Ok (VersionCount version count) →
       if getVersion c1 (removal_index object) (removal_collection object) <? version
       then applied (removal_index object) (removal_collection object)
              (room_id object) count (_rooms c1) after
       else after = _rooms c1).
Proof.
  split; [| split; [| split]].
  - intros type index collection roomId version count w after.
    assert (after = (guarded (me w) index collection roomId version count).1) as ->.
    { subst after. rewrite _onSubOn_run.
      by destruct (guarded _ _ _ _ _ _) as [r [[]|e]]. }
    apply guarded_applied.
  - intros diff version count w Hready Hchanged c1 after Hreply.
    assert (after = (guarded c1 (diff_index diff) (diff_collection diff)
                       (diff_roomId diff) version count).1) as ->.
    { subst after.
      rewrite (subscriptionJoined_run coordinator publish meanwhile diff w version
                 count Hchanged Hready Hreply).
      fold (join_of (me w) diff). fold c1.
      by destruct (guarded _ _ _ _ _ _) as [r [[]|e]]. }
    apply guarded_applied.
  - intros diff version count registered w Hready cmd1 cmd2 c2 after Hsub Hreg.
    assert (after = (guarded c2 (diff_index diff) (diff_collection diff)
                       (diff_roomId diff) version count).1) as ->.
    { subst after. rewrite (subscriptionAdded_run diff w Hready).
      fold cmd1 cmd2. rewrite Hsub, Hreg. fold c2.
      by destruct (guarded _ _ _ _ _ _) as [r [[]|e]]. }
    apply guarded_applied.
  - intros object version count w Hready c1 after Hreply.
    assert (after = (guarded c1 (removal_index object) (removal_collection object)
                       (room_id object) version count).1) as ->.
    { subst after. rewrite (subscriptionOff_all object w Hready), Hreply. fold c1.
      by destruct (guarded _ _ _ _ _ _) as [r [[]|e]]. }
    apply guarded_applied.
Qed.

End PipeFacts.

(** ** Hooks on a ready node, the cleanup of a peer, the shutdown flag *)
Section HookFacts.
Import KuzzleCluster.

Context (JSON_stringify : value → string)
        (coordinator : command → result reply)
        (publish : string → value → result unit)
        (state_reset : result unit)
        (meanwhile : event → cluster → cluster)
        (tree_paths : gmap string (gmap string (gset string))
                      → list (string * string)).

(** X14.  On a ready node each of the nine guarded hooks makes one
    broadcast, on the topic of its kind, writes no log line, leaves the
    cluster object as it is and completes as the broadcast does; the two
    notification hooks send the data they were given.  The exception is a
    profile or role hook whose [diff] is [undefined] or [null]: reading
    [diff._id] throws a TypeError before anything is sent. *)
Theorem ready_hooks_broadcast_once (h : guarded_hook) w :
  node_ready (me w) = true →
  if reads_id_of_nothing h
  then ∃ msg, fire publish h w = (w, Err (TypeError msg))
  else
    ∃ payload,
      fire publish h w
      = (World (me w) (trace w ++ [Broadcast (topic_of h) payload]),
         publish (topic_of h) payload)
      ∧ ∀ data, h = NotifyDocument data ∨ h = NotifyUser data → payload = data.
Proof.
  intros Hready.
  destruct h as [payload|payload|data|data|diff|diff| |request|];
    unfold fire, indexCacheAdded, indexCacheRemoved, notifyDocument,
      notifyUser, profileUpdated, roleUpdated, refreshSpecifications, dump,
      shutdown, mbind, M_bind, this, node_broadcast; cbn; rewrite Hready; cbn;
    try (eexists; split; [reflexivity | by intros data' [[=]|[=]]]).
  - destruct diff; cbn; try (eexists; by destruct w);
      (eexists; split; [reflexivity | by intros data' [[=]|[=]]]).
  - destruct diff; cbn; try (eexists; by destruct w);
      (eexists; split; [reflexivity | by intros data' [[=]|[=]]]).
Qed.

(** The properties of [{...onto, ...props}]: those of [props], and those
    of [onto] that [props] does not have. *)
Lemma get_own_spread (props onto : Obj.obj value) k :
  NoDup (Obj.keys props) →
  Obj.get_own k (spread props onto)
  = match Obj.get_own k props with
    | Some v => Some v
    | None => Obj.get_own k onto
    end.
Proof.
  unfold spread. revert onto.
  induction props as [|[k0 v0] props IH]; intros onto Hnd; cbn; [done |].
  apply NoDup_cons in Hnd as [Hk0 Hnd]. cbn in Hk0.
  rewrite IH, get_own_set_own by done.
  destruct (String.eqb_spec k k0) as [->|Hne]; [| done].
  apply get_own_None in Hk0. by rewrite Hk0.
Qed.

(** X15.  What the index cache hooks broadcast on a ready node: every
    property of the payload with its value, and the property [event] with
    the hook's own name only when the payload has none, since the payload
    is spread after it. *)
Theorem indexCache_payload payload w :
  node_ready (me w) = true →
  NoDup (Obj.keys payload) →
  ∃ added removed,
    indexCacheAdded publish payload w
    = (World (me w) (trace w ++ [Broadcast "cluster:sync" (VObject added)]),
       publish "cluster:sync" (VObject added))
    ∧ indexCacheRemoved publish payload w
      = (World (me w) (trace w ++ [Broadcast "cluster:sync" (VObject removed)]),
         publish "cluster:sync" (VObject removed))
    ∧ ∀ k,
        match Obj.get_own k payload with
        | Some v => Obj.get_own k added = Some v ∧ Obj.get_own k removed = Some v
        | None =>
          if String.eqb k "event"
          then Obj.get_own k added = Some (VString "indexCache:add")
               ∧ Obj.get_own k removed = Some (VString "indexCache:remove")
          else Obj.get_own k added = None ∧ Obj.get_own k removed = None
        end.
Proof.
  intros Hready Hnd.
  unfold indexCacheAdded, indexCacheRemoved, mbind, M_bind, this, node_broadcast.
  cbn. rewrite Hready. cbn.
  eexists _, _. split; [reflexivity |]. split; [reflexivity |].
  intros k. rewrite !get_own_spread by done.
  destruct (Obj.get_own k payload); [done |]. cbn.
  by destruct (String.eqb k "event").
Qed.

(** The paths of a tree in key order are its paths, each once. *)
Lemma paths_by_key_spec (t : gmap string (gmap string (gset string))) :
  NoDup (paths_by_key t)
  ∧ ∀ index collection,
      (index, collection) ∈ paths_by_key t
      ↔ ∃ collections,
          t !! index = Some collections ∧ is_Some (collections !! collection).
Proof.
  unfold paths_by_key. split.
  - apply NoDup_bind; [| | apply NoDup_map_to_list].
    + intros [i1 cs1] [i2 cs2] [i c] H1%elem_of_map_to_list H2%elem_of_map_to_list.
      intros (c1 & Hc1 & _)%list_elem_of_bind (c2 & Hc2 & _)%list_elem_of_bind.
      apply list_elem_of_singleton in Hc1 as [= -> ->].
      apply list_elem_of_singleton in Hc2 as [= -> ->].
      congruence.
    + intros [i cs] _. apply NoDup_bind; [| | apply NoDup_fst_map_to_list].
      * intros c1 c2 y _ _ [= ->]%list_elem_of_singleton [= ->]%list_elem_of_singleton.
        done.
      * intros c _. apply NoDup_singleton.
  - intros index collection. rewrite list_elem_of_bind. split.
    + intros ([i cs] & (c & Hc & Hin)%list_elem_of_bind & Hcs%elem_of_map_to_list).
      apply list_elem_of_singleton in Hc as [= -> ->].
      exists cs. split; [done |].
      apply list_elem_of_fmap in Hin as ([c' rms] & -> & Hin%elem_of_map_to_list).
      by exists rms.
    + intros (cs & Hcs & rms & Hrms).
      exists (index, cs). split; [| by apply elem_of_map_to_list].
      apply list_elem_of_bind. exists collection. split; [by left |].
      apply list_elem_of_fmap. exists (collection, rms).
      split; [done | by apply elem_of_map_to_list].
Qed.

Lemma coordinator_writes_Redis cs : coordinator_writes (Redis <$> cs) = cs.
Proof. induction cs as [|c cs IH]; cbn; [done |]. by f_equal. Qed.

Lemma broadcasts_Redis cs : broadcasts (Redis <$> cs) = [].
Proof. by induction cs as [|c cs IH]. Qed.

(** [Bluebird.all] rejects when one of the promises does, with the reason
    of one of them. *)
Lemma Bluebird_all_Err {A} (rs : list (result A)) :
  (∀ e, Bluebird_all rs = Err e → Err e ∈ rs)
  ∧ (∀ e, Err e ∈ rs → ∃ e', Bluebird_all rs = Err e').
Proof.
  induction rs as [|[a|e0] rs [IH1 IH2]]; cbn.
  - split; [done |]. intros e H. by apply elem_of_nil in H.
  - split.
    + intros e He. destruct (Bluebird_all rs) as [l|e1]; [done |].
      injection He as ->. right. by apply IH1.
    + intros e [[=] | Hin]%elem_of_cons.
      destruct (IH2 e Hin) as [e' ->]. by exists e'.
  - split.
    + intros e [= ->]. by left.
    + intros e _. by exists e0.
Qed.

(** [cleanNode] when the node is another one, or the pool is not empty as
    the removal from the discovery set settles.  [Bluebird.all] is read as
    in [issue_all]. *)
Lemma cleanNode_scripts_run n w :
  let d := match n with ThisNode => node (me w) | OtherNode d => d end in
  let cmd := leave_discovery JSON_stringify d in
  let c1 := meanwhile (Redis cmd) (me w) in
  let scripts :=
    (λ '(index, collection),
       ClusterCleanNode (tag_of index collection) (node_uuid d))
      <$> tree_paths (Replica.tree (_rooms c1)) in
  let c2 := foldl (λ c script, meanwhile (Redis script) c) c1 scripts in
  let all := VObject [("event", VString "state:all")] in
  (n = ThisNode → node_pool_size c1 ≠ 0%nat) →
  invoke (cleanNode JSON_stringify coordinator publish state_reset meanwhile
            tree_paths n) w
  = match coordinator cmd with
    | Err e => (World c1 (trace w ++ [Redis cmd]), Rejected e)
    | Ok _ =>
      match Bluebird_all (coordinator <$> scripts) with
      | Err e =>
        (World c2 (trace w ++ [Redis cmd] ++ (Redis <$> scripts)), Rejected e)
      | Ok _ =>
        (World c2
           (trace w ++ [Redis cmd] ++ (Redis <$> scripts)
            ++ [Broadcast "cluster:sync" all]),
         match publish "cluster:sync" all with
         | Ok _ => Fulfilled ()
         | Err e => Rejected e
         end)
      end
    end.
Proof.
  intros d cmd c1 scripts c2 all Hpeer.
  unfold invoke, cleanNode, mbind, M_bind, mret, M_ret, this, redis, await. cbn.
  change (Srem _ _) with cmd.
  destruct (coordinator cmd) as [x|e]; [| done].
  fold c1.
  assert ((match n with ThisNode => true | OtherNode _ => false end
           && (node_pool_size c1 =? 0)%nat) = false) as ->.
  { destruct n; [| done]. cbn. apply Nat.eqb_neq. by apply Hpeer. }
  unfold issue_all. cbn. fold d scripts c2.
  destruct (Bluebird_all (coordinator <$> scripts)) as [l|e]; cbn.
  - unfold node_broadcast. cbn. rewrite <- !app_assoc. fold all.
    by destruct (publish "cluster:sync" all) as [[]|e].
  - by rewrite <- !app_assoc.
Qed.

(** X16.  The cleanup of a node that is not the last one out.  The loops
    of [cleanNode] visit the paths of the tree in the order the Maps
    iterate, whichever it is.  Once the node's bindings are removed from
    the discovery set, [cleanNode] calls the cleanNode script with the
    node's uuid for the paths in that order, each index and collection of
    the tree once, as the tree is when the removal has settled, and sends
    no other command; [state.reset ()] is not invoked; the state:all event
    is broadcast when every script has answered, and when one is rejected
    the promise is rejected with the error of a rejected script and nothing
    is broadcast. *)
Theorem cleanNode_scripts n w removed :
  let d := match n with ThisNode => node (me w) | OtherNode d => d end in
  let cmd := leave_discovery JSON_stringify d in
  let c1 := meanwhile (Redis cmd) (me w) in
  let paths := tree_paths (Replica.tree (_rooms c1)) in
  let scripts :=
    (λ '(index, collection),
       ClusterCleanNode (tag_of index collection) (node_uuid d)) <$> paths in
  let run := invoke (cleanNode JSON_stringify coordinator publish state_reset
                       meanwhile tree_paths n) w in
  paths ≡ₚ paths_by_key (Replica.tree (_rooms c1)) →
  (n = ThisNode → node_pool_size c1 ≠ 0%nat) →
  coordinator cmd = Ok removed →
  coordinator_writes (trace run.1) = coordinator_writes (trace w) ++ cmd :: scripts
  ∧ NoDup paths
  ∧ (∀ index collection,
       (index, collection) ∈ paths
       ↔ ∃ collections,
           Replica.tree (_rooms c1) !! index = Some collections
           ∧ is_Some (collections !! collection))
  ∧ (StateReset ∈ trace run.1 → StateReset ∈ trace w)
  ∧ ((∀ script, script ∈ scripts → ∃ answer, coordinator script = Ok answer) →
     broadcasts (trace run.1)
     = broadcasts (trace w)
       ++ [("cluster:sync", VObject [("event", VString "state:all")])])
  ∧ (∀ script e,
       script ∈ scripts → coordinator script = Err e →
       broadcasts (trace run.1) = broadcasts (trace w)
       ∧ ∃ script' e',
           script' ∈ scripts ∧ coordinator script' = Err e'
           ∧ run.2 = Rejected e').
Proof.
  intros d cmd c1 paths scripts run Horder Hpeer Hremoved.
  destruct (paths_by_key_spec (Replica.tree (_rooms c1))) as [Hnd Hpaths].
  destruct (Bluebird_all_Err (coordinator <$> scripts)) as [Hfirst Hsome].
  assert (∀ e, Err e ∈ coordinator <$> scripts
               ↔ ∃ script, script ∈ scripts ∧ coordinator script = Err e) as Hin.
  { intros e. rewrite list_elem_of_fmap. naive_solver. }
  subst run. rewrite (cleanNode_scripts_run n w Hpeer).
  fold d cmd c1 paths scripts. rewrite Hremoved.
  split; [| split; [by rewrite Horder | split; [intros i c; by rewrite Horder |]]].
  { destruct (Bluebird_all (coordinator <$> scripts)) as [l|e]; cbn [fst snd me trace];
      unfold coordinator_writes; rewrite !omap_app;
      fold (coordinator_writes (Redis <$> scripts));
      rewrite coordinator_writes_Redis; cbn; by rewrite ?app_nil_r. }
  split; [| split].
  - destruct (Bluebird_all (coordinator <$> scripts)) as [l|e]; cbn [fst snd me trace].
    + rewrite !elem_of_app.
      intros [H | [H | [H | H]]]; [done | | |].
      * by apply list_elem_of_singleton in H.
      * apply list_elem_of_fmap in H as (script & Hscript & _). discriminate Hscript.
      * by apply list_elem_of_singleton in H.
    + rewrite !elem_of_app.
      intros [H | [H | H]]; [done | |].
      * by apply list_elem_of_singleton in H.
      * apply list_elem_of_fmap in H as (script & Hscript & _). discriminate Hscript.
  - intros Hall.
    destruct (Bluebird_all (coordinator <$> scripts)) as [l|e] eqn:Hb.
    + cbn [fst snd me trace]. unfold broadcasts. rewrite !omap_app.
      fold (broadcasts (Redis <$> scripts)). rewrite broadcasts_Redis. cbn.
      by rewrite ?app_nil_r.
    + specialize (Hfirst e eq_refl).
      apply Hin in Hfirst as (script & Hscript & Herr).
      destruct (Hall script Hscript) as [answer Hanswer]. congruence.
  - intros script e Hscript Herr.
    destruct (Hsome e) as [e' He']; [apply Hin; by exists script |].
    rewrite He'. cbn [fst snd me trace]. split.
    + unfold broadcasts. rewrite !omap_app.
      fold (broadcasts (Redis <$> scripts)). rewrite broadcasts_Redis. cbn.
      by rewrite ?app_nil_r.
    + apply Hfirst, Hin in He' as (script' & Hscript' & Herr').
      by exists script', e'.
Qed.

Lemma log_run level msg w :
  ∃ line, log level msg w = (World (me w) (trace w ++ [line]), Ok ()).
Proof.
  unfold log, mbind, M_bind, this, emit. cbn.
  destruct (_isKuzzleStarted (me w)); by eexists.
Qed.

Lemma cleanNode_returns n w :
  ∃ p, cleanNode JSON_stringify coordinator publish state_reset meanwhile
         tree_paths n w
       = (w, Ok p).
Proof. unfold cleanNode, mbind, M_bind, this, mret, M_ret. cbn. by eexists. Qed.

(** X17.  The shutdown path runs once.  Whatever the state of the cluster
    object, a second call of [_onShutDown], made once the first has
    returned, returns [undefined] and does nothing: no log line, no
    command, no second [cleanNode]. *)
Theorem _onShutDown_once event1 event2 w :
  let first := _onShutDown JSON_stringify coordinator publish state_reset
                 meanwhile tree_paths event1 w in
  _onShutDown JSON_stringify coordinator publish state_reset meanwhile tree_paths
    event2 first.1
  = (first.1, Ok None).
Proof.
  intros first.
  assert (_shutdown (me first.1) = true) as Hflag.
  { unfold first, _onShutDown.
    unfold mbind at 1, M_bind at 1, this at 1. cbn.
    destruct (_shutdown (me w)) eqn:Hw; [done |].
    unfold mbind at 1, M_bind at 1, modify. cbn.
    unfold mbind at 1, M_bind at 1.
    edestruct log_run as [line ->].
    unfold mbind at 1, M_bind at 1.
    edestruct cleanNode_returns as [p ->]. done. }
  unfold _onShutDown at 1.
  unfold mbind at 1, M_bind at 1, this at 1. cbn. by rewrite Hflag.
Qed.

End HookFacts.

(** ** The locks, and the permission checks of the list override *)
Section LockFacts.
Import KuzzleCluster.

(** X18.  A lock taken for a room is released by the unlock hook of a
    request that names the room in its body: [roomCreated] followed by
    [unlockCreateRoom], and [roomDeleted] followed by [unlockDeleteRoom],
    leave the room id out of the lock set and every other lock as it was.
    The empty string is the exception: the hooks take it for a missing
    [roomId] and leave it locked. *)
Theorem unlock_after_lock request id w :
  body_roomId request = VString id →
  (roomCreated id;; Locks.unlockCreateRoom request) w
  = (World (set_locks_create
              (if String.eqb id "" then locks_create (me w) ∪ {[ id ]}
               else locks_create (me w) ∖ {[ id ]})
              (me w))
       (trace w), Ok ())
  ∧ (roomDeleted id;; Locks.unlockDeleteRoom request) w
    = (World (set_locks_delete
                (if String.eqb id "" then locks_delete (me w) ∪ {[ id ]}
                 else locks_delete (me w) ∖ {[ id ]})
                (me w))
         (trace w), Ok ()).
Proof.
  intros Hid.
  assert (no_roomId request = String.eqb id "") as Hno.
  { unfold no_roomId. rewrite Hid.
    destruct (input_body request) eqn:Hbody;
      try (by unfold body_roomId in Hid; rewrite Hbody in Hid).
    cbn. by destruct (String.eqb id ""). }
  unfold roomCreated, roomDeleted, Locks.unlockCreateRoom, Locks.unlockDeleteRoom.
  unfold mbind, M_bind, modify, mret, M_ret. cbn. rewrite Hno, Hid.
  destruct (String.eqb id ""); cbn; [done |].
  assert (∀ s : gset string, (s ∪ {[id]}) ∖ {[id]} = s ∖ {[id]}) as Hs by set_solver.
  by rewrite !Hs.
Qed.

(** X19.  When no name in the replica is a name of [Object.prototype]
    (nor a room id [__proto__]), the list override is rejected exactly
    when the permission check of some room of [flat] is, and with the
    reason of such a check; when every check answers, allowing or not, the
    promise is fulfilled with a listing. *)
Theorem realtime_list_rejects
    (flat_entries : gmap string Replica.room → list (string * Replica.room))
    (request : Request) (c : cluster) :
  let flat := Replica.flat (_rooms c) in
  let check (room : Replica.room) :=
    isActionAllowed (context_user request) "document" "search"
      (Replica.room_index room) (Replica.room_collection room) in
  flat_entries flat ≡ₚ map_to_list flat →
  plain_names flat →
  (∀ e, _realtimeListOverride flat_entries request c = Err e →
        ∃ roomId room, flat !! roomId = Some room ∧ check room = Err e)
  ∧ (∀ roomId room e,
       flat !! roomId = Some room → check room = Err e →
       ∃ e', _realtimeListOverride flat_entries request c = Err e')
  ∧ ((∀ roomId room, flat !! roomId = Some room →
        ∃ isAllowed, check room = Ok isAllowed) →
     ∃ l, _realtimeListOverride flat_entries request c = Ok (Some l)).
Proof.
  intros flat check Hperm Hplain.
  assert (∀ r rm, (r, rm) ∈ flat_entries flat ↔ flat !! r = Some rm) as Hin.
  { intros r rm. rewrite Hperm. apply elem_of_map_to_list. }
  unfold _realtimeListOverride. fold flat.
  set (entries := flat_entries flat) in *.
  set (promises := (λ '(roomId, room), check room) <$> entries).
  change ((λ '(roomId, room),
             isActionAllowed (context_user request) "document" "search"
               (Replica.room_index room) (Replica.room_collection room))
            <$> entries) with promises.
  destruct (Bluebird_all_Err promises) as [H1 H2]. split; [| split].
  - intros e He.
    destruct (Bluebird_all promises) as [answers|e1] eqn:Hall.
    + by destruct (negb (truthy _)).
    + injection He as ->. specialize (H1 e eq_refl).
      apply list_elem_of_fmap in H1 as ([roomId room] & Hcheck & Hroom%Hin).
      by exists roomId, room.
  - intros roomId room e Hroom%Hin Hcheck.
    destruct (H2 e) as [e' ->]; [| by exists e'].
    apply list_elem_of_fmap. by exists (roomId, room).
  - intros Hanswer.
    set (allowed := λ index collection,
           match isActionAllowed (context_user request) "document" "search"
                   index collection with
           | Ok isAllowed => isAllowed
           | Err _ => false
           end).
    subst promises.
    rewrite (Bluebird_all_Ok _
      (λ e : string * Replica.room,
         allowed (Replica.room_index e.2) (Replica.room_collection e.2))).
    2: { intros [r rm] Hrm%Hin. destruct (Hanswer r rm Hrm) as [b Hb].
         unfold allowed. cbn. unfold check in Hb. by rewrite Hb. }
    rewrite zip_fmap_self, foldl_fmap.
    rewrite (foldl_ext_in _
      (λ acc '(roomId, room),
         list ← acc;
         if negb (allowed (Replica.room_index room) (Replica.room_collection room))
         then Some list else list_room list roomId room)).
    2: { by intros acc [r rm] _. }
    rewrite collect_collected.
    2: { intros r rm Hrm%Hin _. destruct (Hplain r rm Hrm) as (? & ? & _). done. }
    destruct (truthy (member "sorted" (VObject (input_args request)))); cbn.
    + rewrite sorted_listing_copy; [by eexists |].
      apply plain_listing_collected. intros r rm Hrm%Hin _.
      destruct (Hplain r rm Hrm) as (? & ? & _). done.
    + by eexists.
Qed.

End LockFacts.

(** ** The statements above at work *)
Section MoreScenarios.
Import KuzzleCluster.

Lemma pipes_resolve_when_not_ready_witness :
  let w := World fresh_node [] in
  ∃ l1 l2 l3,
    only_logs [l1; l2; l3]
    ∧ invoke (subscriptionAdded stringify_stub obliging delivered undisturbed
                a_diff) w
      = (World (me w) (trace w ++ [l1]), Fulfilled a_diff)
    ∧ invoke (subscriptionJoined obliging delivered undisturbed a_diff) w
      = (World (me w) (trace w ++ [l2]), Fulfilled a_diff)
    ∧ invoke (subscriptionOff obliging delivered undisturbed a_removal) w
      = (World (me w) (trace w ++ [l3]), Fulfilled a_removal).
Proof.
  intros w.
  apply (pipes_resolve_when_not_ready stringify_stub obliging delivered
           undisturbed a_diff a_removal w).
  reflexivity.
Defined.

Lemma subscriptionAdded_registers_witness :
  let w := World ready_node [] in
  let cmd1 := subOn_of stringify_stub ready_node a_diff in
  let cmd2 := register_of a_diff in
  let run := invoke (subscriptionAdded stringify_stub obliging delivered
                       undisturbed a_diff) w in
  cmd1 = ClusterSubOn "{nyc/taxi}" "7c9e6679" "room-1" "conn-1" "{}"
  ∧ cmd2 = Sadd "cluster:collections" "nyc/taxi"
  ∧ coordinator_writes (trace run.1) = coordinator_writes (trace w) ++ [cmd1; cmd2]
  ∧ _rooms (me run.1) = (guarded ready_node "nyc" "taxi" "room-1" 1 (Num 1)).1
  ∧ ((guarded ready_node "nyc" "taxi" "room-1" 1 (Num 1)).2 = Ok () →
     broadcasts (trace run.1)
     = broadcasts (trace w)
       ++ [("cluster:sync", state_event "nyc" "taxi" "room-1" "add")]
     ∧ run.2 = Fulfilled a_diff).
Proof.
  intros w cmd1 cmd2 run. split; [reflexivity |]. split; [reflexivity |].
  apply (subscriptionAdded_registers stringify_stub obliging delivered
           undisturbed a_diff 1 (Num 1) (Integer 1) w); reflexivity.
Defined.

Lemma subscriptionAdded_store_failure_witness :
  let w := World ready_node [] in
  let e := ExternalError "READONLY You can't write against a read only replica." in
  let cmd1 := subOn_of stringify_stub ready_node a_diff in
  let cmd2 := register_of a_diff in
  let run := invoke (subscriptionAdded stringify_stub no_registry delivered
                       undisturbed a_diff) w in
  run.2 = Rejected e
  ∧ coordinator_writes (trace run.1) = coordinator_writes (trace w) ++ [cmd1; cmd2]
  ∧ broadcasts (trace run.1) = broadcasts (trace w)
  ∧ _rooms (me run.1) = _rooms ready_node.
Proof.
  intros w e cmd1 cmd2 run.
  apply (proj2 (subscriptionAdded_store_failure stringify_stub no_registry
                  delivered undisturbed a_diff e w eq_refl)
           (VersionCount 1 (Num 1)));
    reflexivity.
Defined.

Lemma subscriptionOff_steps_witness :
  let w := World city_node [] in
  let cmd := subOff_of city_node a_removal in
  let run := invoke (subscriptionOff obliging delivered undisturbed a_removal) w in
  coordinator_writes (trace run.1) = coordinator_writes (trace w) ++ [cmd]
  ∧ broadcasts (trace run.1)
    = broadcasts (trace w)
      ++ [("cluster:sync", state_event "nyc" "taxi" "room-1" "off")]
  ∧ run.2 = Fulfilled a_removal.
Proof.
  intros w cmd run.
  destruct (subscriptionOff_steps obliging delivered undisturbed a_removal w
              eq_refl) as (Hwrites & _ & Hsteps).
  split; [exact Hwrites |].
  apply (Hsteps 1 (Num 1)); reflexivity.
Defined.

Lemma ready_hooks_broadcast_once_witness :
  let w := World ready_node [] in
  ∃ payload,
    fire delivered (Dump (list_request [("suffix", VString "-nightly")])) w
    = (World (me w) (trace w ++ [Broadcast "cluster:admin:dump" payload]),
       delivered "cluster:admin:dump" payload)
    ∧ ∀ data,
        Dump (list_request [("suffix", VString "-nightly")]) = NotifyDocument data
        ∨ Dump (list_request [("suffix", VString "-nightly")]) = NotifyUser data →
        payload = data.
Proof.
  intros w.
  apply (ready_hooks_broadcast_once delivered
           (Dump (list_request [("suffix", VString "-nightly")])) w).
  reflexivity.
Defined.

Lemma indexCache_payload_witness :
  let w := World ready_node [] in
  let payload := [ ("index", VString "nyc"); ("collection", VString "taxi");
                   ("scope", VString "public") ] in
  ∃ added removed,
    indexCacheAdded delivered payload w
    = (World (me w) (trace w ++ [Broadcast "cluster:sync" (VObject added)]),
       delivered "cluster:sync" (VObject added))
    ∧ indexCacheRemoved delivered payload w
      = (World (me w) (trace w ++ [Broadcast "cluster:sync" (VObject removed)]),
         delivered "cluster:sync" (VObject removed))
    ∧ ∀ k,
        match Obj.get_own k payload with
        | Some v => Obj.get_own k added = Some v ∧ Obj.get_own k removed = Some v
        | None =>
          if String.eqb k "event"
          then Obj.get_own k added = Some (VString "indexCache:add")
               ∧ Obj.get_own k removed = Some (VString "indexCache:remove")
          else Obj.get_own k added = None ∧ Obj.get_own k removed = None
        end.
Proof.
  intros w payload.
  apply (indexCache_payload delivered payload w).
  - reflexivity.
  - apply (bool_decide_unpack (NoDup (Obj.keys payload))). vm_compute. exact I.
Defined.

Lemma cleanNode_scripts_witness :
  let w := World city_node [] in
  let cmd := leave_discovery stringify_stub a_peer in
  let run := invoke (cleanNode stringify_stub obliging delivered (Ok ())
                       undisturbed city_paths (OtherNode a_peer)) w in
  coordinator_writes (trace run.1)
  = [ cmd; ClusterCleanNode "{nyc/taxi}" "1b9d6bcd";
      ClusterCleanNode "{nyc/bus}" "1b9d6bcd" ]
  ∧ (StateReset ∈ trace run.1 → StateReset ∈ trace w)
  ∧ broadcasts (trace run.1)
    = [("cluster:sync", VObject [("event", VString "state:all")])].
Proof.
  intros w cmd run.
  destruct (cleanNode_scripts stringify_stub obliging delivered (Ok ())
              undisturbed city_paths (OtherNode a_peer) w (Integer 1))
    as (Hwrites & _ & _ & Hreset & Hall & _).
  - apply (bool_decide_unpack
             (city_paths (Replica.tree (_rooms city_node))
              ≡ₚ paths_by_key (Replica.tree (_rooms city_node)))).
    vm_compute. exact I.
  - discriminate.
  - reflexivity.
  - split; [exact Hwrites |]. split; [exact Hreset |].
    apply Hall. intros script Hscript.
    apply list_elem_of_fmap in Hscript as ([index collection] & -> & _).
    by eexists.
Defined.

Lemma unlock_after_lock_witness :
  let w := World ready_node [] in
  (roomCreated "room-1";; Locks.unlockCreateRoom (join_request "room-1")) w
  = (World (set_locks_create (locks_create ready_node ∖ {[ "room-1" ]}) ready_node)
       [], Ok ())
  ∧ (roomDeleted "room-1";; Locks.unlockDeleteRoom (join_request "room-1")) w
    = (World (set_locks_delete (locks_delete ready_node ∖ {[ "room-1" ]}) ready_node)
         [], Ok ()).
Proof.
  intros w.
  apply (unlock_after_lock (join_request "room-1") "room-1" w).
  reflexivity.
Defined.

Lemma guarded_hooks_drop_witness :
  let w := World fresh_node [] in
  ∃ line,
    fire delivered (NotifyDocument (VObject [("_id", VString "doc-1")])) w
    = (World (me w) (trace w ++ [line]), Ok ())
    ∧ only_logs [line].
Proof.
  intros w.
  apply (guarded_hooks_drop delivered
           (NotifyDocument (VObject [("_id", VString "doc-1")])) w).
  reflexivity.
Defined.

Lemma _realtimeCountOverride_run_witness :
  let request := count_request (VObject [("roomId", VString "R")]) in
  let w := World ready_node [] in
  invoke (_realtimeCountOverride late_sync request 0) w
  = (World (late_sync (Delay 500) ready_node) [Delay 500],
     Fulfilled (VObject [("count", VNumber (Num 1))])).
Proof.
  intros request w.
  apply (_realtimeCountOverride_run late_sync request w); reflexivity.
Defined.

Lemma _realtimeCountOverride_invalid_witness :
  let w := World ready_node [] in
  ∃ msg,
    invoke (_realtimeCountOverride undisturbed
              (count_request (VObject [("room", VString "room-1")])) 0) w
    = (w, match context (me w) with
          | Some _ => Rejected (BadRequestError msg)
          | None => Thrown (undefined_has_no "errors")
          end).
Proof.
  intros w.
  apply (_realtimeCountOverride_invalid undisturbed
           (count_request (VObject [("room", VString "room-1")])) 0 w).
  right. reflexivity.
Defined.

Lemma pipes_keep_replica_sound_witness :
  let w := World ready_node [] in
  sound taxi_only (me w)
  ∧ sound taxi_only
      (me (invoke (subscriptionAdded stringify_stub obliging delivered
                     undisturbed a_diff) w).1)
  ∧ sound taxi_only
      (me (invoke (subscriptionOff obliging delivered undisturbed a_removal) w).1).
Proof.
  intros w.
  assert (sound taxi_only (me w)) as Hw.
  { split; [apply replica_inv_empty |]. intros roomId room H. cbn in H.
    by rewrite lookup_empty in H. }
  split; [exact Hw |].
  destruct (pipes_keep_replica_sound stringify_stub obliging delivered
              undisturbed taxi_only w (λ _ _ H, H) Hw) as [Hadded Hoff].
  split; [apply (Hadded a_diff) | apply (Hoff a_removal)]; reflexivity.
Defined.

Lemma realtime_list_rejects_witness :
  Replica.flat (_rooms three_rooms) !! "R1" = Some (Replica.Room "i2" "c2" (Num 4))
  ∧ ∃ e, _realtimeListOverride map_to_list strangers_request three_rooms = Err e.
Proof.
  split; [reflexivity |].
  destruct (realtime_list_rejects map_to_list strangers_request three_rooms)
    as (_ & Hrejects & _).
  - reflexivity.
  - apply (bool_decide_unpack
      (map_Forall (λ roomId room,
         Obj.inherited (Replica.room_index room) = false
         ∧ Obj.inherited (Replica.room_collection room) = false
         ∧ roomId ≠ "__proto__") _)).
    vm_compute. exact I.
  - apply (Hrejects "R1" (Replica.Room "i2" "c2" (Num 4))
             (ExternalError "Connection is closed.")); reflexivity.
Defined.

Lemma version_guard_witness :
  let w := World ready_node [] in
  let run := invoke (subscriptionAdded stringify_stub obliging delivered
                       undisturbed a_diff) w in
  node_ready (me w) = true
  ∧ obliging (subOn_of stringify_stub (me w) a_diff) = Ok (VersionCount 1 (Num 1))
  ∧ obliging (register_of a_diff) = Ok (Integer 1)
  ∧ (getVersion (me w) "nyc" "taxi" <? 1) = true
  ∧ applied "nyc" "taxi" "room-1" (Num 1) (_rooms (me w)) (_rooms (me run.1)).
Proof.
  intros w run. do 4 (split; [reflexivity |]).
  exact (proj1 (proj2 (proj2 (version_guard stringify_stub obliging delivered
                                undisturbed)))
           a_diff 1 (Num 1) (Integer 1) w eq_refl eq_refl eq_refl).
Defined.

(** C2 as stated fails in [subscriptionAdded] when the registration of the
    collection is rejected: the subOn script has run and returned version 1
    and count 1, the version stored for nyc/taxi is 0, and the count is not
    applied: the replica is as it was and [flat] has no room-1. *)
Lemma version_guard_unregistered :
  let w := World ready_node [] in
  let run := invoke (subscriptionAdded stringify_stub no_registry delivered
                       undisturbed a_diff) w in
  no_registry (subOn_of stringify_stub (me w) a_diff) = Ok (VersionCount 1 (Num 1))
  ∧ coordinator_writes (trace run.1)
    = [subOn_of stringify_stub (me w) a_diff; register_of a_diff]
  ∧ (getVersion (me run.1) "nyc" "taxi" <? 1) = true
  ∧ _rooms (me run.1) = _rooms (me w)
  ∧ Replica.flat (_rooms (me run.1)) !! "room-1" = None
  ∧ ¬ applied "nyc" "taxi" "room-1" (Num 1) (_rooms (me w)) (_rooms (me run.1)).
Proof.
  intros w run. do 5 (split; [reflexivity |]).
  intros [Hflat _]. apply (f_equal (λ flat, flat !! "room-1")) in Hflat.
  vm_compute in Hflat. discriminate Hflat.
Qed.

End MoreScenarios.
